(** * A shallow embedding of the scrcpy protocol client (scrcpy_client.py)

    The client object and the outside world (device transport, sockets,
    decoder, subscribers) are modelled by explicit state passing in a small
    state-and-exception monad.  Every observable step (log record, call to an
    external collaborator, write to a public attribute, event publication,
    subscriber invocation) is appended to a trace, so that ordering
    properties can be stated on it. *)

From Stdlib Require Import List NArith PeanoNat Lia String Ascii Bool.
From Stdlib Require DecimalString HexadecimalString.
From Stdlib.Strings Require Import Byte.
Import ListNotations.

Set Implicit Arguments.

(* ================================================================= *)
(** ** Bytes, integers on the wire, text *)

Definition bytes := list byte.

(** [int.from_bytes(b, byteorder="big")] *)
Definition from_bytes_big (b : bytes) : N :=
  fold_left (fun acc x => (acc * 256 + Byte.to_N x)%N) b 0%N.

(** Python slice [l[lo:hi]] for [0 <= lo <= hi]. *)
Definition slice (A : Type) (lo hi : nat) (l : list A) : list A :=
  firstn (hi - lo) (skipn lo l).

(** The byte whose value is [n mod 256]. *)
Definition byte_of_N (n : N) : byte :=
  match Byte.of_N (n mod 256) with
  | Some b => b
  | None => x00
  end.

(** The 4-byte big-endian field a sender writes for the unsigned value [n]
    (wire format of the length, width and height fields). *)
Definition u32_be (n : N) : bytes :=
  [ byte_of_N (n / 16777216); byte_of_N (n / 65536);
    byte_of_N (n / 256); byte_of_N n ].

(** A Python [str]: a sequence of Unicode code points. *)
Definition str := list N.

Definition is_cont (b : N) : bool := ((0x80 <=? b) && (b <=? 0xBF))%N.

(** Bounds of the second byte of a three-byte sequence led by [b0]. *)
Definition lo3 (b0 : N) : N := if (b0 =? 0xE0)%N then 0xA0%N else 0x80%N.
Definition hi3 (b0 : N) : N := if (b0 =? 0xED)%N then 0x9F%N else 0xBF%N.
(** Bounds of the second byte of a four-byte sequence led by [b0]. *)
Definition lo4 (b0 : N) : N := if (b0 =? 0xF0)%N then 0x90%N else 0x80%N.
Definition hi4 (b0 : N) : N := if (b0 =? 0xF4)%N then 0x8F%N else 0xBF%N.

(** Strict UTF-8 decoding, as [bytes.decode("utf-8")] performs it: [None]
    stands for [UnicodeDecodeError] (stray continuation byte, truncated
    sequence, overlong form, surrogate, value above U+10FFFF). *)
Fixpoint utf8_decode (bs : list N) : option str :=
  match bs with
  | [] => Some []
  | b0 :: r0 =>
    if (b0 <? 0x80)%N then option_map (cons b0) (utf8_decode r0)
    else if ((0xC2 <=? b0) && (b0 <=? 0xDF))%N then
      match r0 with
      | b1 :: r1 =>
        if is_cont b1
        then option_map (cons ((b0 - 0xC0) * 64 + (b1 - 0x80))%N)
                        (utf8_decode r1)
        else None
      | [] => None
      end
    else if ((0xE0 <=? b0) && (b0 <=? 0xEF))%N then
      match r0 with
      | b1 :: b2 :: r2 =>
        if ((lo3 b0 <=? b1) && (b1 <=? hi3 b0))%N && is_cont b2
        then option_map
               (cons ((b0 - 0xE0) * 4096 + (b1 - 0x80) * 64 + (b2 - 0x80))%N)
               (utf8_decode r2)
        else None
      | _ => None
      end
    else if ((0xF0 <=? b0) && (b0 <=? 0xF4))%N then
      match r0 with
      | b1 :: b2 :: b3 :: r3 =>
        if ((lo4 b0 <=? b1) && (b1 <=? hi4 b0))%N && is_cont b2 && is_cont b3
        then option_map
               (cons ((b0 - 0xF0) * 262144 + (b1 - 0x80) * 4096
                      + (b2 - 0x80) * 64 + (b3 - 0x80))%N)
               (utf8_decode r3)
        else None
      | _ => None
      end
    else None
  end.

Definition decode_utf8 (b : bytes) : option str :=
  utf8_decode (map Byte.to_N b).

(** [s.rstrip("\x00")] *)
Definition rstrip_nul (s : str) : str :=
  fold_right
    (fun c acc =>
       match acc with
       | [] => if (c =? 0)%N then [] else [c]
       | _ => c :: acc
       end) [] s.

Definition ascii_lower (c : N) : N :=
  if ((65 <=? c) && (c <=? 90))%N then (c + 32)%N else c.

Definition is_ascii_str (s : str) : bool := forallb (fun c => (c <? 128)%N) s.

Fixpoint str_eqb (a b : str) : bool :=
  match a, b with
  | [], [] => true
  | x :: a', y :: b' => (x =? y)%N && str_eqb a' b'
  | _, _ => false
  end.

(** The literal ["h264"]. *)
Definition h264 : str := [104; 50; 54; 52]%N.

(** [f"{n:x}"], [f"{n:08x}"] and [str(n)] for a non-negative integer. *)
Definition fmt_x (n : N) : string :=
  HexadecimalString.NilZero.string_of_uint (N.to_hex_uint n).

Fixpoint zeros (k : nat) : string :=
  match k with
  | O => EmptyString
  | S k' => String "0"%char (zeros k')
  end.

Definition fmt_08x (n : N) : string :=
  let d := fmt_x n in
  String.append (zeros (8 - String.length d)) d.

Definition str_of_N (n : N) : string :=
  DecimalString.NilZero.string_of_uint (N.to_uint n).

(* ================================================================= *)
(** ** Insertion-ordered dictionaries with string keys *)

(** A Python [dict[str, str]]: keys are distinct and keep their insertion
    order. *)
Definition dict := list (string * string).



(** [d[k] = v]: an existing key keeps its position, a new key goes last. *)
Fixpoint dict_set (k v : string) (d : dict) : dict :=
  match d with
  | [] => [(k, v)]
  | (k', v') :: rest =>
    if String.eqb k' k then (k', v) :: rest
    else (k', v') :: dict_set k v rest
  end.

(** [d1 | d2]: a copy of [d1] updated with the items of [d2] in order. *)
Definition dict_or (d1 d2 : dict) : dict :=
  fold_left (fun acc kv => dict_set (fst kv) (snd kv) acc) d2 d1.

(* ================================================================= *)
(** ** Module constants *)

Definition SERVER_VERSION : string := "3.3.3".
Definition SERVER_REMOTE_PATH : string := "/data/local/tmp/scrcpy-server.jar".
Definition SOCKET_NAME_PREFIX : string := "scrcpy".
Definition DEFAULT_BIT_RATE : N := 8000000.
Definition DEFAULT_MAX_FPS : N := 30.

Definition DEVICE_NAME_FIELD_LENGTH : nat := 64.
Definition CODEC_ID_FIELD_LENGTH : nat := 4.
Definition VIDEO_HEADER_FIELD_LENGTH : nat * nat := (4, 4)%nat.

Inductive ListenEvent := FRAME | INIT.

Definition ListenEvent_eqb (a b : ListenEvent) : bool :=
  match a, b with
  | FRAME, FRAME | INIT, INIT => true
  | _, _ => false
  end.

(** Python exceptions, as far as the client's handlers tell them apart.
    All of them are subclasses of [Exception]. *)
Inductive Exn :=
| SocketTimeout           (* socket.timeout *)
| ConnectionAbortedError
| OtherOSError            (* BrokenPipeError, ConnectionResetError, ... *)
| FileNotFoundError
| IOError                 (* an alias of OSError *)
| UnicodeDecodeError
| InvalidDataError        (* av.InvalidDataError *)
| AssertionError
| RuntimeError
| AdbError
| OtherException.

(** [isinstance(e, socket.error)]; [socket.error] is [OSError]. *)
Definition is_OSError (e : Exn) : bool :=
  match e with
  | SocketTimeout | ConnectionAbortedError | OtherOSError
  | FileNotFoundError | IOError => true
  | _ => false
  end.

Inductive Level := LDebug | LInfo | LWarning | LError.

Inductive LogMsg :=
| MsgCheckingServer | MsgServerUpToDate | MsgServerNotOnDevice
| MsgStatFailed (e : Exn) | MsgPushingServer | MsgServerPushed
| MsgPushFailed (e : Exn)
| MsgStartingServer | MsgServerStarted (pid : N)
| MsgSettingUpTunnel | MsgWaitingVideo | MsgVideoConnected
| MsgWaitingControl | MsgControlConnected
| MsgDeviceName (name : str) | MsgVideoCodec (codec : str)
| MsgUnsupportedCodec (codec : str)
| MsgResolution (w h : N) | MsgZeroResolution
| MsgConnectTimedOut | MsgConnectFailed (e : Exn)
| MsgStartingLoop | MsgStreamEnded | MsgSocketError (e : Exn)
| MsgAvDecodingError (e : Exn) | MsgUnexpectedLoopError (e : Exn)
| MsgLoopStopped
| MsgListenerError (ev : ListenEvent) (e : Exn)
| MsgAlreadyRunning
| MsgStoppingClient | MsgServerTerminated | MsgTunnelRemoved
| MsgRemoveTunnelFailed (e : Exn) | MsgClientStopped.

(** Handles of the resources a client holds.  As Python objects they are
    all truthy. *)
Inductive Socket := VideoConn | ControlConn.
Inductive Popen := PopenHandle (pid : N).
Inductive Thread := Worker.

(** A subscriber is a Python callable, identified here by a number. *)
Definition ListenerId := nat.

Inductive ProcState := NotLaunched | ProcRunning | ProcSignalled | ProcReaped.

(** One thing that happens on the video connection while the client waits
    in [recv]: bytes arrive (an empty arrival is the peer closing), the wait
    times out, or the connection fails. *)
Inductive SockEvent :=
| SockBytes (b : bytes)
| SockTimeout
| SockError.

Inductive AcceptResult := Accepted | AcceptTimeout | AcceptError.

(** What a subscriber does when it is called: return, raise, or call
    [client.stop()] and return (as the viewer of the unthreaded example
    does on a key press). *)
Inductive ListenerAct :=
| ActReturn
| ActRaise (e : Exn)
| ActStop.

(** What the environment answers, fixed for a run. *)
Record Env := mkEnv {
  device_serial : option string;
  adb_path : string;
  remote_stat : Exn + N * N;     (* device.sync.stat: size, mtime *)
  local_stat : Exn + N * N;      (* server_path.stat(): size, int(mtime) *)
  push_result : option Exn;      (* device.sync.push: [None] is success *)
  bound_port : N;                (* getsockname()[1] after bind *)
  reverse_result : option Exn;   (* device.reverse *)
  popen_result : Exn + N         (* subprocess.Popen: pid *)
}.

(** Outcome of running a piece of client code. *)
Inductive Res (A : Type) :=
| Ok (a : A)
| Raise (e : Exn)
| OutOfFuel.

Arguments Ok {A} a.
Arguments Raise {A} e.
Arguments OutOfFuel {A}.

(** Control transfer out of a loop body. *)
Inductive Ctl := Continue | Break.

Section Model.

(** The frame decoder and the subscribers are external collaborators. *)
Variable Frame : Type.          (* a decoded frame as a bgr24 array *)
Variable Packet : Type.         (* a compressed unit returned by the parser *)
Variable CodecState : Type.     (* the internal state of a codec context *)
Variable UserState : Type.      (* the state of the subscribers' program *)

Variable codec_create : str -> CodecState.
Variable codec_parse : CodecState -> bytes -> CodecState * (Exn + list Packet).
Variable codec_decode : CodecState -> Packet -> CodecState * (Exn + list Frame).
Variable listener_body :
  ListenerId -> ListenEvent -> option Frame -> UserState ->
  UserState * ListenerAct.
(** [str.lower] on text that is not pure ASCII (Unicode case tables). *)
Variable unicode_lower : str -> str.

(** [s.lower()] *)
Definition py_lower (s : str) : str :=
  if is_ascii_str s then map ascii_lower s else unicode_lower s.

(** The public attributes whose writes are recorded in the trace. *)
Inductive AttrWrite :=
| WIsRunning (b : bool)
| WLastFrame (f : option Frame)
| WResolution (r : option (N * N))
| WDeviceName (s : str)
| WVideoCodec (s : str).

(** Calls to external collaborators that are recorded in the trace. *)
Inductive ExtCall :=
| CSyncStat | CSyncPush
| CBindListen
| CReverse (remote local : string)
| CPopen (argv : list string)
| CAccept
| CServerSocketClose
| CThreadStart | CThreadJoin
| CCloseControl | CCloseVideo
| CTerminate | CWait
| CShell (argv : list string)
| CCodecCreate (name : str)
| CCodecParse (data : bytes)
| CCodecDecode (p : Packet).

Inductive Event :=
| Log (lvl : Level) (msg : LogMsg)
| Call (c : ExtCall)
| SetAttr (w : AttrWrite)
| Publish (ev : ListenEvent) (arg : option Frame)
| Invoke (ev : ListenEvent) (l : ListenerId) (arg : option Frame).

(** The attributes of a [ScrcpyClient] instance. *)
Record Client := mkClient {
  scid : N;
  socket_name : string;
  listeners : ListenEvent -> list ListenerId;
  is_running : bool;
  last_frame : option Frame;
  resolution : option (N * N);
  _server_process : option Popen;
  _video_socket : option Socket;
  _control_socket : option Socket;
  _stream_thread : option Thread;
  _local_port : option N;
  device_name : str;
  video_codec : str;
  _custom_server_args : dict
}.

(** Everything outside the client object: the oracles of the environment,
    what the peer and the device transport will answer, the status of the
    resources the client holds, the heap objects owned by the stream loop
    ([data_buffer], [codec]) and the subscribers' own state. *)
Record World := mkWorld {
  env : Env;
  trace : list Event;
  accepts : list AcceptResult;
  video_in : list SockEvent;
  shell_results : list (option Exn);
  video_closed : bool;
  control_closed : bool;
  proc_state : ProcState;
  thread_alive : bool;
  in_worker : bool;
  data_buffer : bytes;
  codec : CodecState;
  user : UserState
}.

(** Functional record updates. *)

Definition with_listeners (v : ListenEvent -> list ListenerId)
  (x : Client) : Client :=
  mkClient (scid x) (socket_name x) v (is_running x) (last_frame x)
    (resolution x) (_server_process x) (_video_socket x)
    (_control_socket x) (_stream_thread x) (_local_port x) (device_name x)
    (video_codec x) (_custom_server_args x).

Definition with_is_running (v : bool) (x : Client) : Client :=
  mkClient (scid x) (socket_name x) (listeners x) v (last_frame x)
    (resolution x) (_server_process x) (_video_socket x)
    (_control_socket x) (_stream_thread x) (_local_port x) (device_name x)
    (video_codec x) (_custom_server_args x).

Definition with_last_frame (v : option Frame) (x : Client) : Client :=
  mkClient (scid x) (socket_name x) (listeners x) (is_running x) v
    (resolution x) (_server_process x) (_video_socket x)
    (_control_socket x) (_stream_thread x) (_local_port x) (device_name x)
    (video_codec x) (_custom_server_args x).

Definition with_resolution (v : option (N * N)) (x : Client) : Client :=
  mkClient (scid x) (socket_name x) (listeners x) (is_running x)
    (last_frame x) v (_server_process x) (_video_socket x)
    (_control_socket x) (_stream_thread x) (_local_port x) (device_name x)
    (video_codec x) (_custom_server_args x).

Definition with__server_process (v : option Popen) (x : Client) : Client :=
  mkClient (scid x) (socket_name x) (listeners x) (is_running x)
    (last_frame x) (resolution x) v (_video_socket x) (_control_socket x)
    (_stream_thread x) (_local_port x) (device_name x) (video_codec x)
    (_custom_server_args x).

Definition with__video_socket (v : option Socket) (x : Client) : Client :=
  mkClient (scid x) (socket_name x) (listeners x) (is_running x)
    (last_frame x) (resolution x) (_server_process x) v (_control_socket x)
    (_stream_thread x) (_local_port x) (device_name x) (video_codec x)
    (_custom_server_args x).

Definition with__control_socket (v : option Socket) (x : Client) : Client :=
  mkClient (scid x) (socket_name x) (listeners x) (is_running x)
    (last_frame x) (resolution x) (_server_process x) (_video_socket x) v
    (_stream_thread x) (_local_port x) (device_name x) (video_codec x)
    (_custom_server_args x).

Definition with__stream_thread (v : option Thread) (x : Client) : Client :=
  mkClient (scid x) (socket_name x) (listeners x) (is_running x)
    (last_frame x) (resolution x) (_server_process x) (_video_socket x)
    (_control_socket x) v (_local_port x) (device_name x) (video_codec x)
    (_custom_server_args x).

Definition with__local_port (v : option N) (x : Client) : Client :=
  mkClient (scid x) (socket_name x) (listeners x) (is_running x)
    (last_frame x) (resolution x) (_server_process x) (_video_socket x)
    (_control_socket x) (_stream_thread x) v (device_name x)
    (video_codec x) (_custom_server_args x).

Definition with_device_name (v : str) (x : Client) : Client :=
  mkClient (scid x) (socket_name x) (listeners x) (is_running x)
    (last_frame x) (resolution x) (_server_process x) (_video_socket x)
    (_control_socket x) (_stream_thread x) (_local_port x) v
    (video_codec x) (_custom_server_args x).

Definition with_video_codec (v : str) (x : Client) : Client :=
  mkClient (scid x) (socket_name x) (listeners x) (is_running x)
    (last_frame x) (resolution x) (_server_process x) (_video_socket x)
    (_control_socket x) (_stream_thread x) (_local_port x) (device_name x)
    v (_custom_server_args x).

Definition with_trace (v : list Event) (x : World) : World :=
  mkWorld (env x) v (accepts x) (video_in x) (shell_results x)
    (video_closed x) (control_closed x) (proc_state x) (thread_alive x)
    (in_worker x) (data_buffer x) (codec x) (user x).

Definition with_accepts (v : list AcceptResult) (x : World) : World :=
  mkWorld (env x) (trace x) v (video_in x) (shell_results x)
    (video_closed x) (control_closed x) (proc_state x) (thread_alive x)
    (in_worker x) (data_buffer x) (codec x) (user x).

Definition with_video_in (v : list SockEvent) (x : World) : World :=
  mkWorld (env x) (trace x) (accepts x) v (shell_results x)
    (video_closed x) (control_closed x) (proc_state x) (thread_alive x)
    (in_worker x) (data_buffer x) (codec x) (user x).

Definition with_shell_results (v : list (option Exn)) (x : World) : World :=
  mkWorld (env x) (trace x) (accepts x) (video_in x) v (video_closed x)
    (control_closed x) (proc_state x) (thread_alive x) (in_worker x)
    (data_buffer x) (codec x) (user x).

Definition with_video_closed (v : bool) (x : World) : World :=
  mkWorld (env x) (trace x) (accepts x) (video_in x) (shell_results x) v
    (control_closed x) (proc_state x) (thread_alive x) (in_worker x)
    (data_buffer x) (codec x) (user x).

Definition with_control_closed (v : bool) (x : World) : World :=
  mkWorld (env x) (trace x) (accepts x) (video_in x) (shell_results x)
    (video_closed x) v (proc_state x) (thread_alive x) (in_worker x)
    (data_buffer x) (codec x) (user x).

Definition with_proc_state (v : ProcState) (x : World) : World :=
  mkWorld (env x) (trace x) (accepts x) (video_in x) (shell_results x)
    (video_closed x) (control_closed x) v (thread_alive x) (in_worker x)
    (data_buffer x) (codec x) (user x).

Definition with_thread_alive (v : bool) (x : World) : World :=
  mkWorld (env x) (trace x) (accepts x) (video_in x) (shell_results x)
    (video_closed x) (control_closed x) (proc_state x) v (in_worker x)
    (data_buffer x) (codec x) (user x).

Definition with_in_worker (v : bool) (x : World) : World :=
  mkWorld (env x) (trace x) (accepts x) (video_in x) (shell_results x)
    (video_closed x) (control_closed x) (proc_state x) (thread_alive x) v
    (data_buffer x) (codec x) (user x).

Definition with_data_buffer (v : bytes) (x : World) : World :=
  mkWorld (env x) (trace x) (accepts x) (video_in x) (shell_results x)
    (video_closed x) (control_closed x) (proc_state x) (thread_alive x)
    (in_worker x) v (codec x) (user x).

Definition with_codec (v : CodecState) (x : World) : World :=
  mkWorld (env x) (trace x) (accepts x) (video_in x) (shell_results x)
    (video_closed x) (control_closed x) (proc_state x) (thread_alive x)
    (in_worker x) (data_buffer x) v (user x).

Definition with_user (v : UserState) (x : World) : World :=
  mkWorld (env x) (trace x) (accepts x) (video_in x) (shell_results x)
    (video_closed x) (control_closed x) (proc_state x) (thread_alive x)
    (in_worker x) (data_buffer x) (codec x) v.

(* ================================================================= *)
(** ** The monad of client code *)

Definition State : Type := Client * World.

Definition M (A : Type) : Type := State -> Res A * State.

Definition ret {A} (a : A) : M A := fun s => (Ok a, s).

Definition raise {A} (e : Exn) : M A := fun s => (Raise e, s).

Definition out_of_fuel {A} : M A := fun s => (OutOfFuel, s).

Definition bind {A B} (m : M A) (f : A -> M B) : M B :=
  fun s =>
    match m s with
    | (Ok a, s') => f a s'
    | (Raise e, s') => (Raise e, s')
    | (OutOfFuel, s') => (OutOfFuel, s')
    end.

(** [try: m except ...:] where [h e] is the body of the first clause that
    matches [e], if any. *)
Definition try_except {A} (m : M A) (h : Exn -> option (M A)) : M A :=
  fun s =>
    match m s with
    | (Raise e, s') =>
      match h e with
      | Some k => k s'
      | None => (Raise e, s')
      end
    | r => r
    end.

(** [try: m finally: f] *)
Definition try_finally {A} (m : M A) (f : M unit) : M A :=
  fun s =>
    match m s with
    | (OutOfFuel, s') => (OutOfFuel, s')
    | (r, s') =>
      match f s' with
      | (Ok _, s'') => (r, s'')
      | (Raise e, s'') => (Raise e, s'')
      | (OutOfFuel, s'') => (OutOfFuel, s'')
      end
    end.

Declare Scope client_scope.
Delimit Scope client_scope with client.
Notation "x <- m ;; k" := (bind m (fun x => k))
  (at level 61, m at next level, right associativity) : client_scope.
Notation "m ;; k" := (bind m (fun _ => k))
  (at level 61, right associativity) : client_scope.
Local Open Scope client_scope.

Definition getc {A} (f : Client -> A) : M A := fun s => (Ok (f (fst s)), s).
Definition getw {A} (f : World -> A) : M A := fun s => (Ok (f (snd s)), s).
Definition modc (f : Client -> Client) : M unit :=
  fun s => (Ok tt, (f (fst s), snd s)).
Definition modw (f : World -> World) : M unit :=
  fun s => (Ok tt, (fst s, f (snd s))).

Definition when (b : bool) (m : M unit) : M unit := if b then m else ret tt.

Definition emit (e : Event) : M unit :=
  modw (fun w => with_trace (trace w ++ [e]) w).

Definition log (lvl : Level) (msg : LogMsg) : M unit := emit (Log lvl msg).
Definition call (c : ExtCall) : M unit := emit (Call c).

Definition write_attr (a : AttrWrite) : Client -> Client :=
  match a with
  | WIsRunning b => with_is_running b
  | WLastFrame f => with_last_frame f
  | WResolution r => with_resolution r
  | WDeviceName n => with_device_name n
  | WVideoCodec n => with_video_codec n
  end.

(** [self.<attr> = v] for a public attribute. *)
Definition assign (a : AttrWrite) : M unit :=
  modc (write_attr a);; emit (SetAttr a).

(** Truth value of an object reference: [None] is false. *)
Definition truthy {A} (o : option A) : bool :=
  match o with
  | Some _ => true
  | None => false
  end.

(** Truth value of [self._local_port]: [None] and [0] are false. *)
Definition truthy_port (o : option N) : bool :=
  match o with
  | Some p => negb (p =? 0)%N
  | None => false
  end.

(* ================================================================= *)
(** ** External collaborators *)

Definition lift_result {A} (r : Exn + A) : M A :=
  match r with
  | inl e => raise e
  | inr a => ret a
  end.

Definition lift_outcome (r : option Exn) : M unit :=
  match r with
  | Some e => raise e
  | None => ret tt
  end.

Definition sync_stat : M (N * N) :=
  call CSyncStat;; r <- getw (fun w => remote_stat (env w));; lift_result r.

Definition path_stat : M (N * N) :=
  r <- getw (fun w => local_stat (env w));; lift_result r.

Definition sync_push : M unit :=
  call CSyncPush;; r <- getw (fun w => push_result (env w));; lift_outcome r.

Definition device_reverse (remote local : string) : M unit :=
  call (CReverse remote local);;
  r <- getw (fun w => reverse_result (env w));; lift_outcome r.

Definition popen (argv : list string) : M Popen :=
  call (CPopen argv);;
  r <- getw (fun w => popen_result (env w));;
  pid <- lift_result r;;
  modw (with_proc_state ProcRunning);;
  ret (PopenHandle pid).

(** [server_socket.accept()] under the 30 s timeout; when nothing more is
    scripted no peer ever connects. *)
Definition accept (conn : Socket) : M Socket :=
  call CAccept;;
  l <- getw accepts;;
  match l with
  | Accepted :: rest => modw (with_accepts rest);; ret conn
  | AcceptTimeout :: rest => modw (with_accepts rest);; raise SocketTimeout
  | AcceptError :: rest => modw (with_accepts rest);; raise OtherOSError
  | [] => raise SocketTimeout
  end.

Fixpoint drop_timeouts (l : list SockEvent) : list SockEvent :=
  match l with
  | SockTimeout :: rest => drop_timeouts rest
  | _ => l
  end.

(** The bytes of an arrival that a receive left unread stay at the front of
    the queue. *)
Definition requeue (left : bytes) (rest : list SockEvent) : list SockEvent :=
  match left with
  | [] => rest
  | _ => SockBytes left :: rest
  end.

(** [video_socket.recv(k)].  A blocking receive waits through timeouts; a
    receive on a closed socket fails; at most [k] of the bytes that arrived
    are returned and the others stay queued; once the script is used up
    the peer has closed the connection. *)
Definition sock_recv (blocking : bool) (k : nat) : M bytes :=
  fun s =>
    let w := snd s in
    if video_closed w then (Raise OtherOSError, s)
    else
      match (if blocking then drop_timeouts (video_in w) else video_in w) with
      | [] => (Ok [], (fst s, with_video_in [] w))
      | SockBytes b :: rest =>
        (Ok (firstn k b), (fst s, with_video_in (requeue (skipn k b) rest) w))
      | SockTimeout :: rest => (Raise SocketTimeout, (fst s, with_video_in rest w))
      | SockError :: rest => (Raise OtherOSError, (fst s, with_video_in rest w))
      end.

(** Closing a socket twice is allowed and changes nothing. *)
Definition close_control : M unit :=
  call CCloseControl;; modw (with_control_closed true).

Definition close_video : M unit :=
  call CCloseVideo;; modw (with_video_closed true).

(** The state of a process after [terminate()]: a signal is sent unless the
    process has already been waited for. *)
Definition signal (st : ProcState) : ProcState :=
  match st with
  | ProcRunning => ProcSignalled
  | _ => st
  end.

(** The state of a process after [wait()]. *)
Definition reap (st : ProcState) : ProcState :=
  match st with
  | ProcRunning | ProcSignalled => ProcReaped
  | _ => st
  end.

Definition proc_terminate : M unit :=
  call CTerminate;;
  modw (fun w => with_proc_state (signal (proc_state w)) w).

Definition proc_wait : M unit :=
  call CWait;;
  modw (fun w => with_proc_state (reap (proc_state w)) w).

(** [device.shell(argv)]; when nothing more is scripted the call returns. *)
Definition device_shell (argv : list string) : M unit :=
  call (CShell argv);;
  l <- getw shell_results;;
  match l with
  | [] => ret tt
  | r :: rest => modw (with_shell_results rest);; lift_outcome r
  end.

Definition thread_start : M unit :=
  call CThreadStart;; modw (with_thread_alive true).

(** [Thread.join()]: joining the current thread is a [RuntimeError];
    otherwise the caller waits until the worker has finished. *)
Definition thread_join : M unit :=
  call CThreadJoin;;
  me <- getw in_worker;;
  if me then raise RuntimeError else modw (with_thread_alive false).

Definition codec_parse_call (data : bytes) : M (list Packet) :=
  call (CCodecParse data);;
  st <- getw codec;;
  modw (with_codec (fst (codec_parse st data)));;
  lift_result (snd (codec_parse st data)).

Definition codec_decode_call (p : Packet) : M (list Frame) :=
  call (CCodecDecode p);;
  st <- getw codec;;
  modw (with_codec (fst (codec_decode st p)));;
  lift_result (snd (codec_decode st p)).

(* ================================================================= *)
(** ** The client's methods *)

Definition str_of_string (s : string) : str :=
  map N_of_ascii (list_ascii_of_string s).

(** [ScrcpyClient.__init__], given whether [server_path] exists and the
    session id drawn by [random.randint(0, 0x7FFFFFFF)]. *)
Definition __init__ (path_exists : bool) (rand : N)
  (server_args : option dict) : Exn + Client :=
  if negb path_exists then inl FileNotFoundError
  else
    inr (mkClient rand
           (SOCKET_NAME_PREFIX ++ "_" ++ fmt_08x rand)%string
           (fun _ => []) false None None
           None None None None None
           (str_of_string "unknown") (str_of_string "h264")
           match server_args with
           | None => []
           | Some d => d
           end).

Definition predefined : dict :=
  [ ("log_level", "info");
    ("video_bit_rate", str_of_N DEFAULT_BIT_RATE);
    ("max_fps", str_of_N DEFAULT_MAX_FPS);
    ("audio", "false") ]%string.

Definition _get_server_args (c : Client) : list string :=
  let all := dict_or predefined (_custom_server_args c) in
  let server_args := [SERVER_VERSION; ("scid=" ++ fmt_x (scid c))%string] in
  fold_left
    (fun acc kv => acc ++ [(fst kv ++ "=" ++ snd kv)%string])
    all server_args.

Definition _push_server : M unit :=
  log LDebug MsgCheckingServer;;
  up_to_date <-
    try_except
      (remote <- sync_stat;;
       local <- path_stat;;
       if ((fst remote =? fst local) && (snd remote =? snd local))%N
       then log LDebug MsgServerUpToDate;; ret true
       else ret false)
      (fun e =>
         match e with
         | FileNotFoundError =>
           Some (log LDebug MsgServerNotOnDevice;; ret false)
         | _ => Some (log LWarning (MsgStatFailed e);; ret false)
         end);;
  if up_to_date then ret tt
  else
    log LDebug MsgPushingServer;;
    try_except
      (sync_push;; log LDebug MsgServerPushed)
      (fun e => Some (log LError (MsgPushFailed e);; raise IOError)).

Definition _start_server : M unit :=
  serial <- getw (fun w => device_serial (env w));;
  match serial with
  | None => raise AssertionError
  | Some serial =>
    log LDebug MsgStartingServer;;
    server_args <- getc _get_server_args;;
    let command :=
      [ ("CLASSPATH=" ++ SERVER_REMOTE_PATH)%string; "app_process"%string;
        "/"%string; "com.genymobile.scrcpy.Server"%string ] ++ server_args in
    adb <- getw (fun w => adb_path (env w));;
    let adb_command :=
      [adb; "-s"%string; serial; "shell"%string] ++ command in
    p <- popen adb_command;;
    modc (with__server_process (Some p));;
    match p with
    | PopenHandle pid => log LInfo (MsgServerStarted pid)
    end
  end.

Fixpoint _recv_all_loop (fuel n : nat) (data : bytes) : M bytes :=
  if List.length data <? n then
    match fuel with
    | O => out_of_fuel
    | S fuel' =>
      packet <- sock_recv true (n - List.length data);;
      match packet with
      | [] => raise ConnectionAbortedError
      | _ => _recv_all_loop fuel' n (data ++ packet)
      end
    end
  else ret data.

(** Every round adds at least one byte, so [n] rounds are enough. *)
Definition _recv_all (n : nat) : M bytes := _recv_all_loop n n [].

Definition stop : M unit :=
  log LInfo MsgStoppingClient;;
  assign (WIsRunning false);;
  thread <- getc _stream_thread;;
  alive <- getw thread_alive;;
  when (truthy thread && alive) thread_join;;
  control <- getc _control_socket;;
  when (truthy control) close_control;;
  video <- getc _video_socket;;
  when (truthy video) close_video;;
  process <- getc _server_process;;
  when (truthy process)
    (proc_terminate;; proc_wait;; log LDebug MsgServerTerminated);;
  port <- getc _local_port;;
  when (truthy_port port)
    (name <- getc socket_name;;
     try_except
       (device_shell
          ["reverse"; "--remove"; ("localabstract:" ++ name)]%string;;
        log LDebug MsgTunnelRemoved)
       (fun e => Some (log LWarning (MsgRemoveTunnelFailed e))));;
  assign (WResolution None);;
  assign (WLastFrame None);;
  log LInfo MsgClientStopped.

(** Calling the subscriber [l]. *)
Definition call_listener (ev : ListenEvent) (l : ListenerId)
  (arg : option Frame) : M unit :=
  emit (Invoke ev l arg);;
  u <- getw user;;
  modw (with_user (fst (listener_body l ev arg u)));;
  match snd (listener_body l ev arg u) with
  | ActReturn => ret tt
  | ActRaise e => raise e
  | ActStop => stop
  end.

Fixpoint for_listeners (ev : ListenEvent) (arg : option Frame)
  (ls : list ListenerId) : M unit :=
  match ls with
  | [] => ret tt
  | l :: rest =>
    try_except (call_listener ev l arg)
      (fun e => Some (log LError (MsgListenerError ev e)));;
    for_listeners ev arg rest
  end.

Definition _send_to_listeners (ev : ListenEvent) (arg : option Frame)
  : M unit :=
  emit (Publish ev arg);;
  ls <- getc (fun c => listeners c ev);;
  for_listeners ev arg ls.

Definition add_listener (event : ListenEvent) (listener : ListenerId)
  : M unit :=
  modc (fun c =>
          with_listeners
            (fun e =>
               if ListenEvent_eqb e event
               then listeners c e ++ [listener]
               else listeners c e) c).

Fixpoint remove_first (x : ListenerId) (l : list ListenerId)
  : list ListenerId :=
  match l with
  | [] => []
  | y :: rest => if Nat.eqb y x then rest else y :: remove_first x rest
  end.

Definition remove_listener (event : ListenEvent) (listener : ListenerId)
  : M unit :=
  modc (fun c =>
          with_listeners
            (fun e =>
               if ListenEvent_eqb e event
               then remove_first listener (listeners c e)
               else listeners c e) c).

(** The [except] clauses of [_connect_sockets], in order. *)
Definition connect_handlers (e : Exn) : option (M bool) :=
  match e with
  | SocketTimeout => Some (log LError MsgConnectTimedOut;; ret false)
  | _ =>
    if is_OSError e
    then Some (log LError (MsgConnectFailed e);; ret false)
    else None
  end.

(** The [try] block of [_connect_sockets]. *)
Definition connect_body : M bool :=
  log LDebug MsgWaitingVideo;;
  video <- accept VideoConn;;
  modc (with__video_socket (Some video));;
  log LDebug MsgVideoConnected;;
  log LDebug MsgWaitingControl;;
  control <- accept ControlConn;;
  modc (with__control_socket (Some control));;
  log LDebug MsgControlConnected;;
  device_name_bytes <- _recv_all DEVICE_NAME_FIELD_LENGTH;;
  match decode_utf8 device_name_bytes with
  | None => raise UnicodeDecodeError
  | Some name =>
    assign (WDeviceName (rstrip_nul name));;
    shown <- getc device_name;;
    log LDebug (MsgDeviceName shown);;
    codec_id_bytes <- _recv_all CODEC_ID_FIELD_LENGTH;;
    match decode_utf8 codec_id_bytes with
    | None => raise UnicodeDecodeError
    | Some id =>
      assign (WVideoCodec id);;
      shown <- getc video_codec;;
      log LDebug (MsgVideoCodec shown);;
      current <- getc video_codec;;
      if negb (str_eqb (py_lower current) h264)
      then log LError (MsgUnsupportedCodec current);; ret false
      else
        width_bytes <- _recv_all (fst VIDEO_HEADER_FIELD_LENGTH);;
        height_bytes <- _recv_all (snd VIDEO_HEADER_FIELD_LENGTH);;
        let width := from_bytes_big width_bytes in
        let height := from_bytes_big height_bytes in
        assign (WResolution (Some (width, height)));;
        log LDebug (MsgResolution width height);;
        res <- getc resolution;;
        match res with
        | Some (0%N, 0%N) => log LError MsgZeroResolution;; ret false
        | _ => _send_to_listeners INIT None;; ret true
        end
    end
  end.

Definition _connect_sockets : M bool :=
  log LDebug MsgSettingUpTunnel;;
  call CBindListen;;
  port <- getw (fun w => bound_port (env w));;
  modc (with__local_port (Some port));;
  name <- getc socket_name;;
  device_reverse ("localabstract:" ++ name)%string
                 ("tcp:" ++ str_of_N port)%string;;
  _start_server;;
  try_finally (try_except connect_body connect_handlers)
              (call CServerSocketClose).

(** [for frame in frames: ...] *)
Fixpoint for_frames (frames : list Frame) : M unit :=
  match frames with
  | [] => ret tt
  | frame :: rest =>
    assign (WLastFrame (Some frame));;
    shown <- getc last_frame;;
    _send_to_listeners FRAME shown;;
    for_frames rest
  end.

(** [for packet in packets: ...] *)
Fixpoint for_packets (packets : list Packet) : M unit :=
  match packets with
  | [] => ret tt
  | packet :: rest =>
    frames <- codec_decode_call packet;;
    for_frames frames;;
    for_packets rest
  end.

(** The inner [while self.is_running:] loop of [_stream_loop]. *)
Fixpoint extract_while (fuel : nat) : M unit :=
  match fuel with
  | O => out_of_fuel
  | S fuel' =>
    running <- getc is_running;;
    if negb running then ret tt
    else
      buf <- getw data_buffer;;
      if (N.of_nat (List.length buf) <? 12)%N then ret tt
      else
        let packet_size := from_bytes_big (slice 8 12 buf) in
        if (N.of_nat (List.length buf) <? 12 + packet_size)%N then ret tt
        else
          let packet_data := slice 12 (12 + N.to_nat packet_size) buf in
          modw (with_data_buffer (skipn (12 + N.to_nat packet_size) buf));;
          packets <- codec_parse_call packet_data;;
          for_packets packets;;
          extract_while fuel'
  end.

(** The size passed to [recv] by the stream loop, [0x10000]. *)
Definition RECV_SIZE : nat := N.to_nat 0x10000.

(** The [except] clauses of the stream loop, in order. *)
Definition stream_handlers (e : Exn) : option (M Ctl) :=
  if is_OSError e
  then Some (running <- getc is_running;;
             when running (log LWarning (MsgSocketError e));;
             ret Break)
  else
    match e with
    | InvalidDataError =>
      Some (log LWarning (MsgAvDecodingError e);; ret Continue)
    | _ =>
      Some (running <- getc is_running;;
            when running (log LError (MsgUnexpectedLoopError e));;
            ret Break)
    end.

(** One round of the outer [while self.is_running:] loop.  Every packet
    extracted shortens the accumulator by at least 12 bytes, so the inner
    loop needs no more rounds than the accumulator has bytes, plus one. *)
Definition stream_iteration : M Ctl :=
  try_except
    (received <-
       try_except
         (chunk <- sock_recv false RECV_SIZE;;
          match chunk with
          | [] => log LDebug MsgStreamEnded;; ret (Some Break)
          | _ =>
            modw (fun w => with_data_buffer (data_buffer w ++ chunk) w);;
            ret None
          end)
         (fun e =>
            match e with
            | SocketTimeout => Some (ret (Some Continue))
            | _ => None
            end);;
     match received with
     | Some ctl => ret ctl
     | None =>
       buf <- getw data_buffer;;
       extract_while (S (List.length buf));;
       ret Continue
     end)
    stream_handlers.

(** The outer loop of [_stream_loop]. *)
Fixpoint stream_while (fuel : nat) : M unit :=
  match fuel with
  | O => out_of_fuel
  | S fuel' =>
    running <- getc is_running;;
    if negb running then ret tt
    else
      ctl <- stream_iteration;;
      match ctl with
      | Break => ret tt
      | Continue => stream_while fuel'
      end
  end.

(** How many calls of [recv] a script can answer before the peer has
    closed. *)
Fixpoint script_measure (l : list SockEvent) : nat :=
  match l with
  | [] => 0
  | SockBytes b :: rest => S (List.length b) + script_measure rest
  | _ :: rest => S (script_measure rest)
  end.

Definition _stream_loop : M unit :=
  video <- getc _video_socket;;
  match video with
  | None => raise AssertionError
  | Some _ =>
    log LDebug MsgStartingLoop;;
    name <- getc video_codec;;
    call (CCodecCreate (py_lower name));;
    modw (with_codec (codec_create (py_lower name)));;
    modw (with_data_buffer []);;
    script <- getw video_in;;
    stream_while (S (script_measure script));;
    assign (WIsRunning false);;
    log LInfo MsgLoopStopped
  end.

Definition start (threaded : bool) : M unit :=
  running <- getc is_running;;
  if running then log LWarning MsgAlreadyRunning
  else
    _push_server;;
    connected <- _connect_sockets;;
    if negb connected then stop
    else
      assign (WIsRunning true);;
      if threaded
      then modc (with__stream_thread (Some Worker));; thread_start
      else _stream_loop.

(** What the worker thread executes: [_stream_loop] as the thread's target.
    An exception that escapes the target ends the thread and reaches no
    caller. *)
Definition worker_run : M unit :=
  modw (with_in_worker true);;
  try_except _stream_loop (fun _ => Some (ret tt));;
  modw (with_thread_alive false);;
  modw (with_in_worker false).

(** One session, sequentialised: [start], then the worker if one was
    started. *)
Definition session (threaded : bool) : M unit :=
  start threaded;;
  alive <- getw thread_alive;;
  when alive worker_run.

(* ================================================================= *)
(** ** Vocabulary of the statements *)


(** The part of the remote command line that precedes the server's
    arguments. *)
Definition command_prefix (adb serial : string) : list string :=
  [ adb; "-s"; serial; "shell";
    ("CLASSPATH=" ++ SERVER_REMOTE_PATH); "app_process"; "/";
    "com.genymobile.scrcpy.Server" ]%string.

(** [new_events s s' evs]: going from [s] to [s'] appended exactly [evs]
    to the trace. *)
Definition new_events (s s' : State) (evs : list Event) : Prop :=
  trace (snd s') = trace (snd s) ++ evs.

(** [emits P m]: whatever the state, running [m] only appends events that
    satisfy [P]. *)
Definition emits (P : Event -> bool) (A : Type) (m : M A) : Prop :=
  forall s, exists evs, new_events s (snd (m s)) evs /\ forallb P evs = true.

(** [total m]: running [m] never exhausts the fuel of a loop. *)
Definition total (A : Type) (m : M A) : Prop :=
  forall s, fst (m s) <> OutOfFuel.

Definition is_publish (e : Event) : bool :=
  match e with
  | Publish _ _ => true
  | _ => false
  end.

Definition is_publish_of (ev : ListenEvent) (e : Event) : bool :=
  match e with
  | Publish ev' _ => ListenEvent_eqb ev' ev
  | _ => false
  end.

Definition is_invoke (e : Event) : bool :=
  match e with
  | Invoke _ _ _ => true
  | _ => false
  end.

Definition is_parse_call (e : Event) : bool :=
  match e with
  | Call (CCodecParse _) => true
  | _ => false
  end.

Definition not_event (P : Event -> bool) (e : Event) : bool := negb (P e).

(** Events that involve neither the subscribers nor the decoder: log
    records, attribute writes, calls to the transport and to the
    operating system. *)
Definition handshake_event (e : Event) : bool :=
  match e with
  | Log _ _ | SetAttr _ => true
  | Call (CCodecCreate _) | Call (CCodecParse _) | Call (CCodecDecode _) =>
    false
  | Call _ => true
  | Publish _ _ | Invoke _ _ _ => false
  end.

(** Writes to the attributes that identify the device and its codec. *)
Definition is_identity_write (e : Event) : bool :=
  match e with
  | SetAttr (WDeviceName _) | SetAttr (WVideoCodec _) => true
  | _ => false
  end.

(** The same, without the writes that only the handshake makes. *)
Definition quiet (e : Event) : bool :=
  handshake_event e && negb (is_identity_write e).

(** What may happen while subscribers are being called. *)
Definition listener_event (e : Event) : bool :=
  quiet e || is_invoke e.

(** What may happen inside the stream loop: anything but the [init] event
    and the writes of the handshake. *)
Definition stream_event (e : Event) : bool :=
  match e with
  | Publish INIT _ => false
  | _ => negb (is_identity_write e)
  end.

(** The steps of a teardown that release a resource or clear a cached
    attribute, and the record of a failed removal of the port forward. *)
Definition is_teardown_step (e : Event) : bool :=
  match e with
  | Call CCloseControl | Call CCloseVideo | Call CTerminate | Call CWait
  | Call (CShell _) => true
  | Log LWarning (MsgRemoveTunnelFailed _) => true
  | SetAttr (WResolution _) | SetAttr (WLastFrame _) => true
  | _ => false
  end.

(** What the next call of [device.shell] will do. *)
Definition next_shell_result (w : World) : option Exn :=
  match shell_results w with
  | r :: _ => r
  | [] => None
  end.

(** The teardown steps expected of [stop] from a client in state [c], when
    the removal of the port forward ends as [removal] says. *)
Definition teardown_steps (c : Client) (removal : option Exn) : list Event :=
  (if truthy (_control_socket c) then [Call CCloseControl] else []) ++
  (if truthy (_video_socket c) then [Call CCloseVideo] else []) ++
  (if truthy (_server_process c) then [Call CTerminate; Call CWait] else []) ++
  (if truthy_port (_local_port c)
   then Call (CShell ["reverse"; "--remove";
                      ("localabstract:" ++ socket_name c)]%string)
        :: match removal with
           | Some e => [Log LWarning (MsgRemoveTunnelFailed e)]
           | None => []
           end
   else []) ++
  [SetAttr (WResolution None); SetAttr (WLastFrame None)].

(** [stop] is called by the worker itself while the worker is alive. *)
Definition joins_itself (s : State) : bool :=
  truthy (_stream_thread (fst s)) && thread_alive (snd s) && in_worker (snd s).

(** The status of the resources a client holds. *)
Definition resources (w : World) : bool * bool * ProcState * bool :=
  (control_closed w, video_closed w, proc_state w, thread_alive w).

(** The attributes of a client after a completed [stop]. *)
Definition stop_client (c : Client) : Client :=
  with_last_frame None (with_resolution None (with_is_running false c)).

(** The status of the resources after a completed [stop]. *)
Definition stop_resources (c : Client) (w : World)
  : bool * bool * ProcState * bool :=
  (if truthy (_control_socket c) then true else control_closed w,
   if truthy (_video_socket c) then true else video_closed w,
   if truthy (_server_process c) then reap (signal (proc_state w))
   else proc_state w,
   if truthy (_stream_thread c) then false else thread_alive w).

(** The parts of the world that a teardown leaves alone. *)
Definition same_inputs (w w' : World) : Prop :=
  env w' = env w /\ accepts w' = accepts w /\ video_in w' = video_in w /\
  in_worker w' = in_worker w /\ data_buffer w' = data_buffer w /\
  codec w' = codec w /\ user w' = user w.

(** [wp m s Q]: running [m] from [s] ends with a result and in a state that
    satisfy [Q]. *)
Definition wp (A : Type) (m : M A) (s : State)
  (Q : Res A -> State -> Prop) : Prop :=
  Q (fst (m s)) (snd (m s)).

(** The calls by which [stop] releases a resource. *)
Definition is_release_call (e : Event) : bool :=
  match e with
  | Call CCloseControl | Call CCloseVideo | Call CTerminate | Call CWait
  | Call (CShell _) => true
  | _ => false
  end.

(** Everything [stop] may append to the trace. *)
Definition stop_event (e : Event) : bool :=
  match e with
  | Log _ _ => true
  | SetAttr (WIsRunning _) | SetAttr (WResolution _)
  | SetAttr (WLastFrame _) => true
  | Call CThreadJoin => true
  | _ => is_release_call e
  end.

(** What the call of subscriber [l], made in user state [u], appends to
    the trace: the invocation, then nothing more if the subscriber returns,
    the error record if it raises, and the steps of [stop] (and the error
    record, should [stop] raise) if it stops the client. *)
Definition segment_ok (ev : ListenEvent) (arg : option Frame)
  (l : ListenerId) (u : UserState) (seg : list Event) : Prop :=
  match snd (listener_body l ev arg u) with
  | ActReturn => seg = [Invoke ev l arg]
  | ActRaise e => seg = [Invoke ev l arg; Log LError (MsgListenerError ev e)]
  | ActStop =>
    exists body, seg = Invoke ev l arg :: body /\ forallb quiet body = true
  end.

(** [dispatched ev arg ls u evs]: [evs] is made of one segment per
    subscriber of [ls], in order, the first being called in user state
    [u]. *)
Fixpoint dispatched (ev : ListenEvent) (arg : option Frame)
  (ls : list ListenerId) (u : UserState) (evs : list Event) : Prop :=
  match ls with
  | [] => evs = []
  | l :: rest =>
    exists seg tail,
      evs = seg ++ tail /\
      segment_ok ev arg l u seg /\
      dispatched ev arg rest (fst (listener_body l ev arg u)) tail
  end.

(** [steady P R m]: whatever the state, running [m] stays within its fuel,
    relates the state before to the state after by [R], and only appends
    events that satisfy [P]. *)
Definition steady (P : Event -> bool) (R : State -> State -> Prop)
  (A : Type) (m : M A) : Prop :=
  forall s,
    fst (m s) <> OutOfFuel /\
    R s (snd (m s)) /\
    exists evs, new_events s (snd (m s)) evs /\ forallb P evs = true.

(** A relation between states that ignores the trace and the client. *)
Definition on_world (R : World -> World -> Prop) (s s' : State) : Prop :=
  R (snd s) (snd s').

(** A worker that is not alive stays so. *)
Definition no_worker (w w' : World) : Prop :=
  thread_alive w = false -> thread_alive w' = false.

(** The accumulator and what the peer still has to send are untouched, and
    a worker that is not alive stays so. *)
Definition same_stream (w w' : World) : Prop :=
  data_buffer w' = data_buffer w /\ video_in w' = video_in w /\
  no_worker w w'.

(** What may happen while a packet is decoded and its frames delivered. *)
Definition decode_event (e : Event) : bool :=
  match e with
  | Publish INIT _ => false
  | Call (CCodecParse _) | Call (CCodecCreate _) => false
  | _ => negb (is_identity_write e)
  end.

(** The payload length announced by the header at the front of [buf]. *)
Definition declared_length (buf : bytes) : N :=
  from_bytes_big (slice 8 12 buf).

(** The accumulator holds no complete packet: less than a header, or a
    header and less than the payload it announces. *)
Definition waiting (buf : bytes) : Prop :=
  (N.of_nat (List.length buf) < 12)%N \/
  ((12 <= N.of_nat (List.length buf))%N /\
   (N.of_nat (List.length buf) < 12 + declared_length buf)%N).

(** The payloads handed to the decoder, in order. *)
Fixpoint parsed_payloads (evs : list Event) : list bytes :=
  match evs with
  | [] => []
  | Call (CCodecParse data) :: rest => data :: parsed_payloads rest
  | _ :: rest => parsed_payloads rest
  end.

(** The number of bytes taken from the accumulator for these payloads. *)
Definition consumed_bytes (payloads : list bytes) : nat :=
  list_sum (map (fun p => 12 + List.length p) payloads).

(** What can arrive while a packet is in flight: bytes (at least one), or
    a timeout of the wait. *)
Definition chunk_event (e : SockEvent) : Prop :=
  match e with
  | SockBytes b => b <> []
  | SockTimeout => True
  | SockError => False
  end.

(** All the bytes a script delivers, in order. *)
Fixpoint script_bytes (l : list SockEvent) : bytes :=
  match l with
  | [] => []
  | SockBytes b :: rest => b ++ script_bytes rest
  | _ :: rest => script_bytes rest
  end.

(** One packet on the wire: 8 reserved bytes, the length of the payload as
    a big-endian 32-bit field, the payload. *)
Definition packet_bytes (reserved payload : bytes) : bytes :=
  reserved ++ u32_be (N.of_nat (List.length payload)) ++ payload.

(** How the stream loop goes on after an exception: a payload the decoder
    rejects is skipped, anything else ends the loop. *)
Definition handler_ctl (e : Exn) : Ctl :=
  match e with
  | InvalidDataError => Continue
  | _ => Break
  end.

(** The codec identifiers written to [video_codec], in order. *)
Fixpoint codec_writes (evs : list Event) : list str :=
  match evs with
  | [] => []
  | SetAttr (WVideoCodec id) :: rest => id :: codec_writes rest
  | _ :: rest => codec_writes rest
  end.

(** The values written to [resolution], in order. *)
Fixpoint resolution_writes (evs : list Event) : list (option (N * N)) :=
  match evs with
  | [] => []
  | SetAttr (WResolution r) :: rest => r :: resolution_writes rest
  | _ :: rest => resolution_writes rest
  end.

(** The test of [_connect_sockets] on the codec identifier. *)
Definition supported (id : str) : bool := str_eqb (py_lower id) h264.

(** The trace of a handshake that succeeded: one codec identifier was
    read, a supported one, then a resolution other than (0, 0), then the
    [init] event was published, and nothing after it publishes [init]
    again or rewrites the identity of the device. *)
Definition init_published (evs : list Event) : Prop :=
  exists pre post id w h,
    evs = pre ++ Publish INIT None :: post /\
    forallb handshake_event pre = true /\
    codec_writes pre = [id] /\ supported id = true /\
    resolution_writes pre = [Some (w, h)] /\ (w, h) <> (0, 0)%N /\
    forallb stream_event post = true.

(** The trace of a run in which no handshake succeeded: nothing was
    published, and the run ended with a failure report unless every codec
    identifier read was a supported one. *)
Definition init_withheld (failed : bool) (evs : list Event) : Prop :=
  forallb handshake_event evs = true /\
  (failed = true \/ forallb supported (codec_writes evs) = true).

(** The threads are as they were. *)
Definition same_threads (w w' : World) : Prop :=
  in_worker w' = in_worker w /\ thread_alive w' = thread_alive w.

(** Whether [_connect_sockets] returned [False]. *)
Definition reports_failure (r : Res bool) : bool :=
  match r with
  | Ok false => true
  | _ => false
  end.

(** How a handshake ends: with [True] after the [init] event, or without
    the event, the threads and the running flag being as they were. *)
Definition handshake_outcome (s : State) (r : Res bool) (s' : State)
  : Prop :=
  r <> OutOfFuel /\
  exists evs,
    new_events s s' evs /\
    ((r = Ok true /\ init_published evs) \/
     (r <> Ok true /\
      init_withheld (reports_failure r) evs /\
      same_threads (snd s) (snd s') /\
      is_running (fst s') = is_running (fst s))).

(** Log records and calls to the transport and the operating system. *)
Definition launch_event (e : Event) : bool :=
  match e with
  | Log _ _ => true
  | Call c => handshake_event (Call c)
  | _ => false
  end.

(** How [start] ends: after a handshake that succeeded, or else without
    any event published and without a worker; in the latter case every
    codec identifier read was supported, unless the run ended with a
    complete [stop] from the state [s1] that the handshake left. *)
Definition start_outcome (s : State) (r : Res unit) (s' : State) : Prop :=
  r <> OutOfFuel /\
  exists evs,
    new_events s s' evs /\
    (init_published evs \/
     (forallb handshake_event evs = true /\
      no_worker (snd s) (snd s') /\
      (forallb supported (codec_writes evs) = true \/
       exists s1 pre,
         new_events s s1 pre /\
         in_worker (snd s1) = in_worker (snd s) /\
         (r, s') = stop s1))).

(** Whether the server file on the device has the size and the
    modification time of the local one. *)
Definition server_up_to_date (e : Env) : bool :=
  match remote_stat e, local_stat e with
  | inr remote, inr local =>
    ((fst remote =? fst local) && (snd remote =? snd local))%N
  | _, _ => false
  end.

Definition is_push_call (e : Event) : bool :=
  match e with
  | Call CSyncPush => true
  | _ => false
  end.

(** The launch of the server fails: the tunnel cannot be set up, the device
    has no serial, or the server process cannot be spawned. *)
Definition launch_fails (e : Env) : bool :=
  match reverse_result e, device_serial e, popen_result e with
  | None, Some _, inr _ => false
  | _, _, _ => true
  end.

Definition is_listen_close (e : Event) : bool :=
  match e with
  | Call CServerSocketClose => true
  | _ => false
  end.

Definition is_accept_call (e : Event) : bool :=
  match e with
  | Call CAccept => true
  | _ => false
  end.

(** The device answers a launch: the tunnel can be set up, the server
    process is spawned with pid [pid], both connections are opened, and the
    video socket delivers the bytes [stream], in arrivals of any sizes. *)
Definition device_answers (s : State) (pid : N) (later : list AcceptResult)
  (stream : bytes) : Prop :=
  launch_fails (env (snd s)) = false /\
  popen_result (env (snd s)) = inr pid /\
  accepts (snd s) = Accepted :: Accepted :: later /\
  video_closed (snd s) = false /\
  Forall chunk_event (video_in (snd s)) /\
  script_bytes (video_in (snd s)) = stream.

(** The four fields of a handshake that succeeds: a name that decodes to
    [n], a codec identifier that decodes to the supported [id], a width and
    a height that are not both zero. *)
Definition good_handshake (name id_bytes wb hb : bytes) (n id : str)
  : Prop :=
  List.length name = 64 /\ List.length id_bytes = 4 /\
  List.length wb = 4 /\ List.length hb = 4 /\
  decode_utf8 name = Some n /\ decode_utf8 id_bytes = Some id /\
  supported id = true /\
  (from_bytes_big wb, from_bytes_big hb) <> (0, 0)%N.

(** What a handshake that succeeds appends to the trace, launch
    included. *)
Definition handshake_events (c : Client) (e : Env) (serial : string)
  (pid : N) (n id : str) (w h : N) : list Event :=
  [ Log LDebug MsgSettingUpTunnel; Call CBindListen;
    Call (CReverse ("localabstract:" ++ socket_name c)
                   ("tcp:" ++ str_of_N (bound_port e)));
    Log LDebug MsgStartingServer;
    Call (CPopen (command_prefix (adb_path e) serial ++ _get_server_args c));
    Log LInfo (MsgServerStarted pid);
    Log LDebug MsgWaitingVideo; Call CAccept; Log LDebug MsgVideoConnected;
    Log LDebug MsgWaitingControl; Call CAccept;
    Log LDebug MsgControlConnected;
    SetAttr (WDeviceName (rstrip_nul n));
    Log LDebug (MsgDeviceName (rstrip_nul n));
    SetAttr (WVideoCodec id); Log LDebug (MsgVideoCodec id);
    SetAttr (WResolution (Some (w, h))); Log LDebug (MsgResolution w h);
    Publish INIT None; Call CServerSocketClose ]%string.

(** The client after a handshake that succeeded. *)
Definition connected_client (c : Client) (e : Env) (pid : N) (n id : str)
  (w h : N) : Client :=
  with_resolution (Some (w, h))
    (with_video_codec id
       (with_device_name (rstrip_nul n)
          (with__control_socket (Some ControlConn)
             (with__video_socket (Some VideoConn)
                (with__server_process (Some (PopenHandle pid))
                   (with__local_port (Some (bound_port e)) c)))))).

Definition is_error_log (e : Event) : bool :=
  match e with
  | Log LError _ => true
  | _ => false
  end.

(* ================================================================= *)
(** * Properties *)

(** ** Dictionaries and the server's arguments *)







(** ** Reasoning about traces *)

Lemma new_events_refl (s : State) : new_events s s [].
Proof. unfold new_events. symmetry. apply app_nil_r. Qed.

Lemma new_events_trans (s1 s2 s3 : State) (a b : list Event) :
  new_events s1 s2 a -> new_events s2 s3 b -> new_events s1 s3 (a ++ b).
Proof.
  unfold new_events. intros H1 H2. rewrite H2, H1. symmetry. apply app_assoc.
Qed.

Lemma new_events_inj (s s' : State) (a b : list Event) :
  new_events s s' a -> new_events s s' b -> a = b.
Proof.
  unfold new_events. intros H1 H2. rewrite H1 in H2.
  exact (app_inv_head _ _ _ H2).
Qed.

Lemma emits_ret (P : Event -> bool) (A : Type) (a : A) : emits P (ret a).
Proof. intro s. exists []. split; [apply new_events_refl | reflexivity]. Qed.

Lemma emits_raise (P : Event -> bool) (A : Type) (e : Exn) :
  emits P (@raise A e).
Proof. intro s. exists []. split; [apply new_events_refl | reflexivity]. Qed.

Lemma emits_out_of_fuel (P : Event -> bool) (A : Type) :
  emits P (@out_of_fuel A).
Proof. intro s. exists []. split; [apply new_events_refl | reflexivity]. Qed.

Lemma emits_getc (P : Event -> bool) (A : Type) (f : Client -> A) :
  emits P (getc f).
Proof. intro s. exists []. split; [apply new_events_refl | reflexivity]. Qed.

Lemma emits_getw (P : Event -> bool) (A : Type) (f : World -> A) :
  emits P (getw f).
Proof. intro s. exists []. split; [apply new_events_refl | reflexivity]. Qed.

Lemma emits_modc (P : Event -> bool) (f : Client -> Client) :
  emits P (modc f).
Proof.
  intro s. exists []. split; [|reflexivity].
  unfold new_events. simpl. symmetry. apply app_nil_r.
Qed.

Lemma emits_modw (P : Event -> bool) (f : World -> World) :
  (forall w, trace (f w) = trace w) -> emits P (modw f).
Proof.
  intros H s. exists []. split; [|reflexivity].
  unfold new_events. simpl. rewrite H. symmetry. apply app_nil_r.
Qed.

Lemma emits_emit (P : Event -> bool) (e : Event) :
  P e = true -> emits P (emit e).
Proof.
  intros H s. exists [e]. split; [reflexivity|]. simpl. rewrite H. reflexivity.
Qed.

Lemma emits_bind (P : Event -> bool) (A B : Type) (m : M A) (f : A -> M B) :
  emits P m -> (forall a, emits P (f a)) -> emits P (bind m f).
Proof.
  intros Hm Hf s. unfold bind.
  destruct (Hm s) as [e1 [H1 F1]].
  destruct (m s) as [[a| |] s1]; simpl in H1.
  - destruct (Hf a s1) as [e2 [H2 F2]].
    exists (e1 ++ e2). split; [exact (new_events_trans H1 H2)|].
    rewrite forallb_app, F1, F2. reflexivity.
  - exists e1. split; assumption.
  - exists e1. split; assumption.
Qed.

Lemma emits_try_except (P : Event -> bool) (A : Type) (m : M A)
  (h : Exn -> option (M A)) :
  emits P m -> (forall e k, h e = Some k -> emits P k) ->
  emits P (try_except m h).
Proof.
  intros Hm Hh s. unfold try_except.
  destruct (Hm s) as [e1 [H1 F1]].
  destruct (m s) as [[a|e|] s1]; simpl in H1.
  - exists e1. split; assumption.
  - destruct (h e) as [k|] eqn:E.
    + destruct (Hh e k E s1) as [e2 [H2 F2]].
      exists (e1 ++ e2). split; [exact (new_events_trans H1 H2)|].
      rewrite forallb_app, F1, F2. reflexivity.
    + exists e1. split; assumption.
  - exists e1. split; assumption.
Qed.

Lemma emits_try_finally (P : Event -> bool) (A : Type) (m : M A)
  (f : M unit) :
  emits P m -> emits P f -> emits P (try_finally m f).
Proof.
  intros Hm Hf s. unfold try_finally.
  destruct (Hm s) as [e1 [H1 F1]].
  destruct (m s) as [r s1]; simpl in H1.
  destruct (Hf s1) as [e2 [H2 F2]].
  assert (G : forallb P (e1 ++ e2) = true)
    by (rewrite forallb_app, F1, F2; reflexivity).
  pose proof (new_events_trans H1 H2) as H12.
  destruct r as [a|e|].
  - destruct (f s1) as [[u|e'|] s2]; exists (e1 ++ e2); split; assumption.
  - destruct (f s1) as [[u|e'|] s2]; exists (e1 ++ e2); split; assumption.
  - exists e1. split; assumption.
Qed.

Lemma emits_when (P : Event -> bool) (b : bool) (m : M unit) :
  emits P m -> emits P (when b m).
Proof. intro H. destruct b; [exact H | apply emits_ret]. Qed.

Lemma emits_weaken (P Q : Event -> bool) (A : Type) (m : M A) :
  (forall e, P e = true -> Q e = true) -> emits P m -> emits Q m.
Proof.
  intros HPQ Hm s. destruct (Hm s) as [evs [H F]].
  exists evs. split; [exact H|].
  rewrite forallb_forall in *. auto.
Qed.

Lemma quiet_listener_event (e : Event) :
  quiet e = true -> listener_event e = true.
Proof. unfold listener_event. intros ->. reflexivity. Qed.

Lemma listener_event_not_publish (e : Event) :
  listener_event e = true -> is_publish e = false.
Proof. destruct e as [|[]|[]|[]|]; cbv; congruence. Qed.

Lemma listener_event_stream_event (e : Event) :
  listener_event e = true -> stream_event e = true.
Proof. destruct e as [|[]|[]|[]|]; cbv; congruence. Qed.

Lemma quiet_not_invoke (e : Event) : quiet e = true -> is_invoke e = false.
Proof. destruct e as [|[]|[]|[]|]; cbv; congruence. Qed.

Lemma quiet_not_parse_call (e : Event) :
  quiet e = true -> is_parse_call e = false.
Proof. destruct e as [|[]|[]|[]|]; cbv; congruence. Qed.

Create HintDb emits.

Ltac emits_handler :=
  let e := fresh "e" in
  let k := fresh "k" in
  let H := fresh "H" in
  intros e k H; destruct e; simpl in H; try discriminate H;
  injection H as <-.

Ltac emits_step :=
  lazymatch goal with
  | |- emits _ (ret _) => apply emits_ret
  | |- emits _ (raise _) => apply emits_raise
  | |- emits _ out_of_fuel => apply emits_out_of_fuel
  | |- emits _ (getc _) => apply emits_getc
  | |- emits _ (getw _) => apply emits_getw
  | |- emits _ (modc _) => apply emits_modc
  | |- emits _ (modw _) =>
    apply emits_modw;
    let w := fresh "w" in
    intro w; first [reflexivity | destruct (proc_state w); reflexivity]
  | |- emits _ (emit _) => apply emits_emit; reflexivity
  | |- emits _ (when _ _) => apply emits_when
  | |- emits _ (try_finally _ _) => apply emits_try_finally
  | |- emits _ (try_except _ _) => apply emits_try_except; [| emits_handler]
  | |- emits _ (bind _ _) => apply emits_bind; [| intro]
  | |- emits _ (match ?x with _ => _ end) => destruct x
  end.

Ltac emits_go := repeat first [solve [auto 1 with emits nocore] | emits_step].

Lemma emits_stop : emits stop_event stop.
Proof.
  unfold stop, assign, thread_join, close_control, close_video,
    proc_terminate, proc_wait, device_shell, lift_outcome, log, call.
  emits_go.
Qed.

Lemma stop_event_quiet (e : Event) : stop_event e = true -> quiet e = true.
Proof. destruct e as [|[]|[]|[]|]; cbv; congruence. Qed.

Lemma emits_quiet_stop : emits quiet stop.
Proof.
  apply emits_weaken with (P := stop_event);
    [exact stop_event_quiet | exact emits_stop].
Qed.

#[local] Hint Resolve emits_quiet_stop : emits.

Lemma emits_call_listener (ev : ListenEvent) (l : ListenerId)
  (arg : option Frame) : emits listener_event (call_listener ev l arg).
Proof.
  unfold call_listener. emits_go.
  apply emits_weaken with (P := quiet); [exact quiet_listener_event|].
  emits_go.
Qed.

#[local] Hint Resolve emits_call_listener : emits.

Lemma emits_for_listeners (ev : ListenEvent) (arg : option Frame)
  (ls : list ListenerId) : emits listener_event (for_listeners ev arg ls).
Proof.
  induction ls as [|l ls IH]; simpl; unfold log; emits_go.
Qed.

#[local] Hint Resolve emits_for_listeners : emits.

(** ** Teardown *)

(** ** Stepping through client code *)

Lemma wp_bind (A B : Type) (m : M A) (f : A -> M B) (s : State)
  (Q : Res B -> State -> Prop) :
  wp m s (fun r s1 =>
            match r with
            | Ok a => wp (f a) s1 Q
            | Raise e => Q (Raise e) s1
            | OutOfFuel => Q OutOfFuel s1
            end) ->
  wp (bind m f) s Q.
Proof.
  unfold wp, bind. destruct (m s) as [[a|e|] s1]; simpl; auto.
Qed.

Lemma wp_try_except (A : Type) (m : M A) (h : Exn -> option (M A))
  (s : State) (Q : Res A -> State -> Prop) :
  wp m s (fun r s1 =>
            match r with
            | Raise e =>
              match h e with
              | Some k => wp k s1 Q
              | None => Q (Raise e) s1
              end
            | _ => Q r s1
            end) ->
  wp (try_except m h) s Q.
Proof.
  unfold wp, try_except. destruct (m s) as [[a|e|] s1]; simpl; auto.
  destruct (h e); auto.
Qed.

Lemma wp_try_finally (A : Type) (m : M A) (f : M unit) (s : State)
  (Q : Res A -> State -> Prop) :
  wp m s (fun r s1 =>
            match r with
            | OutOfFuel => Q OutOfFuel s1
            | _ =>
              wp f s1 (fun r' s2 =>
                         match r' with
                         | Ok _ => Q r s2
                         | Raise e => Q (Raise e) s2
                         | OutOfFuel => Q OutOfFuel s2
                         end)
            end) ->
  wp (try_finally m f) s Q.
Proof.
  unfold wp, try_finally. destruct (m s) as [[a|e|] s1]; simpl; auto.
  - destruct (f s1) as [[u|e'|] s2]; simpl; auto.
  - destruct (f s1) as [[u|e'|] s2]; simpl; auto.
Qed.

Lemma wp_conseq (A : Type) (m : M A) (s : State)
  (Q Q' : Res A -> State -> Prop) :
  wp m s Q' -> (forall r s', Q' r s' -> Q r s') -> wp m s Q.
Proof. unfold wp. auto. Qed.

Lemma wp_ret (A : Type) (a : A) (s : State) (Q : Res A -> State -> Prop) :
  Q (Ok a) s -> wp (ret a) s Q.
Proof. exact (fun H => H). Qed.

Lemma wp_raise (A : Type) (e : Exn) (s : State)
  (Q : Res A -> State -> Prop) :
  Q (Raise e) s -> wp (raise e) s Q.
Proof. exact (fun H => H). Qed.

Lemma wp_out_of_fuel (A : Type) (s : State) (Q : Res A -> State -> Prop) :
  Q OutOfFuel s -> wp out_of_fuel s Q.
Proof. exact (fun H => H). Qed.

Lemma wp_getc (A : Type) (f : Client -> A) (s : State)
  (Q : Res A -> State -> Prop) (v : A) :
  v = f (fst s) -> Q (Ok v) s -> wp (getc f) s Q.
Proof. intros ->. exact (fun H => H). Qed.

Lemma wp_getw (A : Type) (f : World -> A) (s : State)
  (Q : Res A -> State -> Prop) (v : A) :
  v = f (snd s) -> Q (Ok v) s -> wp (getw f) s Q.
Proof. intros ->. exact (fun H => H). Qed.

Lemma wp_modc (f : Client -> Client) (s : State)
  (Q : Res unit -> State -> Prop) (s' : State) :
  s' = (f (fst s), snd s) -> Q (Ok tt) s' -> wp (modc f) s Q.
Proof. intros ->. exact (fun H => H). Qed.

Lemma wp_modw (f : World -> World) (s : State)
  (Q : Res unit -> State -> Prop) (s' : State) :
  s' = (fst s, f (snd s)) -> Q (Ok tt) s' -> wp (modw f) s Q.
Proof. intros ->. exact (fun H => H). Qed.

Lemma wp_emit (e : Event) (s : State) (Q : Res unit -> State -> Prop)
  (s' : State) :
  s' = (fst s, with_trace (trace (snd s) ++ [e]) (snd s)) ->
  Q (Ok tt) s' -> wp (emit e) s Q.
Proof. intros ->. exact (fun H => H). Qed.

Lemma wp_cond (A : Type) (b b' : bool) (m1 m2 : M A) (s : State)
  (Q : Res A -> State -> Prop) :
  b' = b -> wp (if b' then m1 else m2) s Q -> wp (if b then m1 else m2) s Q.
Proof. intros ->. exact (fun H => H). Qed.

(** Reduction of projections applied to updated states. *)
Declare Reduction state_red :=
  cbv beta iota zeta delta
    [ fst snd
      device_serial adb_path remote_stat local_stat push_result bound_port
      reverse_result popen_result
      scid socket_name listeners is_running last_frame resolution
      _server_process _video_socket _control_socket _stream_thread
      _local_port device_name video_codec _custom_server_args
      env trace accepts video_in shell_results video_closed control_closed
      proc_state thread_alive in_worker data_buffer codec user
      with_listeners with_is_running with_last_frame with_resolution
      with__server_process with__video_socket with__control_socket
      with__stream_thread with__local_port with_device_name with_video_codec
      with_trace with_accepts with_video_in with_shell_results
      with_video_closed with_control_closed with_proc_state
      with_thread_alive with_in_worker with_data_buffer with_codec with_user
      write_attr truthy truthy_port andb orb negb ].

(** Normal form of a value read from, or a state built over, a state whose
    fields are known. *)
Ltac norm t := eval state_red in t.

Ltac red_state :=
  lazymatch goal with
  | |- ?G => let G' := eval state_red in G in change G'
  end.

Ltac red_state_in H :=
  let T := type of H in
  let T' := eval state_red in T in
  change T' in H.

(** Reduction of projections applied to known states only. *)
Ltac proj_simpl :=
  cbn [ fst snd
        scid socket_name listeners is_running last_frame resolution
        _server_process _video_socket _control_socket _stream_thread
        _local_port device_name video_codec _custom_server_args
        env trace accepts video_in shell_results video_closed control_closed
        proc_state thread_alive in_worker data_buffer codec user ].

Ltac proj_simpl_in H :=
  cbn [ fst snd
        scid socket_name listeners is_running last_frame resolution
        _server_process _video_socket _control_socket _stream_thread
        _local_port device_name video_codec _custom_server_args
        env trace accepts video_in shell_results video_closed control_closed
        proc_state thread_alive in_worker data_buffer codec user ] in H.

(** Case analysis on the variable that blocks the evaluation of [x]. *)
Ltac split_on x :=
  lazymatch x with
  | match ?y with _ => _ end => split_on y
  | _ => first [ is_var x; destruct x
               | let E := fresh "E" in destruct x eqn:E ]
  end.

(** One step of symbolic execution from a state whose fields are known. *)
Ltac wp_step :=
  lazymatch goal with
  | |- wp (bind _ _) _ _ => apply wp_bind
  | |- wp (try_except _ _) _ _ => apply wp_try_except
  | |- wp (try_finally _ _) _ _ => apply wp_try_finally
  | |- wp (ret _) _ _ => apply wp_ret; cbv beta iota
  | |- wp (raise _) _ _ => apply wp_raise; cbv beta iota
  | |- wp out_of_fuel _ _ => apply wp_out_of_fuel; cbv beta iota
  | |- wp (getc ?f) ?s _ =>
    let v := norm (f (fst s)) in
    apply (@wp_getc _ f s _ v eq_refl); cbv beta iota
  | |- wp (getw ?f) ?s _ =>
    let v := norm (f (snd s)) in
    apply (@wp_getw _ f s _ v eq_refl); cbv beta iota
  | |- wp (modc ?f) ?s _ =>
    let s' := norm (f (fst s), snd s) in
    apply (@wp_modc f s _ s' eq_refl); cbv beta iota
  | |- wp (modw ?f) ?s _ =>
    let s' := norm (fst s, f (snd s)) in
    apply (@wp_modw f s _ s' eq_refl); cbv beta iota
  | |- wp (emit ?e) ?s _ =>
    let s' := norm (fst s, with_trace (trace (snd s) ++ [e]) (snd s)) in
    apply (@wp_emit e s _ s' eq_refl); cbv beta iota
  | |- wp (log ?l ?m) ?s ?Q => change (wp (emit (Log l m)) s Q)
  | |- wp (call ?c) ?s ?Q => change (wp (emit (Call c)) s Q)
  | |- wp (assign ?a) ?s ?Q =>
    change (wp (modc (write_attr a);; emit (SetAttr a)) s Q)
  | |- wp (when ?b ?m) ?s ?Q => change (wp (if b then m else ret tt) s Q)
  | |- wp (lift_outcome ?r) ?s ?Q =>
    let m' := eval cbv beta delta [lift_outcome] in (lift_outcome r) in
    change (wp m' s Q)
  | |- wp (@lift_result ?A ?r) ?s ?Q =>
    let m' := eval cbv beta delta [lift_result] in (@lift_result A r) in
    change (wp m' s Q)
  | |- wp (if ?b then _ else _) _ _ =>
    lazymatch type of b with
    | bool =>
      let b' := norm b in
      apply (@wp_cond _ b b' _ _ _ _ eq_refl);
      lazymatch b' with
      | true => cbv beta iota
      | false => cbv beta iota
      | _ => split_on b'; cbv beta iota
      end
    | _ =>
      let b' := norm b in
      tryif constr_eq b b'
      then (split_on b; cbv beta iota)
      else (change b with b'; cbv beta iota)
    end
  | |- wp (let _ := _ in _) _ _ => cbv zeta
  | |- wp (match ?x with _ => _ end) _ _ =>
    let x' := norm x in
    tryif constr_eq x x'
    then (split_on x; cbv beta iota)
    else (change x with x'; cbv beta iota)
  end.

(** ** Teardown *)

(** The conditional release steps, with both outcomes in one state. *)
Lemma wp_when_close_control (b : bool) (s : State)
  (Q : Res unit -> State -> Prop) :
  Q (Ok tt)
    (fst s,
     with_control_closed (if b then true else control_closed (snd s))
       (with_trace
          (trace (snd s) ++ (if b then [Call CCloseControl] else []))
          (snd s))) ->
  wp (when b close_control) s Q.
Proof.
  destruct s as [c []], b; unfold wp; simpl; rewrite ?app_nil_r; auto.
Qed.

Lemma wp_when_close_video (b : bool) (s : State)
  (Q : Res unit -> State -> Prop) :
  Q (Ok tt)
    (fst s,
     with_video_closed (if b then true else video_closed (snd s))
       (with_trace
          (trace (snd s) ++ (if b then [Call CCloseVideo] else []))
          (snd s))) ->
  wp (when b close_video) s Q.
Proof.
  destruct s as [c []], b; unfold wp; simpl; rewrite ?app_nil_r; auto.
Qed.

Lemma wp_when_terminate (b : bool) (s : State)
  (Q : Res unit -> State -> Prop) :
  Q (Ok tt)
    (fst s,
     with_proc_state
       (if b then reap (signal (proc_state (snd s))) else proc_state (snd s))
       (with_trace
          (trace (snd s) ++
           (if b
            then [Call CTerminate; Call CWait; Log LDebug MsgServerTerminated]
            else []))
          (snd s))) ->
  wp (when b (proc_terminate;; proc_wait;; log LDebug MsgServerTerminated))
     s Q.
Proof.
  destruct s as [c []], b; unfold wp; simpl;
    rewrite ?app_nil_r, <- ?app_assoc; auto.
Qed.

Ltac wp_norm_state :=
  cbv beta iota;
  lazymatch goal with
  | |- wp ?m ?s ?Q => let s' := norm s in change (wp m s' Q)
  | _ => idtac
  end.

Ltac wp_stop_step :=
  lazymatch goal with
  | |- wp stop ?s ?Q =>
    let m' := eval cbv beta delta [stop] in stop in change (wp m' s Q)
  | |- wp thread_join ?s ?Q =>
    let m' := eval cbv beta delta [thread_join] in thread_join in
    change (wp m' s Q)
  | |- wp (when ?b close_control) ?s _ =>
    let b' := norm b in
    apply (@wp_when_close_control b' s); wp_norm_state
  | |- wp (when ?b close_video) ?s _ =>
    let b' := norm b in
    apply (@wp_when_close_video b' s); wp_norm_state
  | |- wp (when ?b (proc_terminate;; _)) ?s _ =>
    let b' := norm b in
    apply (@wp_when_terminate b' s); wp_norm_state
  | |- wp (device_shell ?a) ?s ?Q =>
    let m' := eval cbv beta delta [device_shell] in (device_shell a) in
    change (wp m' s Q)
  | _ => wp_step
  end.

(** What [stop] does, in closed form. *)
Lemma stop_effect (s : State) :
  wp stop s (fun r s' =>
    exists evs,
      new_events s s' evs /\
      same_inputs (snd s) (snd s') /\
      if joins_itself s
      then r = Raise RuntimeError /\
           filter is_teardown_step evs = [] /\
           fst s' = with_is_running false (fst s) /\
           resources (snd s') = resources (snd s)
      else r = Ok tt /\
           filter is_teardown_step evs =
           teardown_steps (fst s) (next_shell_result (snd s)) /\
           fst s' = stop_client (fst s) /\
           resources (snd s') = stop_resources (fst s) (snd s)).
Proof.
  destruct s as [[] []].
  unfold new_events, joins_itself, teardown_steps, next_shell_result,
    same_inputs, resources, stop_resources, stop_client.
  repeat wp_stop_step.
  all: red_state;
    repeat match goal with
           | H : (_ =? _)%N = _ |- _ => rewrite H; clear H
           end.
  all: repeat match goal with
              | |- context [match ?x with _ => _ end] => is_var x; destruct x
              end.
  all: repeat rewrite <- app_assoc; eexists; (split; [reflexivity|]).
  all: repeat split; reflexivity.
Qed.

Lemma stop_client_idem (c : Client) : stop_client (stop_client c) = stop_client c.
Proof. reflexivity. Qed.

Lemma reap_signal_idem (st : ProcState) :
  reap (signal (reap (signal st))) = reap (signal st).
Proof. destruct st; reflexivity. Qed.

Lemma filter_subclass (P Q : Event -> bool) (l : list Event) :
  (forall e, P e = true -> Q e = true) ->
  filter P (filter Q l) = filter P l.
Proof.
  intro H. induction l as [|e l IH]; simpl; [reflexivity|].
  destruct (Q e) eqn:EQ; simpl.
  - rewrite IH. reflexivity.
  - destruct (P e) eqn:EP; [|exact IH].
    rewrite (H e EP) in EQ. discriminate.
Qed.

Lemma release_call_teardown_step (e : Event) :
  is_release_call e = true -> is_teardown_step e = true.
Proof. destruct e as [|[]| | |]; simpl; congruence. Qed.

Lemma release_calls_of_steps (c : Client) (r r' : option Exn) :
  filter is_release_call (teardown_steps c r) =
  filter is_release_call (teardown_steps c r').
Proof.
  unfold teardown_steps.
  destruct (truthy (_control_socket c)), (truthy (_video_socket c)),
    (truthy (_server_process c)), (truthy_port (_local_port c)), r, r';
    reflexivity.
Qed.


(** C3: when [stop] has completed once, a second call completes without
    error and leaves the client and its resources in the same end state
    (running flag false, [resolution] and [last_frame] cleared); the second
    call issues the same release calls as the first, and they change
    nothing. *)
Theorem stop_idempotent (s : State) :
  fst (stop s) = Ok tt ->
  let s1 := snd (stop s) in
  let s2 := snd (stop s1) in
  fst (stop s1) = Ok tt /\
  fst s2 = fst s1 /\
  resources (snd s2) = resources (snd s1) /\
  is_running (fst s2) = false /\
  resolution (fst s2) = None /\
  last_frame (fst s2) = None /\
  exists evs1 evs2,
    new_events s s1 evs1 /\ new_events s1 s2 evs2 /\
    filter is_release_call evs2 = filter is_release_call evs1.
Proof.
  intros Hok s1 s2.
  destruct (stop_effect s) as [evs1 [Hn1 [Hin1 H1]]].
  destruct (stop_effect s1) as [evs2 [Hn2 [Hin2 H2]]].
  fold s1 in Hn1, Hin1, H1. fold s2 in Hn2, Hin2, H2.
  destruct (joins_itself s) eqn:J.
  { destruct H1 as [H1 _]. rewrite H1 in Hok. discriminate. }
  destruct H1 as [_ [Hs1 [Hc1 Hr1]]].
  assert (J1 : joins_itself s1 = false).
  { unfold joins_itself. rewrite Hc1.
    injection Hr1 as _ _ _ Ha. simpl. rewrite Ha.
    destruct (truthy (_stream_thread (fst s))); reflexivity. }
  rewrite J1 in H2. destruct H2 as [Hok2 [Hs2 [Hc2 Hr2]]].
  split; [exact Hok2|].
  split; [rewrite Hc2, Hc1; apply stop_client_idem|].
  split.
  { rewrite Hr2, Hr1. unfold stop_resources.
    injection Hr1 as Hcc Hvc Hps Hta. rewrite Hc1. simpl.
    rewrite Hcc, Hvc, Hps, Hta.
    destruct (truthy (_control_socket (fst s))),
      (truthy (_video_socket (fst s))),
      (truthy (_server_process (fst s))),
      (truthy (_stream_thread (fst s)));
      rewrite ?reap_signal_idem; reflexivity. }
  rewrite Hc2. repeat (split; [reflexivity|]).
  exists evs1, evs2. repeat (split; [assumption|]).
  rewrite <- (filter_subclass is_release_call is_teardown_step evs2
                release_call_teardown_step).
  rewrite <- (filter_subclass is_release_call is_teardown_step evs1
                release_call_teardown_step).
  rewrite Hs1, Hs2, Hc1.
  change (teardown_steps (stop_client (fst s)) (next_shell_result (snd s1)))
    with (teardown_steps (fst s) (next_shell_result (snd s1))).
  apply release_calls_of_steps.
Qed.

(** C9: [stop] writes no attribute of the client other than [is_running],
    [resolution] and [last_frame]; in particular [device_name] and
    [video_codec] keep the values they had, so after a handshake followed
    by [stop] they still hold what the handshake read. *)
Theorem stop_frame (s : State) :
  let c := fst s in
  let c' := fst (snd (stop s)) in
  device_name c' = device_name c /\
  video_codec c' = video_codec c /\
  c' = with_last_frame (last_frame c')
         (with_resolution (resolution c')
            (with_is_running (is_running c') c)) /\
  (forall evs, new_events s (snd (stop s)) evs ->
               forallb (not_event is_identity_write) evs = true) /\
  let h := fst (snd (_connect_sockets s)) in
  let h' := fst (snd (stop (snd (_connect_sockets s)))) in
  device_name h' = device_name h /\ video_codec h' = video_codec h.
Proof.
  assert (F : forall s0 : State,
             fst (snd (stop s0)) = with_is_running false (fst s0) \/
             fst (snd (stop s0)) = stop_client (fst s0)).
  { intro s0. destruct (stop_effect s0) as [evs [_ [_ H]]].
    destruct (joins_itself s0); [left | right]; tauto. }
  intros c c'. subst c c'.
  split; [destruct (F s) as [-> | ->]; reflexivity|].
  split; [destruct (F s) as [-> | ->]; reflexivity|].
  split.
  { destruct (F s) as [-> | ->]; destruct (fst s); reflexivity. }
  split.
  { intros evs Hn.
    destruct (emits_stop s) as [evs' [Hn' F']].
    rewrite (new_events_inj Hn Hn').
    rewrite forallb_forall in *. intros e He.
    specialize (F' e He). unfold not_event.
    destruct e as [|[]|[]| |]; simpl in *; congruence. }
  intros h h'. subst h h'.
  destruct (F (snd (_connect_sockets s))) as [-> | ->]; split; reflexivity.
Qed.

(** ** Launching the server *)

Ltac wp_launch_step :=
  lazymatch goal with
  | |- wp _start_server ?s ?Q =>
    let m' := eval cbv beta delta [_start_server] in _start_server in
    change (wp m' s Q)
  | |- wp (popen ?a) ?s ?Q =>
    let m' := eval cbv beta delta [popen] in (popen a) in
    change (wp m' s Q)
  | _ => wp_step
  end.



(** ** Event dispatch *)

(** A summary of [stop] for its callers. *)
Lemma stop_summary (s : State) :
  wp stop s (fun r s' =>
    (r = Ok tt \/ r = Raise RuntimeError) /\
    same_inputs (snd s) (snd s') /\
    (exists rs lf,
        fst s' = with_last_frame lf
                   (with_resolution rs (with_is_running false (fst s)))) /\
    (thread_alive (snd s) = false -> thread_alive (snd s') = false) /\
    exists evs, new_events s s' evs /\ forallb stop_event evs = true).
Proof.
  destruct (stop_effect s) as [evs [Hn [Hin H]]].
  destruct (emits_stop s) as [evs' [Hn' F]].
  unfold wp.
  destruct (joins_itself s).
  - destruct H as [Hr [_ [Hc Hres]]].
    split; [right; exact Hr|]. split; [exact Hin|].
    split.
    { exists (resolution (fst s)), (last_frame (fst s)).
      rewrite Hc. destruct (fst s); reflexivity. }
    split.
    { injection Hres as _ _ _ Ha. rewrite Ha. auto. }
    exists evs'. split; assumption.
  - destruct H as [Hr [_ [Hc Hres]]].
    split; [left; exact Hr|]. split; [exact Hin|].
    split; [exists None, None; exact Hc|].
    split.
    { injection Hres as _ _ _ Ha. rewrite Ha.
      destruct (truthy (_stream_thread (fst s))); auto. }
    exists evs'. split; assumption.
Qed.

Ltac wp_listener_step :=
  lazymatch goal with
  | |- wp (call_listener ?ev ?l ?arg) ?s ?Q =>
    let m' := eval cbv beta delta [call_listener] in (call_listener ev l arg) in
    change (wp m' s Q)
  | _ => wp_step
  end.

(** One subscriber: whatever it does, the dispatcher goes on. *)
Lemma call_listener_caught (ev : ListenEvent) (l : ListenerId)
  (arg : option Frame) (s : State) :
  wp (try_except (call_listener ev l arg)
        (fun e => Some (log LError (MsgListenerError ev e)))) s
     (fun r s' =>
        r = Ok tt /\
        user (snd s') = fst (listener_body l ev arg (user (snd s))) /\
        exists seg,
          new_events s s' seg /\
          segment_ok ev arg l (user (snd s)) seg /\
          filter is_invoke seg = [Invoke ev l arg] /\
          forallb listener_event seg = true).
Proof.
  destruct s as [c []]. unfold new_events, segment_ok. red_state.
  do 8 wp_listener_step.
  destruct (listener_body l ev arg user0) as [u' act] eqn:E. red_state.
  destruct act as [|e|].
  - repeat wp_listener_step. red_state.
    split; [reflexivity|]. split; [reflexivity|].
    exists [Invoke ev l arg]. repeat split; reflexivity.
  - repeat wp_listener_step. red_state.
    split; [reflexivity|]. split; [reflexivity|].
    exists [Invoke ev l arg; Log LError (MsgListenerError ev e)].
    rewrite <- app_assoc. repeat split; reflexivity.
  - eapply wp_conseq; [apply stop_summary|].
    intros r s' [Hr [Hin [_ [_ [evs [Hn F]]]]]].
    destruct Hin as [_ [_ [_ [_ [_ [_ Hu]]]]]].
    unfold new_events in Hn. red_state_in Hn. red_state_in Hu.
    assert (Fq : forallb quiet evs = true).
    { rewrite forallb_forall in *. intros x Hx.
      apply stop_event_quiet. auto. }
    assert (Fi : filter is_invoke evs = []).
    { clear - Fq. induction evs as [|x evs IH]; [reflexivity|].
      simpl in *. apply andb_prop in Fq. destruct Fq as [Hx Hq].
      rewrite (quiet_not_invoke x Hx). auto. }
    assert (Fl : forallb listener_event evs = true).
    { rewrite forallb_forall in *. intros x Hx.
      apply quiet_listener_event. auto. }
    destruct Hr as [-> | ->]; cbv beta iota.
    + split; [reflexivity|]. split; [exact Hu|].
      exists (Invoke ev l arg :: evs).
      split; [rewrite Hn, <- app_assoc; reflexivity|].
      split; [exists evs; split; [reflexivity | exact Fq]|].
      split; [simpl; rewrite Fi; reflexivity|].
      simpl. exact Fl.
    + destruct s' as [c' w']. repeat wp_listener_step. red_state.
      simpl in Hn, Hu.
      split; [reflexivity|]. split; [exact Hu|].
      exists (Invoke ev l arg
              :: evs ++ [Log LError (MsgListenerError ev RuntimeError)]).
      split; [rewrite Hn, <- !app_assoc; reflexivity|].
      split.
      { exists (evs ++ [Log LError (MsgListenerError ev RuntimeError)]).
        split; [reflexivity|]. rewrite forallb_app, Fq. reflexivity. }
      split.
      { simpl. rewrite filter_app, Fi. reflexivity. }
      simpl. rewrite forallb_app, Fl. reflexivity.
Qed.

Lemma for_listeners_spec (ev : ListenEvent) (arg : option Frame)
  (ls : list ListenerId) (s : State) :
  wp (for_listeners ev arg ls) s
     (fun r s' =>
        r = Ok tt /\
        exists evs,
          new_events s s' evs /\
          dispatched ev arg ls (user (snd s)) evs /\
          filter is_invoke evs = map (fun l => Invoke ev l arg) ls).
Proof.
  revert s. induction ls as [|l ls IH]; intro s.
  - unfold wp. simpl. split; [reflexivity|].
    exists []. split; [apply new_events_refl|]. split; reflexivity.
  - change (for_listeners ev arg (l :: ls))
      with (try_except (call_listener ev l arg)
              (fun e => Some (log LError (MsgListenerError ev e)));;
            for_listeners ev arg ls).
    apply wp_bind.
    eapply wp_conseq; [apply call_listener_caught|].
    intros r s1 [-> [Hu [seg [Hn [Hseg [Hi _]]]]]].
    eapply wp_conseq; [apply IH|].
    intros r s2 [-> [evs [Hn2 [Hd Hi2]]]].
    split; [reflexivity|].
    exists (seg ++ evs).
    split; [exact (new_events_trans Hn Hn2)|].
    split.
    + exists seg, evs. rewrite Hu in Hd. auto.
    + rewrite filter_app, Hi, Hi2. reflexivity.
Qed.


(** ** Code that stays within its fuel and within a frame *)

Section Steady.

Variable P : Event -> bool.
Variable R : World -> World -> Prop.
Hypothesis R_refl : forall w, R w w.
Hypothesis R_trans : forall a b c, R a b -> R b c -> R a c.
Hypothesis R_trace : forall w t, R w (with_trace t w).

Lemma steady_pure (A : Type) (m : M A) :
  (forall s, snd (m s) = s) -> (forall s, fst (m s) <> OutOfFuel) ->
  steady P (on_world R) m.
Proof.
  intros Hs Hr s. split; [apply Hr|]. rewrite Hs.
  split; [apply R_refl|].
  exists []. split; [apply new_events_refl | reflexivity].
Qed.

Lemma steady_ret (A : Type) (a : A) : steady P (on_world R) (ret a).
Proof. apply steady_pure; intro s; simpl; [reflexivity | discriminate]. Qed.

Lemma steady_raise (A : Type) (e : Exn) : steady P (on_world R) (@raise A e).
Proof. apply steady_pure; intro s; simpl; [reflexivity | discriminate]. Qed.

Lemma steady_getc (A : Type) (f : Client -> A) :
  steady P (on_world R) (getc f).
Proof. apply steady_pure; intro s; simpl; [reflexivity | discriminate]. Qed.

Lemma steady_getw (A : Type) (f : World -> A) :
  steady P (on_world R) (getw f).
Proof. apply steady_pure; intro s; simpl; [reflexivity | discriminate]. Qed.

Lemma steady_modc (f : Client -> Client) : steady P (on_world R) (modc f).
Proof.
  intro s. split; [discriminate|]. split; [apply R_refl|].
  exists []. split; [|reflexivity].
  unfold new_events. simpl. symmetry. apply app_nil_r.
Qed.

Lemma steady_modw (f : World -> World) :
  (forall w, R w (f w) /\ trace (f w) = trace w) ->
  steady P (on_world R) (modw f).
Proof.
  intros H s. split; [discriminate|]. split; [apply H|].
  exists []. split; [|reflexivity].
  unfold new_events. simpl. rewrite (proj2 (H (snd s))).
  symmetry. apply app_nil_r.
Qed.

Lemma steady_emit (e : Event) : P e = true -> steady P (on_world R) (emit e).
Proof.
  intros H s. split; [discriminate|]. split; [apply R_trace|].
  exists [e]. split; [reflexivity|]. simpl. rewrite H. reflexivity.
Qed.

Lemma steady_bind (A B : Type) (m : M A) (f : A -> M B) :
  steady P (on_world R) m -> (forall a, steady P (on_world R) (f a)) ->
  steady P (on_world R) (bind m f).
Proof.
  intros Hm Hf s. unfold bind.
  destruct (Hm s) as [T1 [R1 [e1 [H1 F1]]]].
  destruct (m s) as [[a|e|] s1]; simpl in *.
  - destruct (Hf a s1) as [T2 [R2 [e2 [H2 F2]]]].
    split; [exact T2|]. split; [exact (R_trans R1 R2)|].
    exists (e1 ++ e2). split; [exact (new_events_trans H1 H2)|].
    rewrite forallb_app, F1, F2. reflexivity.
  - split; [discriminate|]. split; [exact R1|]. exists e1. auto.
  - congruence.
Qed.

Lemma steady_try_except (A : Type) (m : M A) (h : Exn -> option (M A)) :
  steady P (on_world R) m ->
  (forall e k, h e = Some k -> steady P (on_world R) k) ->
  steady P (on_world R) (try_except m h).
Proof.
  intros Hm Hh s. unfold try_except.
  destruct (Hm s) as [T1 [R1 [e1 [H1 F1]]]].
  destruct (m s) as [[a|e|] s1]; simpl in *.
  - split; [discriminate|]. split; [exact R1|]. exists e1. auto.
  - destruct (h e) as [k|] eqn:E.
    + destruct (Hh e k E s1) as [T2 [R2 [e2 [H2 F2]]]].
      split; [exact T2|]. split; [exact (R_trans R1 R2)|].
      exists (e1 ++ e2). split; [exact (new_events_trans H1 H2)|].
      rewrite forallb_app, F1, F2. reflexivity.
    + split; [discriminate|]. split; [exact R1|]. exists e1. auto.
  - congruence.
Qed.

Lemma steady_try_finally (A : Type) (m : M A) (f : M unit) :
  steady P (on_world R) m -> steady P (on_world R) f ->
  steady P (on_world R) (try_finally m f).
Proof.
  intros Hm Hf s. unfold try_finally.
  destruct (Hm s) as [T1 [R1 [e1 [H1 F1]]]].
  destruct (m s) as [r s1]; simpl in *.
  destruct (Hf s1) as [T2 [R2 [e2 [H2 F2]]]].
  assert (G : forallb P (e1 ++ e2) = true)
    by (rewrite forallb_app, F1, F2; reflexivity).
  pose proof (new_events_trans H1 H2) as H12.
  pose proof (R_trans R1 R2 : on_world R s (snd (f s1))) as R12.
  destruct r as [a|e|]; [| |congruence].
  - destruct (f s1) as [[u|e'|] s2]; simpl in *; [| |congruence];
      (split; [discriminate|]); (split; [exact R12|]);
      exists (e1 ++ e2); auto.
  - destruct (f s1) as [[u|e'|] s2]; simpl in *; [| |congruence];
      (split; [discriminate|]); (split; [exact R12|]);
      exists (e1 ++ e2); auto.
Qed.

Lemma steady_when (b : bool) (m : M unit) :
  steady P (on_world R) m -> steady P (on_world R) (when b m).
Proof. intro H. destruct b; [exact H | apply steady_ret]. Qed.

End Steady.

Arguments steady_ret {P R} R_refl {A} a.
Arguments steady_raise {P R} R_refl {A} e.
Arguments steady_getc {P R} R_refl {A} f.
Arguments steady_getw {P R} R_refl {A} f.
Arguments steady_modc {P R} R_refl f.
Arguments steady_modw {P R} f _.
Arguments steady_emit {P R} R_trace e _.
Arguments steady_bind {P R} R_trans {A B m f} _ _.
Arguments steady_try_except {P R} R_trans {A m h} _ _.
Arguments steady_try_finally {P R} R_trans {A m f} _ _.
Arguments steady_when {P R} R_refl b {m} _.

Lemma steady_weaken (P Q : Event -> bool) (R R' : State -> State -> Prop)
  (A : Type) (m : M A) :
  (forall e, P e = true -> Q e = true) ->
  (forall s s', R s s' -> R' s s') ->
  steady P R m -> steady Q R' m.
Proof.
  intros HP HR H s. destruct (H s) as [T [Rs [evs [Hn F]]]].
  split; [exact T|]. split; [exact (HR _ _ Rs)|].
  exists evs. split; [exact Hn|].
  rewrite forallb_forall in *. auto.
Qed.

Arguments steady_weaken {P Q R R' A m} _ _ _.

Lemma no_worker_refl (w : World) : no_worker w w.
Proof. exact (fun H => H). Qed.

Lemma no_worker_trans (a b c : World) :
  no_worker a b -> no_worker b c -> no_worker a c.
Proof. unfold no_worker. auto. Qed.

Lemma no_worker_trace (w : World) (t : list Event) :
  no_worker w (with_trace t w).
Proof. exact (fun H => H). Qed.

Lemma same_stream_refl (w : World) : same_stream w w.
Proof. repeat split. exact (fun H => H). Qed.

Lemma same_stream_trans (a b c : World) :
  same_stream a b -> same_stream b c -> same_stream a c.
Proof.
  unfold same_stream, no_worker. intros [H1 [H2 H3]] [H4 [H5 H6]].
  repeat split; [congruence | congruence | auto].
Qed.

Lemma same_stream_trace (w : World) (t : list Event) :
  same_stream w (with_trace t w).
Proof. repeat split. exact (fun H => H). Qed.

Lemma same_stream_no_worker (s s' : State) :
  on_world same_stream s s' -> on_world no_worker s s'.
Proof. intros [_ [_ H]]. exact H. Qed.

Ltac steady_handler :=
  let e := fresh "e" in
  let k := fresh "k" in
  let H := fresh "H" in
  intros e k H; destruct e; simpl in H; try discriminate H;
  injection H as <-.

(** Steadiness of straight-line code, for a frame whose reflexivity,
    transitivity and independence of the trace are [Hr], [Ht] and [Hx]. *)
Ltac steady_step Hr Ht Hx :=
  lazymatch goal with
  | |- steady _ _ (ret _) => apply (steady_ret Hr)
  | |- steady _ _ (raise _) => apply (steady_raise Hr)
  | |- steady _ _ (getc _) => apply (steady_getc Hr)
  | |- steady _ _ (getw _) => apply (steady_getw Hr)
  | |- steady _ _ (modc _) => apply (steady_modc Hr)
  | |- steady _ _ (modw _) =>
    apply steady_modw;
    let w := fresh "w" in
    intro w; split; [repeat split; unfold no_worker; simpl; auto | reflexivity]
  | |- steady _ _ (emit _) => apply (steady_emit Hx); reflexivity
  | |- steady _ _ (log _ _) => apply (steady_emit Hx); reflexivity
  | |- steady _ _ (call _) => apply (steady_emit Hx); reflexivity
  | |- steady _ _ (when _ _) => apply (steady_when Hr)
  | |- steady _ _ (try_finally _ _) => apply (steady_try_finally Ht)
  | |- steady _ _ (try_except _ _) =>
    apply (steady_try_except Ht); [| steady_handler]
  | |- steady _ _ (bind _ _) => apply (steady_bind Ht); [| intro]
  | |- steady _ _ (match ?x with _ => _ end) => destruct x
  end.

Create HintDb steady.

Ltac steady_go Hr Ht Hx :=
  repeat first [solve [auto 1 with steady nocore] | steady_step Hr Ht Hx].

Lemma steady_stop : steady stop_event (on_world same_stream) stop.
Proof.
  intro s.
  destruct (stop_summary s) as [Hr [Hin [_ [Ha [evs [Hn F]]]]]].
  destruct Hin as [_ [_ [Hv [_ [Hb _]]]]].
  split; [destruct Hr as [-> | ->]; discriminate|].
  split; [repeat split; assumption|].
  exists evs. auto.
Qed.

Lemma stop_event_listener_event (e : Event) :
  stop_event e = true -> listener_event e = true.
Proof. intro H. apply quiet_listener_event, stop_event_quiet, H. Qed.

Lemma steady_stop_listener :
  steady listener_event (on_world same_stream) stop.
Proof.
  exact (steady_weaken stop_event_listener_event (fun _ _ H => H) steady_stop).
Qed.

#[local] Hint Resolve steady_stop_listener : steady.

Lemma steady_call_listener (ev : ListenEvent) (l : ListenerId)
  (arg : option Frame) :
  steady listener_event (on_world same_stream) (call_listener ev l arg).
Proof.
  unfold call_listener.
  steady_go same_stream_refl same_stream_trans same_stream_trace.
Qed.

#[local] Hint Resolve steady_call_listener : steady.

Lemma steady_for_listeners (ev : ListenEvent) (arg : option Frame)
  (ls : list ListenerId) :
  steady listener_event (on_world same_stream) (for_listeners ev arg ls).
Proof.
  induction ls as [|l ls IH]; simpl;
    steady_go same_stream_refl same_stream_trans same_stream_trace.
Qed.

Lemma listener_event_decode_event (e : Event) :
  listener_event e = true -> decode_event e = true.
Proof. destruct e as [|[]|[]|[]|]; cbv; congruence. Qed.

Lemma steady_send_frame (arg : option Frame) :
  steady decode_event (on_world same_stream) (_send_to_listeners FRAME arg).
Proof.
  unfold _send_to_listeners.
  steady_go same_stream_refl same_stream_trans same_stream_trace.
  exact (steady_weaken listener_event_decode_event (fun _ _ H => H)
           (steady_for_listeners FRAME arg a0)).
Qed.

#[local] Hint Resolve steady_send_frame : steady.

Lemma steady_for_frames (frames : list Frame) :
  steady decode_event (on_world same_stream) (for_frames frames).
Proof.
  induction frames as [|f fs IH]; simpl; unfold assign;
    steady_go same_stream_refl same_stream_trans same_stream_trace.
Qed.

#[local] Hint Resolve steady_for_frames : steady.

Lemma steady_for_packets (packets : list Packet) :
  steady decode_event (on_world same_stream) (for_packets packets).
Proof.
  induction packets as [|p ps IH]; simpl;
    unfold codec_decode_call, lift_result;
    steady_go same_stream_refl same_stream_trans same_stream_trace.
Qed.

(** ** The packet extraction loop *)

Lemma parsed_payloads_app (a b : list Event) :
  parsed_payloads (a ++ b) = parsed_payloads a ++ parsed_payloads b.
Proof.
  induction a as [|e a IH]; [reflexivity|].
  destruct e as [|[]| | |]; simpl; try exact IH.
  rewrite IH. reflexivity.
Qed.

Lemma parsed_payloads_decode (evs : list Event) :
  forallb decode_event evs = true -> parsed_payloads evs = [].
Proof.
  induction evs as [|e evs IH]; [reflexivity|].
  destruct e as [|[]|[]|[]|]; simpl; intro H; try discriminate H; auto.
Qed.

Lemma decode_event_stream_event (e : Event) :
  decode_event e = true -> stream_event e = true.
Proof. destruct e as [|[]|[]|[]|]; cbv; congruence. Qed.

Lemma forallb_impl (P Q : Event -> bool) (l : list Event) :
  (forall e, P e = true -> Q e = true) ->
  forallb P l = true -> forallb Q l = true.
Proof. intros H F. rewrite forallb_forall in *. auto. Qed.

Arguments forallb_impl {P Q} l _ _.

Lemma slice_length (A : Type) (lo hi : nat) (l : list A) :
  lo <= hi -> hi <= List.length l -> List.length (slice lo hi l) = hi - lo.
Proof.
  intros H1 H2. unfold slice. rewrite length_firstn, length_skipn. lia.
Qed.

Lemma steady_wp (P : Event -> bool) (R : State -> State -> Prop) (A : Type)
  (m : M A) (s : State) :
  steady P R m ->
  wp m s (fun r s' =>
            r <> OutOfFuel /\ R s s' /\
            exists evs, new_events s s' evs /\ forallb P evs = true).
Proof. intro H. exact (H s). Qed.

Arguments steady_wp {P R A m} s _.

Ltac wp_codec_step :=
  lazymatch goal with
  | |- wp (codec_parse_call ?d) ?s ?Q =>
    let m' := eval cbv beta delta [codec_parse_call] in (codec_parse_call d) in
    change (wp m' s Q)
  | |- wp (codec_decode_call ?d) ?s ?Q =>
    let m' := eval cbv beta delta [codec_decode_call] in (codec_decode_call d) in
    change (wp m' s Q)
  | _ => wp_step
  end.

(** The extraction loop from any state, with enough fuel for the bytes
    buffered. *)
Lemma extract_while_spec (fuel : nat) (s : State) :
  List.length (data_buffer (snd s)) < fuel ->
  wp (extract_while fuel) s (fun r s' =>
    r <> OutOfFuel /\
    video_in (snd s') = video_in (snd s) /\
    no_worker (snd s) (snd s') /\
    (exists consumed evs,
        data_buffer (snd s) = consumed ++ data_buffer (snd s') /\
        new_events s s' evs /\
        forallb stream_event evs = true /\
        List.length consumed = consumed_bytes (parsed_payloads evs)) /\
    (r = Ok tt -> is_running (fst s') = true ->
     waiting (data_buffer (snd s')))).
Proof.
  revert s. induction fuel as [|fuel IH]; intros s Hlen; [lia|].
  destruct s as [[] []]. simpl in Hlen.
  match goal with |- wp _ _ ?Q => set (post := Q) end.
  change (extract_while (S fuel)) with
    (running <- getc is_running;;
     if negb running then ret tt
     else
       buf <- getw data_buffer;;
       if (N.of_nat (List.length buf) <? 12)%N then ret tt
       else
         let packet_size := from_bytes_big (slice 8 12 buf) in
         if (N.of_nat (List.length buf) <? 12 + packet_size)%N then ret tt
         else
           let packet_data := slice 12 (12 + N.to_nat packet_size) buf in
           modw (with_data_buffer (skipn (12 + N.to_nat packet_size) buf));;
           packets <- codec_parse_call packet_data;;
           for_packets packets;;
           extract_while fuel).
  do 3 wp_step.
  - (* running *)
    do 3 wp_step.
    + (* fewer than 12 bytes *)
      wp_step. subst post. simpl. unfold new_events, no_worker. simpl.
      repeat split; try discriminate; auto.
      * exists [], []. repeat split. symmetry. apply app_nil_r.
      * intros _ _. left. apply N.ltb_lt. exact E.
    + do 2 wp_step.
      * (* the payload is not complete *)
        wp_step. subst post. simpl. unfold new_events, no_worker. simpl.
        repeat split; try discriminate; auto.
        -- exists [], []. repeat split. symmetry. apply app_nil_r.
        -- intros _ _. right. apply N.ltb_ge in E. apply N.ltb_lt in E0.
           split; assumption.
      * (* a packet is extracted *)
        apply N.ltb_ge in E, E0.
        set (size := from_bytes_big (slice 8 12 data_buffer0)) in *.
        set (k := 12 + N.to_nat size) in *.
        assert (Hk : k <= List.length data_buffer0) by (subst k; lia).
        do 6 wp_codec_step.

        do 3 wp_codec_step.
        destruct (codec_parse codec0 (slice 12 k data_buffer0))
          as [st' [e|packets]] eqn:EP.
        -- (* the parser raises *)
           repeat wp_codec_step.
           subst post. simpl. unfold new_events, no_worker. simpl.
           repeat split; try discriminate; auto.
           exists (firstn k data_buffer0),
             [Call (CCodecParse (slice 12 k data_buffer0))].
           split; [symmetry; apply firstn_skipn|].
           split; [reflexivity|]. split; [reflexivity|].
           rewrite firstn_length_le by exact Hk.
           unfold consumed_bytes. simpl.
           rewrite slice_length by (subst k; lia). subst k. lia.
        -- (* the packets are decoded *)
           do 5 wp_codec_step.

           apply wp_bind.
           eapply wp_conseq;
             [apply (steady_wp _ (steady_for_packets packets))|].
           intros r s1 [Hr [[Hb [Hv Ha]] [evs [Hn F]]]].
           unfold new_events, no_worker in Hn, Ha.
           proj_simpl_in Hb. proj_simpl_in Hv. proj_simpl_in Ha.
           proj_simpl_in Hn.
           assert (Hp : parsed_payloads evs = [])
             by exact (parsed_payloads_decode evs F).
           assert (Hs : forallb stream_event evs = true)
             by exact (forallb_impl evs decode_event_stream_event F).
           assert (Hc : List.length (firstn k data_buffer0) =
                        consumed_bytes [slice 12 k data_buffer0]).
           { rewrite firstn_length_le by exact Hk.
             unfold consumed_bytes. simpl.
             rewrite slice_length by (subst k; lia). subst k. lia. }
           destruct r as [[]|e|]; [| |congruence].
           ++ (* next round *)
              eapply wp_conseq; [apply IH|].
              ** rewrite Hb, length_skipn. subst k. lia.
              ** intros r2 s2 [Hr2 [Hv2 [Ha2 [[cons2 [evs2 H2]] Hw2]]]].
                 destruct H2 as [Hd2 [Hn2 [Hs2 Hc2]]].
                 unfold new_events in Hn2.
                 subst post. cbv beta. unfold new_events, no_worker in *.
                 proj_simpl.
                 split; [exact Hr2|]. split; [congruence|].
                 split; [auto|].
                 split; [|exact Hw2].
                 exists (firstn k data_buffer0 ++ cons2),
                   ([Call (CCodecParse (slice 12 k data_buffer0))]
                    ++ evs ++ evs2).
                 split.
                 { rewrite <- app_assoc, <- Hd2, Hb. symmetry.
                   apply firstn_skipn. }
                 split.
                 { rewrite Hn2, Hn, <- !app_assoc. reflexivity. }
                 split.
                 { simpl. rewrite forallb_app, Hs, Hs2. reflexivity. }
                 rewrite length_app, Hc, Hc2.
                 rewrite !parsed_payloads_app, Hp. simpl.
                 unfold consumed_bytes. simpl. lia.
           ++ (* decoding raises *)
              subst post. cbv beta. unfold new_events, no_worker.
              proj_simpl.
              split; [discriminate|]. split; [exact Hv|].
              split; [exact Ha|]. split; [|discriminate].
              exists (firstn k data_buffer0),
                ([Call (CCodecParse (slice 12 k data_buffer0))] ++ evs).
              split; [rewrite Hb; symmetry; apply firstn_skipn|].
              split; [rewrite Hn, <- app_assoc; reflexivity|].
              split; [simpl; exact Hs|].
              rewrite parsed_payloads_app, Hp. exact Hc.
  - (* not running *)
    wp_step. subst post. simpl. unfold new_events, no_worker. simpl.
    repeat split; try discriminate; auto.
    exists [], []. repeat split. symmetry. apply app_nil_r.
Qed.

(** C2: after the extraction loop has run to completion with the running
    flag still set, the accumulator holds fewer than 12 bytes, or a header
    and fewer bytes than the header announces; what remains is a suffix of
    what was buffered, and the bytes taken are exactly 12 plus the payload
    length for each payload handed to the decoder.  The loop never needs
    more rounds than the accumulator has bytes, plus one. *)
Theorem accumulator_invariant (s : State) :
  let buf := data_buffer (snd s) in
  let r := fst (extract_while (S (List.length buf)) s) in
  let s' := snd (extract_while (S (List.length buf)) s) in
  r <> OutOfFuel /\
  (exists consumed evs,
      buf = consumed ++ data_buffer (snd s') /\
      new_events s s' evs /\
      List.length consumed = consumed_bytes (parsed_payloads evs)) /\
  (r = Ok tt -> is_running (fst s') = true ->
   waiting (data_buffer (snd s'))).
Proof.
  intros buf r s'.
  destruct (@extract_while_spec (S (List.length buf)) s
              (Nat.lt_succ_diag_r _))
    as [Hr [_ [_ [[consumed [evs [Hd [Hn [_ Hc]]]]] Hw]]]].
  split; [exact Hr|]. split; [|exact Hw].
  exists consumed, evs. auto.
Qed.

(** ** Bytes on the wire *)

Lemma to_N_byte_of_N (n : N) : Byte.to_N (byte_of_N n) = (n mod 256)%N.
Proof.
  unfold byte_of_N.
  destruct (Byte.of_N (n mod 256)) as [b|] eqn:E.
  - exact (Byte.to_of_N _ E).
  - apply Byte.of_N_None_iff in E.
    pose proof (N.mod_lt n 256). lia.
Qed.

Lemma from_bytes_big_u32_be (n : N) :
  (n < 4294967296)%N -> from_bytes_big (u32_be n) = n.
Proof.
  intro H. unfold from_bytes_big, u32_be. simpl.
  rewrite !to_N_byte_of_N.
  rewrite (N.mod_small (n / 16777216) 256)
    by (apply N.Div0.div_lt_upper_bound; lia).
  pose proof (N.div_mod n 256).
  pose proof (N.div_mod (n / 256) 256).
  pose proof (N.div_mod (n / 65536) 256).
  replace (n / 65536)%N with (n / 256 / 256)%N in *
    by (rewrite N.Div0.div_div; reflexivity).
  replace (n / 16777216)%N with (n / 256 / 256 / 256)%N
    by (rewrite !N.Div0.div_div; reflexivity).
  lia.
Qed.

Lemma u32_be_length (n : N) : List.length (u32_be n) = 4.
Proof. reflexivity. Qed.

Lemma slice_app_prefix (A : Type) (lo hi : nat) (a b : list A) :
  hi <= List.length a -> slice lo hi (a ++ b) = slice lo hi a.
Proof.
  intro H. unfold slice.
  destruct (Nat.le_gt_cases lo hi) as [Hle|Hgt].
  - rewrite skipn_app.
    replace (lo - List.length a) with 0 by lia. simpl.
    rewrite firstn_app.
    replace (hi - lo - List.length (skipn lo a)) with 0
      by (rewrite length_skipn; lia).
    simpl. apply app_nil_r.
  - replace (hi - lo) with 0 by lia. reflexivity.
Qed.

Section Packet.

Variables reserved payload : bytes.
Hypothesis reserved_length : List.length reserved = 8.
Hypothesis payload_length : (N.of_nat (List.length payload) < 4294967296)%N.

Let packet : bytes := packet_bytes reserved payload.

Lemma packet_length : List.length packet = 12 + List.length payload.
Proof.
  unfold packet, packet_bytes. rewrite !length_app, u32_be_length. lia.
Qed.

Lemma packet_header_slice (tail : bytes) :
  slice 8 12 (packet ++ tail) = u32_be (N.of_nat (List.length payload)).
Proof.
  unfold packet, packet_bytes, slice. rewrite <- !app_assoc.
  rewrite skipn_app, reserved_length, Nat.sub_diag.
  rewrite skipn_all2 by lia. simpl. reflexivity.
Qed.

Lemma packet_declared_length :
  declared_length packet = N.of_nat (List.length payload).
Proof.
  unfold declared_length.
  rewrite <- (app_nil_r packet), packet_header_slice.
  apply from_bytes_big_u32_be. exact payload_length.
Qed.

Lemma packet_payload_slice :
  slice 12 (12 + List.length payload) packet = payload.
Proof.
  unfold packet, packet_bytes, slice.
  replace (12 + List.length payload - 12) with (List.length payload) by lia.
  rewrite app_assoc, skipn_app.
  rewrite skipn_all2 by (rewrite length_app, u32_be_length; lia).
  rewrite length_app, u32_be_length, reserved_length. simpl.
  rewrite firstn_all. reflexivity.
Qed.

Lemma packet_rest : skipn (12 + List.length payload) packet = [].
Proof. apply skipn_all2. rewrite packet_length. lia. Qed.

(** A strict prefix of the packet holds no complete packet. *)
Lemma prefix_waiting (pre rest : bytes) :
  pre ++ rest = packet -> List.length pre < List.length packet ->
  waiting pre.
Proof.
  intros H Hlt. unfold waiting.
  destruct (Nat.lt_ge_cases (List.length pre) 12) as [H12|H12].
  - left. lia.
  - right. split; [lia|].
    unfold declared_length.
    rewrite <- (slice_app_prefix 8 pre rest H12), H.
    fold (declared_length packet). rewrite packet_declared_length.
    rewrite packet_length in Hlt. lia.
Qed.

End Packet.

(** ** One packet across many reads *)

Lemma extract_while_unfold (fuel : nat) :
  extract_while (S fuel) =
  (running <- getc is_running;;
   if negb running then ret tt
   else
     buf <- getw data_buffer;;
     if (N.of_nat (List.length buf) <? 12)%N then ret tt
     else
       let packet_size := from_bytes_big (slice 8 12 buf) in
       if (N.of_nat (List.length buf) <? 12 + packet_size)%N then ret tt
       else
         let packet_data := slice 12 (12 + N.to_nat packet_size) buf in
         modw (with_data_buffer (skipn (12 + N.to_nat packet_size) buf));;
         packets <- codec_parse_call packet_data;;
         for_packets packets;;
         extract_while fuel).
Proof. reflexivity. Qed.

(** With no complete packet buffered the extraction loop does nothing. *)
Lemma extract_idle (fuel : nat) (s : State) :
  waiting (data_buffer (snd s)) ->
  wp (extract_while (S fuel)) s (fun r s' => r = Ok tt /\ s' = s).
Proof.
  destruct s as [[] []]. proj_simpl. unfold waiting, declared_length.
  intro Hw. rewrite extract_while_unfold.
  do 3 wp_step; [|wp_step; auto].
  do 3 wp_step; [wp_step; auto|].
  do 2 wp_step; [wp_step; auto|].
  apply N.ltb_ge in E, E0. lia.
Qed.

(** With exactly one packet buffered and the flag set, the extraction loop
    hands its payload to the decoder and empties the accumulator. *)
Lemma extract_while_packet (fuel : nat) (s : State)
  (reserved payload : bytes) :
  List.length reserved = 8 ->
  (N.of_nat (List.length payload) < 4294967296)%N ->
  is_running (fst s) = true ->
  data_buffer (snd s) = packet_bytes reserved payload ->
  wp (extract_while (S (S fuel))) s (fun r s' =>
    r <> OutOfFuel /\
    data_buffer (snd s') = [] /\
    video_in (snd s') = video_in (snd s) /\
    exists evs,
      new_events s s' (Call (CCodecParse payload) :: evs) /\
      forallb decode_event evs = true).
Proof.
  intros Hres Hpay.
  destruct s as [[] []]. proj_simpl. intros -> ->.
  pose proof (packet_length reserved payload Hres Hpay) as Hlen.
  pose proof (packet_declared_length reserved payload Hres Hpay) as Hdecl.
  unfold declared_length in Hdecl.
  match goal with |- wp _ _ ?Q => set (post := Q) end.
  rewrite extract_while_unfold.
  do 6 wp_step; [apply N.ltb_lt in E; lia|].
  cbv zeta. rewrite Hdecl, Nat2N.id.
  do 2 wp_step; [apply N.ltb_lt in E0; lia|].
  rewrite (packet_payload_slice reserved payload Hres Hpay),
    (packet_rest reserved payload Hres Hpay).
  do 9 wp_codec_step.
  destruct (codec_parse codec0 payload) as [st' [e|packets]] eqn:EP.
  - repeat wp_codec_step.
    subst post. cbv beta. unfold new_events. proj_simpl.
    split; [discriminate|]. repeat split. exists []. split; reflexivity.
  - repeat lazymatch goal with
           | |- wp (for_packets _) _ _ => fail
           | _ => wp_codec_step
           end.
    eapply wp_conseq; [apply (steady_wp _ (steady_for_packets packets))|].
    intros r s1 [Hr [[Hb [Hv _]] [evs [Hn F]]]].
    unfold new_events in Hn.
    proj_simpl_in Hb. proj_simpl_in Hv. proj_simpl_in Hn.
    destruct r as [[]|e|]; [| |congruence].
    + eapply wp_conseq; [apply extract_idle|].
      * rewrite Hb. left. simpl. lia.
      * intros r2 s2 [-> ->].
        subst post. cbv beta. unfold new_events. proj_simpl.
        split; [discriminate|]. split; [exact Hb|]. split; [exact Hv|].
        exists evs. split; [rewrite Hn, <- app_assoc; reflexivity | exact F].
    + subst post. cbv beta. unfold new_events. proj_simpl.
      split; [discriminate|]. split; [exact Hb|]. split; [exact Hv|].
      exists evs. split; [rewrite Hn, <- app_assoc; reflexivity | exact F].
Qed.

Lemma RECV_SIZE_pos : 0 < RECV_SIZE.
Proof. unfold RECV_SIZE. lia. Qed.

Lemma recv_closed (blocking : bool) (k : nat) (s : State) :
  video_closed (snd s) = true ->
  sock_recv blocking k s = (Raise OtherOSError, s).
Proof. intro H. unfold sock_recv. rewrite H. reflexivity. Qed.

Lemma recv_end (k : nat) (s : State) :
  video_closed (snd s) = false -> video_in (snd s) = [] ->
  sock_recv false k s = (Ok [], (fst s, with_video_in [] (snd s))).
Proof. intros H1 H2. unfold sock_recv. rewrite H1, H2. reflexivity. Qed.

Lemma recv_timeout (k : nat) (s : State) (rest : list SockEvent) :
  video_closed (snd s) = false -> video_in (snd s) = SockTimeout :: rest ->
  sock_recv false k s =
  (Raise SocketTimeout, (fst s, with_video_in rest (snd s))).
Proof. intros H1 H2. unfold sock_recv. rewrite H1, H2. reflexivity. Qed.

Lemma recv_bytes (k : nat) (s : State) (b : bytes) (rest : list SockEvent) :
  video_closed (snd s) = false -> video_in (snd s) = SockBytes b :: rest ->
  sock_recv false k s =
  (Ok (firstn k b), (fst s, with_video_in (requeue (skipn k b) rest) (snd s))).
Proof. intros H1 H2. unfold sock_recv. rewrite H1, H2. reflexivity. Qed.

Lemma wp_eq (A : Type) (m : M A) (s : State) (Q : Res A -> State -> Prop)
  (r : Res A) (s' : State) :
  m s = (r, s') -> Q r s' -> wp m s Q.
Proof. unfold wp. intros ->. exact (fun H => H). Qed.

Arguments wp_eq {A m s Q} r s' _ _.

Lemma wp_run_eq (A : Type) (m m' : M A) (s s' : State)
  (Q : Res A -> State -> Prop) :
  m s = m' s' -> wp m' s' Q -> wp m s Q.
Proof. unfold wp. intros ->. exact (fun H => H). Qed.

Arguments wp_run_eq {A m m' s s' Q} _ _.

(** The handlers of the stream loop absorb every exception, with nothing
    but a log record. *)
Lemma stream_handlers_spec (e : Exn) (s : State) :
  exists k,
    stream_handlers e = Some k /\
    wp k s (fun r s' =>
      r = Ok (handler_ctl e) /\
      fst s' = fst s /\
      (exists evs, new_events s s' evs /\ forallb quiet evs = true /\
                   snd s' = with_trace (trace (snd s) ++ evs) (snd s))).
Proof.
  destruct s as [[] []].
  assert (W : forall t,
             mkWorld env0 t accepts0 video_in0 shell_results0 video_closed0
               control_closed0 proc_state0 thread_alive0 in_worker0
               data_buffer0 codec0 user0 =
             with_trace (t ++ [])
               (mkWorld env0 t accepts0 video_in0 shell_results0
                  video_closed0 control_closed0 proc_state0 thread_alive0
                  in_worker0 data_buffer0 codec0 user0)).
  { intro t. unfold with_trace. simpl. rewrite app_nil_r. reflexivity. }
  unfold stream_handlers.
  destruct e; cbn [is_OSError].
  all: eexists; (split; [reflexivity|]).
  all: repeat wp_step.
  all: unfold new_events; proj_simpl.
  all: first
         [ split; [reflexivity|]; split; [reflexivity|];
           eexists [_]; repeat split; reflexivity
         | split; [reflexivity|]; split; [reflexivity|];
           exists []; split; [symmetry; apply app_nil_r|];
           split; [reflexivity | apply W] ].
Qed.

Lemma iteration_timeout (s : State) (rest : list SockEvent) :
  video_closed (snd s) = false -> video_in (snd s) = SockTimeout :: rest ->
  stream_iteration s = (Ok Continue, (fst s, with_video_in rest (snd s))).
Proof.
  intros H1 H2. unfold stream_iteration, try_except, bind.
  rewrite (recv_timeout RECV_SIZE s H1 H2). reflexivity.
Qed.

Lemma iteration_end (s : State) :
  video_closed (snd s) = false -> video_in (snd s) = [] ->
  stream_iteration s =
  (Ok Break,
   (fst s,
    with_trace (trace (snd s) ++ [Log LDebug MsgStreamEnded])
      (with_video_in [] (snd s)))).
Proof.
  intros H1 H2. unfold stream_iteration, try_except, bind.
  rewrite (recv_end RECV_SIZE s H1 H2). reflexivity.
Qed.

Lemma iteration_closed (s : State) :
  video_closed (snd s) = true ->
  wp stream_iteration s (fun r s' =>
    r = Ok Break /\
    fst s' = fst s /\
    exists evs, new_events s s' evs /\ forallb quiet evs = true /\
                snd s' = with_trace (trace (snd s) ++ evs) (snd s)).
Proof.
  intro H. unfold wp, stream_iteration, try_except, bind.
  rewrite (recv_closed false RECV_SIZE s H). simpl.
  change (wp (running <- getc is_running;;
              when running (log LWarning (MsgSocketError OtherOSError));;
              ret Break) s
            (fun r s' =>
               r = Ok Break /\
               fst s' = fst s /\
               exists evs, new_events s s' evs /\ forallb quiet evs = true /\
                           snd s' = with_trace (trace (snd s) ++ evs) (snd s))).
  destruct (stream_handlers_spec OtherOSError s) as [k [Hk H']].
  injection Hk as <-. exact H'.
Qed.

Lemma firstn_nonempty (A : Type) (k : nat) (l : list A) :
  0 < k -> l <> [] -> firstn k l <> [].
Proof. destruct k, l; simpl; try lia; congruence. Qed.

Lemma iteration_chunk (s : State) (b : bytes) (rest : list SockEvent) :
  video_closed (snd s) = false -> video_in (snd s) = SockBytes b :: rest ->
  b <> [] ->
  stream_iteration s =
  try_except
    (buf <- getw data_buffer;;
     extract_while (S (List.length buf));;
     ret Continue)
    stream_handlers
    (fst s,
     with_data_buffer (data_buffer (snd s) ++ firstn RECV_SIZE b)
       (with_video_in (requeue (skipn RECV_SIZE b) rest) (snd s))).
Proof.
  intros H1 H2 Hb. unfold stream_iteration.
  unfold try_except at 1 3. unfold bind at 1.
  unfold try_except at 1. unfold bind at 1.
  rewrite (recv_bytes RECV_SIZE s H1 H2).
  pose proof (@firstn_nonempty _ RECV_SIZE b RECV_SIZE_pos Hb) as Hc.
  destruct (firstn RECV_SIZE b) as [|x chunk]; [congruence|].
  reflexivity.
Qed.

Lemma requeue_bytes (left : bytes) (rest : list SockEvent) :
  script_bytes (requeue left rest) = left ++ script_bytes rest.
Proof. destruct left; reflexivity. Qed.

Lemma requeue_chunk (left : bytes) (rest : list SockEvent) :
  Forall chunk_event rest -> Forall chunk_event (requeue left rest).
Proof.
  destruct left; simpl; auto.
  intro H. constructor; [discriminate | exact H].
Qed.

Lemma requeue_measure (k : nat) (b : bytes) (rest : list SockEvent) :
  0 < k -> b <> [] ->
  script_measure (requeue (skipn k b) rest) <
  script_measure (SockBytes b :: rest).
Proof.
  intros Hk Hb. pose proof (length_skipn k b) as H.
  destruct (skipn k b) eqn:E; simpl in *; lia.
Qed.

Lemma parsed_payloads_quiet (evs : list Event) :
  forallb quiet evs = true -> parsed_payloads evs = [].
Proof.
  induction evs as [|e evs IH]; [reflexivity|].
  destruct e as [|[]|[]|[]|]; simpl; intro H; try discriminate H; auto.
Qed.

Lemma stream_while_unfold (fuel : nat) :
  stream_while (S fuel) =
  (running <- getc is_running;;
   if negb running then ret tt
   else
     ctl <- stream_iteration;;
     match ctl with
     | Break => ret tt
     | Continue => stream_while fuel
     end).
Proof. reflexivity. Qed.

(** Once the accumulator is empty and the peer has no byte left to send,
    the loop ends without handing anything to the decoder. *)
Lemma stream_while_drained (fuel : nat) (s : State) :
  data_buffer (snd s) = [] ->
  script_bytes (video_in (snd s)) = [] ->
  Forall chunk_event (video_in (snd s)) ->
  script_measure (video_in (snd s)) < fuel ->
  wp (stream_while fuel) s (fun r s' =>
    r = Ok tt /\
    data_buffer (snd s') = [] /\
    script_bytes (video_in (snd s')) = [] /\
    exists evs, new_events s s' evs /\ parsed_payloads evs = []).
Proof.
  revert s. induction fuel as [|fuel IH]; intros s Hb Hs Hc Hm; [lia|].
  rewrite stream_while_unfold.
  apply wp_bind.
  apply (@wp_getc _ is_running s _ (is_running (fst s)) eq_refl).
  destruct (is_running (fst s)) eqn:ER; cbn [negb]; cbv iota.
  2: { apply wp_ret. repeat (split; [assumption || reflexivity|]).
       exists []. split; [apply new_events_refl | reflexivity]. }
  apply wp_bind.
  destruct (video_closed (snd s)) eqn:EC.
  - eapply wp_conseq; [apply (iteration_closed s EC)|].
    intros r s' [-> [Hf [evs [Hn [Hq Hw]]]]]. apply wp_ret.
    rewrite Hw. proj_simpl.
    repeat (split; [assumption || reflexivity|]).
    exists evs. split; [exact Hn | exact (parsed_payloads_quiet evs Hq)].
  - destruct (video_in (snd s)) as [|[b| |] rest] eqn:EV.
    + apply (wp_eq _ _ (iteration_end s EC EV)). apply wp_ret.
      proj_simpl. repeat (split; [assumption || reflexivity|]).
      eexists [_]. split; reflexivity.
    + simpl in Hs. inversion Hc as [|x l Hx Hl]; subst.
      apply app_eq_nil in Hs as [-> _]. elim Hx. reflexivity.
    + apply (wp_eq _ _ (iteration_timeout s EC EV)).
      eapply wp_conseq; [apply IH|].
      * exact Hb.
      * exact Hs.
      * inversion Hc; assumption.
      * simpl in Hm |- *. lia.
      * intros r s' [-> [H1 [H2 [evs [Hn Hp]]]]].
        repeat (split; [assumption || reflexivity|]).
        exists evs. split; [exact Hn | exact Hp].
    + inversion Hc as [|x l Hx Hl]; subst. elim Hx.
Qed.

Section OnePacket.

Variables reserved payload : bytes.
Hypothesis reserved_length : List.length reserved = 8.
Hypothesis payload_fits : (N.of_nat (List.length payload) < 4294967296)%N.

Let packet : bytes := packet_bytes reserved payload.

(** The loop from the middle of a packet: [data_buffer] holds a strict
    prefix, the peer still sends the rest, in any number of arrivals. *)
Lemma stream_while_packet (fuel : nat) (s : State) :
  is_running (fst s) = true ->
  video_closed (snd s) = false ->
  Forall chunk_event (video_in (snd s)) ->
  data_buffer (snd s) ++ script_bytes (video_in (snd s)) = packet ->
  List.length (data_buffer (snd s)) < List.length packet ->
  script_measure (video_in (snd s)) < fuel ->
  wp (stream_while fuel) s (fun r s' =>
    r = Ok tt /\
    data_buffer (snd s') = [] /\
    script_bytes (video_in (snd s')) = [] /\
    exists evs, new_events s s' evs /\ parsed_payloads evs = [payload]).
Proof.
  revert s. induction fuel as [|fuel IH]; intros s ER EC Hc Hp Hl Hm; [lia|].
  rewrite stream_while_unfold.
  apply wp_bind.
  apply (@wp_getc _ is_running s _ (is_running (fst s)) eq_refl).
  rewrite ER. cbn [negb]. cbv iota.
  apply wp_bind.
  destruct (video_in (snd s)) as [|[b| |] rest] eqn:EV.
  - simpl in Hp. rewrite app_nil_r in Hp. rewrite Hp in Hl. lia.
  - inversion Hc as [|x l Hx Hrest]; subst x l. simpl in Hx, Hp, Hm.
    apply (wp_run_eq (iteration_chunk s EC EV Hx)).
    set (pre := data_buffer (snd s)) in *.
    set (s1 := (fst s,
                with_data_buffer (pre ++ firstn RECV_SIZE b)
                  (with_video_in (requeue (skipn RECV_SIZE b) rest) (snd s)))).
    assert (Hsplit : (pre ++ firstn RECV_SIZE b) ++
                     script_bytes (requeue (skipn RECV_SIZE b) rest) = packet).
    { rewrite requeue_bytes, <- app_assoc, (app_assoc (firstn _ _)),
        firstn_skipn. exact Hp. }
    assert (Ht : trace (snd s1) = trace (snd s)) by reflexivity.
    apply wp_try_except. apply wp_bind.
    apply (@wp_getw _ data_buffer s1 _ (pre ++ firstn RECV_SIZE b) eq_refl).
    apply wp_bind.
    destruct (Nat.lt_ge_cases (List.length (pre ++ firstn RECV_SIZE b))
                (List.length packet)) as [Hlt|Hge].
    + (* the packet is still incomplete *)
      eapply wp_conseq;
        [apply extract_idle;
         exact (prefix_waiting reserved payload reserved_length payload_fits
                  _ _ Hsplit Hlt)|].
      intros r s2 [-> ->]. apply wp_ret.
      eapply wp_conseq; [apply IH|].
      * exact ER.
      * exact EC.
      * apply requeue_chunk. exact Hrest.
      * exact Hsplit.
      * exact Hlt.
      * pose proof (requeue_measure rest RECV_SIZE_pos Hx) as Hq.
        change (script_measure (SockBytes b :: rest))
          with (S (List.length b + script_measure rest)) in Hq.
        change (video_in (snd s1))
          with (requeue (skipn RECV_SIZE b) rest). lia.
      * intros r s' [-> [H1 [H2 [evs [Hn Hq]]]]].
        repeat (split; [assumption || reflexivity|]).
        exists evs. split; [|exact Hq].
        unfold new_events in *. rewrite Hn, Ht. reflexivity.
    + (* the last bytes of the packet have arrived *)
      assert (Hfull : pre ++ firstn RECV_SIZE b = packet /\
                      script_bytes (requeue (skipn RECV_SIZE b) rest) = []).
      { pose proof (f_equal (@List.length _) Hsplit) as Hlen.
        rewrite length_app in Hlen.
        destruct (script_bytes (requeue (skipn RECV_SIZE b) rest)) eqn:Eq.
        - rewrite app_nil_r in Hsplit. auto.
        - cbn [List.length] in Hlen. lia. }
      destruct Hfull as [Hfull Hnil].
      rewrite Hfull. unfold packet at 1.
      rewrite (packet_length reserved payload reserved_length payload_fits).
      change (S (12 + List.length payload))
        with (S (S (11 + List.length payload))).
      eapply wp_conseq;
        [apply (@extract_while_packet _ s1 reserved payload
                  reserved_length payload_fits ER Hfull)|].
      intros r s2 [Hr [Hb2 [Hv2 [evs [Hn F]]]]].
      assert (Hs2 : script_bytes (video_in (snd s2)) = [])
        by (rewrite Hv2; exact Hnil).
      assert (Hc2 : Forall chunk_event (video_in (snd s2)))
        by (rewrite Hv2; apply requeue_chunk; exact Hrest).
      assert (Hm2 : script_measure (video_in (snd s2)) < fuel).
      { rewrite Hv2. pose proof (requeue_measure rest RECV_SIZE_pos Hx) as Hq.
        change (script_measure (SockBytes b :: rest))
          with (S (List.length b + script_measure rest)) in Hq.
        change (video_in (snd s1))
          with (requeue (skipn RECV_SIZE b) rest). lia. }
      assert (Hpp : parsed_payloads (Call (CCodecParse payload) :: evs) =
                    [payload]).
      { simpl. rewrite (parsed_payloads_decode evs F). reflexivity. }
      destruct r as [[]|e|]; [| |congruence].
      * apply wp_ret.
        eapply wp_conseq;
          [apply (@stream_while_drained fuel s2 Hb2 Hs2 Hc2 Hm2)|].
        intros r s' [-> [H1 [H2 [evs' [Hn' Hq]]]]].
        repeat (split; [assumption || reflexivity|]).
        exists ((Call (CCodecParse payload) :: evs) ++ evs'). split.
        -- unfold new_events in *. rewrite Hn', Hn, Ht, <- !app_assoc.
           reflexivity.
        -- rewrite parsed_payloads_app, Hpp, Hq. reflexivity.
      * destruct (stream_handlers_spec e s2) as [k [Hk Hwp]].
        rewrite Hk. eapply wp_conseq; [exact Hwp|].
        intros r s3 [-> [Hf [evs3 [Hn3 [Hq3 Hw3]]]]].
        assert (Hn13 : new_events s s3
                         ((Call (CCodecParse payload) :: evs) ++ evs3)).
        { unfold new_events in *. rewrite Hn3, Hn, Ht, <- !app_assoc.
          reflexivity. }
        assert (Hp13 : parsed_payloads
                         ((Call (CCodecParse payload) :: evs) ++ evs3) =
                       [payload]).
        { rewrite parsed_payloads_app, Hpp, (parsed_payloads_quiet evs3 Hq3).
          reflexivity. }
        assert (Hb3 : data_buffer (snd s3) = [])
          by (rewrite Hw3; exact Hb2).
        assert (Hv3 : video_in (snd s3) = video_in (snd s2))
          by (rewrite Hw3; reflexivity).
        destruct (handler_ctl e).
        -- eapply wp_conseq; [apply (@stream_while_drained fuel s3)|].
           ++ exact Hb3.
           ++ rewrite Hv3. exact Hs2.
           ++ rewrite Hv3. exact Hc2.
           ++ rewrite Hv3. exact Hm2.
           ++ intros r s' [-> [H1 [H2 [evs' [Hn' Hq]]]]].
              repeat (split; [assumption || reflexivity|]).
              exists (((Call (CCodecParse payload) :: evs) ++ evs3) ++ evs').
              split; [exact (new_events_trans Hn13 Hn')|].
              rewrite parsed_payloads_app, Hp13, Hq. reflexivity.
        -- apply wp_ret.
           split; [reflexivity|]. split; [exact Hb3|].
           split; [rewrite Hv3; exact Hs2|].
           eexists. split; [exact Hn13 | exact Hp13].
  - inversion Hc as [|x l Hx Hrest]; subst x l. simpl in Hp, Hm.
    apply (wp_eq _ _ (iteration_timeout s EC EV)).
    eapply wp_conseq; [apply IH|].
    + exact ER.
    + exact EC.
    + exact Hrest.
    + exact Hp.
    + exact Hl.
    + simpl. lia.
    + intros r s' [-> [H1 [H2 [evs [Hn Hq]]]]].
      repeat (split; [assumption || reflexivity|]).
      exists evs. split; [exact Hn | exact Hq].
  - inversion Hc as [|x l Hx Hrest]; subst. elim Hx.
Qed.

End OnePacket.

(** C1.  One packet of 8 reserved bytes, the big-endian 32-bit length of
    its payload and the payload itself, delivered to [_stream_loop] in any
    number of arrivals of any sizes, with any number of timeouts in between:
    the loop returns, the decoder is handed exactly one payload, the
    original one, and the 12 + L bytes received are all consumed, so that
    the accumulator is empty at the end. *)
Theorem packet_across_reads (reserved payload : bytes) (s : State) :
  List.length reserved = 8 ->
  (N.of_nat (List.length payload) < 4294967296)%N ->
  _video_socket (fst s) <> None ->
  is_running (fst s) = true ->
  video_closed (snd s) = false ->
  Forall chunk_event (video_in (snd s)) ->
  script_bytes (video_in (snd s)) = packet_bytes reserved payload ->
  fst (_stream_loop s) = Ok tt /\
  (exists evs,
      new_events s (snd (_stream_loop s)) evs /\
      parsed_payloads evs = [payload] /\
      consumed_bytes (parsed_payloads evs) =
      List.length (script_bytes (video_in (snd s)))) /\
  data_buffer (snd (snd (_stream_loop s))) = [] /\
  script_bytes (video_in (snd (snd (_stream_loop s)))) = [].
Proof.
  intros Hres Hpay Hv ER EC Hc Hp.
  assert (Hlen : consumed_bytes [payload] =
                 List.length (script_bytes (video_in (snd s)))).
  { rewrite Hp, (packet_length reserved payload Hres Hpay).
    unfold consumed_bytes. simpl. lia. }
  revert Hlen.
  change (wp _stream_loop s (fun r s' =>
    consumed_bytes [payload] =
    List.length (script_bytes (video_in (snd s))) ->
    r = Ok tt /\
    (exists evs,
        new_events s s' evs /\
        parsed_payloads evs = [payload] /\
        consumed_bytes (parsed_payloads evs) =
        List.length (script_bytes (video_in (snd s)))) /\
    data_buffer (snd s') = [] /\
    script_bytes (video_in (snd s')) = [])).
  destruct s as [[] []]. proj_simpl_in Hv. proj_simpl_in ER.
  proj_simpl_in EC. proj_simpl_in Hc. proj_simpl_in Hp. proj_simpl.
  subst is_running0 video_closed0.
  match goal with |- wp _ _ ?Q => set (post := Q) end.
  unfold _stream_loop.
  destruct _video_socket0 as [sock|]; [|congruence].
  repeat lazymatch goal with
         | |- wp (stream_while _) _ _ => fail
         | |- wp (bind (stream_while _) _) _ _ => apply wp_bind
         | _ => wp_step
         end.
  eapply wp_conseq;
    [apply (@stream_while_packet reserved payload Hres Hpay)|];
    proj_simpl; try reflexivity; try assumption.
  - rewrite (packet_length reserved payload Hres Hpay). simpl. lia.
  - lia.
  - intros r [c2 w2] [-> [Hb [Hs [evs [Hn Hq]]]]].
    unfold new_events in Hn. proj_simpl_in Hn. proj_simpl_in Hb.
    proj_simpl_in Hs.
    destruct c2, w2. proj_simpl_in Hn. proj_simpl_in Hb. proj_simpl_in Hs.
    repeat wp_step.
    subst post. cbv beta. unfold new_events. proj_simpl.
    intro Hlen. split; [reflexivity|]. split; [|split; assumption].
    eexists. split; [rewrite Hn, <- !app_assoc; reflexivity|].
    rewrite !parsed_payloads_app, Hq. simpl. split; [reflexivity|].
    exact Hlen.
Qed.

(** ** The stream loop from any state *)

Lemma iteration_error (s : State) (rest : list SockEvent) :
  video_closed (snd s) = false -> video_in (snd s) = SockError :: rest ->
  wp stream_iteration s (fun r s' =>
    r = Ok Break /\
    no_worker (snd s) (snd s') /\
    exists evs, new_events s s' evs /\ forallb quiet evs = true).
Proof.
  intros H1 H2.
  assert (E : stream_iteration s =
              (running <- getc is_running;;
               when running (log LWarning (MsgSocketError OtherOSError));;
               ret Break) (fst s, with_video_in rest (snd s))).
  { unfold stream_iteration. unfold try_except at 1. unfold bind at 1.
    unfold try_except at 1. unfold bind at 1.
    unfold sock_recv. rewrite H1, H2. reflexivity. }
  apply (wp_run_eq E).
  destruct (stream_handlers_spec OtherOSError
              (fst s, with_video_in rest (snd s))) as [k [Hk H']].
  injection Hk as <-.
  eapply wp_conseq; [exact H'|].
  intros r s' [-> [_ [evs [Hn [Hq Hw]]]]].
  split; [reflexivity|]. split; [|exists evs; split; [exact Hn | exact Hq]].
  rewrite Hw. unfold no_worker. proj_simpl. exact (fun H => H).
Qed.

Lemma iteration_empty (s : State) (rest : list SockEvent) :
  video_closed (snd s) = false -> video_in (snd s) = SockBytes [] :: rest ->
  stream_iteration s =
  (Ok Break,
   (fst s,
    with_trace (trace (snd s) ++ [Log LDebug MsgStreamEnded])
      (with_video_in rest (snd s)))).
Proof.
  intros H1 H2. unfold stream_iteration, try_except, bind.
  rewrite (recv_bytes RECV_SIZE s H1 H2).
  destruct RECV_SIZE; reflexivity.
Qed.

(** One round of the loop never exhausts its fuel, and when the loop is to
    go on, something of what the peer sends has been consumed. *)
Lemma iteration_spec (s : State) :
  wp stream_iteration s (fun r s' =>
    r <> OutOfFuel /\
    (r = Ok Continue ->
     script_measure (video_in (snd s')) < script_measure (video_in (snd s))) /\
    no_worker (snd s) (snd s') /\
    exists evs, new_events s s' evs /\ forallb stream_event evs = true).
Proof.
  assert (Hq : forall evs, forallb quiet evs = true ->
                           forallb stream_event evs = true).
  { intros evs H. apply (@forallb_impl quiet stream_event evs); [|exact H].
    intros e He. apply listener_event_stream_event, quiet_listener_event, He. }
  destruct (video_closed (snd s)) eqn:EC.
  { eapply wp_conseq; [apply (iteration_closed s EC)|].
    intros r s' [-> [_ [evs [Hn [F Hw]]]]].
    split; [discriminate|]. split; [discriminate|].
    split; [rewrite Hw; unfold no_worker; proj_simpl; exact (fun H => H)|].
    exists evs. auto. }
  destruct (video_in (snd s)) as [|[b| |] rest] eqn:EV.
  - apply (wp_eq _ _ (iteration_end s EC EV)).
    split; [discriminate|]. split; [discriminate|].
    split; [unfold no_worker; proj_simpl; exact (fun H => H)|].
    eexists [_]. split; reflexivity.
  - destruct b as [|x b].
    { apply (wp_eq _ _ (iteration_empty s EC EV)).
      split; [discriminate|]. split; [discriminate|].
      split; [unfold no_worker; proj_simpl; exact (fun H => H)|].
      eexists [_]. split; reflexivity. }
    assert (Hx : x :: b <> []) by discriminate.
    apply (wp_run_eq (iteration_chunk s EC EV Hx)).
    set (s1 := (fst s,
                with_data_buffer
                  (data_buffer (snd s) ++ firstn RECV_SIZE (x :: b))
                  (with_video_in (requeue (skipn RECV_SIZE (x :: b)) rest)
                     (snd s)))).
    assert (Ht : trace (snd s1) = trace (snd s)) by reflexivity.
    assert (Ha : thread_alive (snd s1) = thread_alive (snd s))
      by reflexivity.
    assert (Hm : script_measure (video_in (snd s1)) <
                 script_measure (SockBytes (x :: b) :: rest))
      by exact (requeue_measure rest RECV_SIZE_pos Hx).
    apply wp_try_except. apply wp_bind.
    apply (@wp_getw _ data_buffer s1 _ (data_buffer (snd s1)) eq_refl).
    apply wp_bind.
    eapply wp_conseq; [apply extract_while_spec; lia|].
    intros r s2 [Hr [Hv [Hw [[cons [evs [_ [Hn [F _]]]]] _]]]].
    assert (Hw2 : no_worker (snd s) (snd s2)).
    { unfold no_worker in *. rewrite <- Ha. exact Hw. }
    assert (Hn2 : new_events s s2 evs).
    { unfold new_events in *. rewrite Hn, Ht. reflexivity. }
    destruct r as [[]|e|]; [| |congruence].
    + apply wp_ret.
      split; [discriminate|]. split; [intros _; rewrite Hv; exact Hm|].
      split; [exact Hw2|]. exists evs. auto.
    + destruct (stream_handlers_spec e s2) as [k [Hk Hwp]].
      rewrite Hk. eapply wp_conseq; [exact Hwp|].
      intros r s3 [-> [_ [evs3 [Hn3 [F3 Hw3]]]]].
      split; [discriminate|].
      assert (Hv3 : video_in (snd s3) = video_in (snd s2))
        by (rewrite Hw3; reflexivity).
      split; [intros _; rewrite Hv3, Hv; exact Hm|].
      split.
      { rewrite Hw3. unfold no_worker in *. proj_simpl. exact Hw2. }
      exists (evs ++ evs3). split; [exact (new_events_trans Hn2 Hn3)|].
      rewrite forallb_app, F, (Hq evs3 F3). reflexivity.
  - apply (wp_eq _ _ (iteration_timeout s EC EV)).
    split; [discriminate|]. split; [intros _; simpl; lia|].
    split; [unfold no_worker; proj_simpl; exact (fun H => H)|].
    exists []. split; [|reflexivity].
    unfold new_events. proj_simpl. symmetry. apply app_nil_r.
  - eapply wp_conseq; [apply (iteration_error s EC EV)|].
    intros r s' [-> [Hw [evs [Hn F]]]].
    split; [discriminate|]. split; [discriminate|].
    split; [exact Hw|]. exists evs. auto.
Qed.

(** The fuel computed from what the peer sends is enough for the outer
    loop. *)
Lemma stream_while_spec (fuel : nat) (s : State) :
  script_measure (video_in (snd s)) < fuel ->
  wp (stream_while fuel) s (fun r s' =>
    r <> OutOfFuel /\
    no_worker (snd s) (snd s') /\
    exists evs, new_events s s' evs /\ forallb stream_event evs = true).
Proof.
  revert s. induction fuel as [|fuel IH]; intros s Hm; [lia|].
  rewrite stream_while_unfold.
  apply wp_bind.
  apply (@wp_getc _ is_running s _ (is_running (fst s)) eq_refl).
  destruct (is_running (fst s)); cbn [negb]; cbv iota.
  2: { apply wp_ret. split; [discriminate|].
       split; [exact (fun H => H)|].
       exists []. split; [apply new_events_refl | reflexivity]. }
  apply wp_bind.
  eapply wp_conseq; [apply iteration_spec|].
  intros r s1 [Hr [Hc [Hw [evs [Hn F]]]]].
  destruct r as [[]|e|]; [| | |congruence].
  - eapply wp_conseq; [apply IH; specialize (Hc eq_refl); lia|].
    intros r s2 [Hr2 [Hw2 [evs2 [Hn2 F2]]]].
    split; [exact Hr2|].
    split; [exact (no_worker_trans Hw Hw2)|].
    exists (evs ++ evs2). split; [exact (new_events_trans Hn Hn2)|].
    rewrite forallb_app, F, F2. reflexivity.
  - apply wp_ret. split; [discriminate|]. split; [exact Hw|].
    exists evs. auto.
  - split; [discriminate|]. split; [exact Hw|]. exists evs. auto.
Qed.

(** [_stream_loop] from any state: it ends, publishes no [init] event,
    and starts no worker. *)
Lemma steady_stream_loop : steady stream_event (on_world no_worker) _stream_loop.
Proof.
  intro s.
  change (wp _stream_loop s (fun r s' =>
    r <> OutOfFuel /\
    no_worker (snd s) (snd s') /\
    exists evs, new_events s s' evs /\ forallb stream_event evs = true)).
  destruct s as [[] []].
  match goal with |- wp _ _ ?Q => set (post := Q) end.
  unfold _stream_loop.
  destruct _video_socket0 as [sock|].
  2: { repeat wp_step. subst post. cbv beta. split; [discriminate|].
       split; [exact (fun H => H)|].
       exists []. split; [apply new_events_refl | reflexivity]. }
  repeat lazymatch goal with
         | |- wp (stream_while _) _ _ => fail
         | |- wp (bind (stream_while _) _) _ _ => apply wp_bind
         | _ => wp_step
         end.
  eapply wp_conseq; [apply stream_while_spec; proj_simpl; lia|].
  intros r [c2 w2] [Hr [Hw [evs [Hn F]]]].
  unfold new_events, no_worker in Hn, Hw. proj_simpl_in Hn. proj_simpl_in Hw.
  destruct c2, w2. proj_simpl_in Hn. proj_simpl_in Hw.
  destruct r as [[]|e|]; [| |congruence].
  - repeat wp_step.
    subst post. cbv beta. unfold new_events, no_worker. proj_simpl.
    split; [discriminate|]. split; [exact Hw|].
    eexists. split; [rewrite Hn, <- !app_assoc; reflexivity|].
    simpl. rewrite !forallb_app, F. reflexivity.
  - subst post. cbv beta. unfold new_events, no_worker. proj_simpl.
    split; [discriminate|]. split; [exact Hw|].
    eexists. split; [rewrite Hn, <- !app_assoc; reflexivity|].
    simpl. rewrite F. reflexivity.
Qed.

(** ** The handshake *)

Lemma length_app_lt (data chunk : bytes) (n fuel : nat) :
  chunk <> [] -> n - List.length data <= S fuel ->
  n - List.length (data ++ chunk) <= fuel.
Proof.
  intros Hc Hf. rewrite length_app.
  destruct chunk; [congruence|]. simpl. lia.
Qed.

(** [_recv_all] ends within its fuel, and touches nothing but the queue of
    the video socket. *)
Lemma recv_all_loop_spec (fuel n : nat) (data : bytes) (s : State) :
  n - List.length data <= fuel ->
  exists r v,
    _recv_all_loop fuel n data s = (r, (fst s, with_video_in v (snd s))) /\
    r <> OutOfFuel.
Proof.
  revert data s. induction fuel as [|fuel IH]; intros data [c w] Hf.
  - simpl. destruct (List.length data <? n) eqn:E.
    + apply Nat.ltb_lt in E. lia.
    + exists (Ok data), (video_in w). destruct w.
      split; [reflexivity | discriminate].
  - simpl. destruct (List.length data <? n) eqn:E.
    2: { exists (Ok data), (video_in w). destruct w.
         split; [reflexivity | discriminate]. }
    unfold bind at 1. unfold sock_recv. cbn [fst snd].
    destruct (video_closed w).
    { exists (Raise OtherOSError), (video_in w). destruct w.
      split; [reflexivity | discriminate]. }
    destruct (drop_timeouts (video_in w)) as [|[b| |] rest].
    + exists (Raise ConnectionAbortedError), []. split; [reflexivity|].
      discriminate.
    + destruct (firstn (n - List.length data) b) as [|x chunk] eqn:Ec.
      { exists (Raise ConnectionAbortedError),
          (requeue (skipn (n - List.length data) b) rest).
        split; [reflexivity | discriminate]. }
      destruct (IH (data ++ x :: chunk)
                  (c, with_video_in
                        (requeue (skipn (n - List.length data) b) rest) w))
        as [r [v [Er Hr]]].
      { apply length_app_lt; [discriminate | exact Hf]. }
      exists r, v. split; [|exact Hr].
      rewrite Er. destruct w. reflexivity.
    + exists (Raise SocketTimeout), rest. split; [reflexivity | discriminate].
    + exists (Raise OtherOSError), rest. split; [reflexivity | discriminate].
Qed.

Lemma recv_all_spec (n : nat) (s : State) :
  exists r v,
    _recv_all n s = (r, (fst s, with_video_in v (snd s))) /\ r <> OutOfFuel.
Proof. apply recv_all_loop_spec. simpl. lia. Qed.

Lemma for_listeners_returns (ev : ListenEvent) (arg : option Frame)
  (ls : list ListenerId) (s : State) :
  wp (for_listeners ev arg ls) s (fun r s' =>
    r = Ok tt /\
    exists evs, new_events s s' evs /\ forallb listener_event evs = true).
Proof.
  pose proof (for_listeners_spec ev arg ls s) as H1.
  pose proof (steady_for_listeners ev arg ls s) as H2.
  unfold wp in *. destruct H1 as [H1 _]. destruct H2 as [_ [_ H2]].
  split; assumption.
Qed.

(** Publishing [init] returns, and what the subscribers do in response
    stays within what the stream loop may do. *)
Lemma wp_publish_init (s : State) (Q : Res unit -> State -> Prop) :
  (forall s' post,
      new_events s s' (Publish INIT None :: post) ->
      forallb stream_event post = true ->
      Q (Ok tt) s') ->
  wp (_send_to_listeners INIT None) s Q.
Proof.
  intro H. destruct s as [c w].
  unfold _send_to_listeners. do 4 wp_step.
  eapply wp_conseq; [apply for_listeners_returns|].
  intros r s' [-> [evs [Hn F]]].
  apply H with (post := evs).
  - unfold new_events in *. proj_simpl_in Hn. proj_simpl.
    rewrite Hn, <- app_assoc. reflexivity.
  - exact (forallb_impl evs listener_event_stream_event F).
Qed.

Ltac wp_connect_step :=
  lazymatch goal with
  | |- wp (accept ?c) ?s ?Q =>
    let m' := eval cbv beta delta [accept] in (accept c) in
    change (wp m' s Q)
  | |- wp (device_reverse ?a ?b) ?s ?Q =>
    let m' := eval cbv beta delta [device_reverse] in (device_reverse a b) in
    change (wp m' s Q)
  | |- wp (_recv_all ?n) ?s ?Q =>
    let r := fresh "r" in
    let v := fresh "v" in
    let E := fresh "E" in
    let Hr := fresh "Hr" in
    destruct (recv_all_spec n s) as [r [v [E Hr]]];
    apply (wp_eq _ _ E); clear E;
    destruct r as [? | ? |]; [| | congruence]; clear Hr; cbv beta iota
  | _ => wp_launch_step
  end.

(** A run that published nothing and wrote no unsupported codec. *)
Ltac withheld :=
  right; split; [discriminate|];
  split; [split; [reflexivity | first [left; reflexivity | right; simpl;
                                         rewrite ?Bool.andb_true_r; assumption
                                      | right; reflexivity]]|];
  split; [split; reflexivity | reflexivity].

Lemma connect_body_outcome (s : State) :
  wp connect_body s (handshake_outcome s).
Proof.
  destruct s as [[] []].
  match goal with |- wp _ _ ?Q => set (post := Q) end.
  unfold connect_body.
  repeat lazymatch goal with
         | |- wp (_send_to_listeners _ _) _ _ => fail
         | |- wp (bind (_send_to_listeners _ _) _) _ _ => fail
         | _ => wp_connect_step
         end.
  all: subst post; unfold handshake_outcome, new_events; proj_simpl.
  all: try (split; [discriminate|];
            eexists; split; [rewrite <- !app_assoc; reflexivity|];
            withheld).
  all: apply wp_bind; apply wp_publish_init; intros s' post Hn F;
    apply wp_ret; unfold new_events in Hn; proj_simpl_in Hn;
    (split; [discriminate|]);
    match type of Hn with
    | _ = ?tb ++ _ :: _ =>
      assert (Hpre : exists pre,
                 tb = trace0 ++ pre /\
                 forallb handshake_event pre = true /\
                 codec_writes pre = [s0] /\
                 exists w h, resolution_writes pre = [Some (w, h)] /\
                             (w, h) <> (0, 0)%N)
        by (eexists; split; [rewrite <- !app_assoc; reflexivity|];
            split; [reflexivity|]; split; [reflexivity|];
            eexists; eexists; split; [reflexivity | discriminate])
    end;
    destruct Hpre as [pre [Ht [Fp [Hc [w [h [Hres Hnz]]]]]]];
    exists (pre ++ Publish INIT None :: post);
    (split; [rewrite Hn, Ht, <- app_assoc; reflexivity|]);
    left; split; [reflexivity|];
    exists pre, post, s0, w, h; repeat split; assumption.
Qed.

Lemma launch_event_quiet (e : Event) : launch_event e = true -> quiet e = true.
Proof. destruct e as [|[]|[]|[]|]; cbv; congruence. Qed.

Lemma quiet_handshake_event (e : Event) :
  quiet e = true -> handshake_event e = true.
Proof. destruct e as [|[]|[]|[]|]; cbv; congruence. Qed.

Lemma quiet_stream_event (e : Event) : quiet e = true -> stream_event e = true.
Proof. destruct e as [|[]|[]|[]|]; cbv; congruence. Qed.

Lemma codec_writes_app (a b : list Event) :
  codec_writes (a ++ b) = codec_writes a ++ codec_writes b.
Proof.
  induction a as [|e a IH]; [reflexivity|].
  destruct e as [| |[]| |]; simpl; rewrite ?IH; reflexivity.
Qed.

Lemma resolution_writes_app (a b : list Event) :
  resolution_writes (a ++ b) = resolution_writes a ++ resolution_writes b.
Proof.
  induction a as [|e a IH]; [reflexivity|].
  destruct e as [| |[]| |]; simpl; rewrite ?IH; reflexivity.
Qed.

Lemma codec_writes_quiet (evs : list Event) :
  forallb quiet evs = true -> codec_writes evs = [].
Proof.
  induction evs as [|e evs IH]; [reflexivity|].
  destruct e as [|[]|[]|[]|]; simpl; intro H; try discriminate H; auto.
Qed.

Lemma codec_writes_stream (evs : list Event) :
  forallb stream_event evs = true -> codec_writes evs = [].
Proof.
  induction evs as [|e evs IH]; [reflexivity|].
  destruct e as [|[]|[]|[]|]; simpl; intro H; try discriminate H; auto.
Qed.

Lemma resolution_writes_launch (evs : list Event) :
  forallb launch_event evs = true -> resolution_writes evs = [].
Proof.
  induction evs as [|e evs IH]; [reflexivity|].
  destruct e as [|[]|[]|[]|]; simpl; intro H; try discriminate H; auto.
Qed.

Lemma init_published_after (pre evs : list Event) :
  forallb launch_event pre = true ->
  init_published evs -> init_published (pre ++ evs).
Proof.
  intros Fl [p [post [id [w [h [-> [Fp [Hc [Hs [Hr [Hz F]]]]]]]]]]].
  assert (Fq : forallb quiet pre = true)
    by exact (forallb_impl pre launch_event_quiet Fl).
  exists (pre ++ p), post, id, w, h.
  split; [apply app_assoc|].
  split.
  { rewrite forallb_app, Fp, (forallb_impl pre quiet_handshake_event Fq).
    reflexivity. }
  split; [rewrite codec_writes_app, (codec_writes_quiet pre Fq); exact Hc|].
  split; [exact Hs|].
  split; [|split; assumption].
  rewrite resolution_writes_app, (resolution_writes_launch pre Fl). exact Hr.
Qed.

Arguments init_published_after {pre evs} _ _.

Lemma init_published_then (evs post : list Event) :
  forallb stream_event post = true ->
  init_published evs -> init_published (evs ++ post).
Proof.
  intros Fs [p [post0 [id [w [h [-> [Fp [Hc [Hs [Hr [Hz F]]]]]]]]]]].
  exists p, (post0 ++ post), id, w, h.
  split; [rewrite <- app_assoc; reflexivity|].
  repeat (split; [assumption|]).
  rewrite forallb_app, F, Fs. reflexivity.
Qed.

Arguments init_published_then {evs post} _ _.

Lemma init_withheld_after (pre evs : list Event) (failed : bool) :
  forallb quiet pre = true ->
  init_withheld failed evs -> init_withheld failed (pre ++ evs).
Proof.
  intros Fq [Fh Hc]. split.
  - rewrite forallb_app, Fh, (forallb_impl pre quiet_handshake_event Fq).
    reflexivity.
  - rewrite codec_writes_app, (codec_writes_quiet pre Fq). exact Hc.
Qed.

Arguments init_withheld_after {pre evs failed} _ _.

Lemma init_withheld_then (evs post : list Event) (failed failed' : bool) :
  forallb quiet post = true ->
  (failed = true -> failed' = true) ->
  init_withheld failed evs -> init_withheld failed' (evs ++ post).
Proof.
  intros Fq Hf [Fh Hc]. split.
  - rewrite forallb_app, Fh, (forallb_impl post quiet_handshake_event Fq).
    reflexivity.
  - rewrite codec_writes_app, (codec_writes_quiet post Fq), app_nil_r.
    destruct Hc as [Hc|Hc]; [left; auto | right; exact Hc].
Qed.

Arguments init_withheld_then {evs post failed failed'} _ _ _.

Lemma outcome_after_launch (s s1 s' : State) (r : Res bool)
  (pre : list Event) :
  new_events s s1 pre -> forallb launch_event pre = true ->
  same_threads (snd s) (snd s1) ->
  is_running (fst s1) = is_running (fst s) ->
  handshake_outcome s1 r s' -> handshake_outcome s r s'.
Proof.
  intros Hn Fl [Hw Ha] Hrun [Hr [evs [Hn' H]]].
  split; [exact Hr|]. exists (pre ++ evs).
  split; [exact (new_events_trans Hn Hn')|].
  destruct H as [[-> Hi] | [Hnt [Hi [[Hw' Ha'] Hrun']]]].
  - left. split; [reflexivity|]. exact (init_published_after Fl Hi).
  - right. split; [exact Hnt|].
    split; [exact (init_withheld_after
                     (forallb_impl pre launch_event_quiet Fl) Hi)|].
    split; [split; congruence | congruence].
Qed.

Lemma outcome_then_quiet (s s1 s' : State) (r r' : Res bool)
  (post : list Event) :
  handshake_outcome s r s1 ->
  new_events s1 s' post -> forallb quiet post = true ->
  same_threads (snd s1) (snd s') ->
  is_running (fst s') = is_running (fst s1) ->
  r' = r \/ (r <> Ok true /\ r' = Ok false) ->
  handshake_outcome s r' s'.
Proof.
  intros [Hr [evs [Hn H]]] Hn' Fq [Hw Ha] Hrun Hres.
  split; [destruct Hres as [-> | [_ ->]]; [exact Hr | discriminate]|].
  exists (evs ++ post).
  split; [exact (new_events_trans Hn Hn')|].
  destruct H as [[-> Hi] | [Hnt [Hi [[Hw' Ha'] Hrun']]]].
  - left. split; [destruct Hres as [-> | [C _]]; [reflexivity | congruence]|].
    exact (init_published_then (forallb_impl post quiet_stream_event Fq) Hi).
  - right.
    split; [destruct Hres as [-> | [_ ->]]; [exact Hnt | discriminate]|].
    split.
    { apply (init_withheld_then (failed := reports_failure r) Fq); [|exact Hi].
      destruct Hres as [-> | [_ ->]]; [auto | reflexivity]. }
    split; [split; congruence | congruence].
Qed.

Lemma wp_emit_any (e : Event) (s : State) (Q : Res unit -> State -> Prop) :
  Q (Ok tt) (fst s, with_trace (trace (snd s) ++ [e]) (snd s)) ->
  wp (emit e) s Q.
Proof. exact (fun H => H). Qed.

Lemma emitted_quiet (e : Event) (s : State) :
  quiet e = true ->
  let s' := (fst s, with_trace (trace (snd s) ++ [e]) (snd s)) in
  new_events s s' [e] /\ forallb quiet [e] = true /\
  same_threads (snd s) (snd s') /\ is_running (fst s') = is_running (fst s).
Proof.
  intro H. simpl. rewrite H.
  repeat split.
Qed.

Lemma outcome_then_emit (s s1 : State) (r r' : Res bool) (e : Event) :
  handshake_outcome s r s1 -> quiet e = true ->
  r' = r \/ (r <> Ok true /\ r' = Ok false) ->
  handshake_outcome s r'
    (fst s1, with_trace (trace (snd s1) ++ [e]) (snd s1)).
Proof.
  intros H Hq Hres.
  destruct (@emitted_quiet e s1 Hq) as [Hn [F [Ht Hrun]]].
  exact (outcome_then_quiet H Hn F Ht Hrun Hres).
Qed.

Arguments outcome_then_emit {s s1 r r' e} _ _ _.

(** The handshake as [_connect_sockets] runs it, tunnel and server
    included. *)
Lemma connect_sockets_outcome (s : State) :
  wp _connect_sockets s (handshake_outcome s).
Proof.
  destruct s as [[] []].
  match goal with |- wp _ _ ?Q => set (post := Q) end.
  unfold _connect_sockets.
  repeat lazymatch goal with
         | |- wp (try_finally _ _) _ _ => fail
         | _ => wp_connect_step
         end.
  all: try (subst post; unfold handshake_outcome, new_events; proj_simpl;
            split; [discriminate|];
            eexists; split; [rewrite <- !app_assoc; reflexivity|];
            withheld).
  apply wp_try_finally. apply wp_try_except.
  eapply wp_conseq; [apply connect_body_outcome|].
  intros r s1 H.
  match type of H with
  | handshake_outcome ?sb _ _ =>
    match (eval unfold post in post) with
    | handshake_outcome ?s0 =>
      assert (H0 : handshake_outcome s0 r s1)
        by (eapply (@outcome_after_launch s0 sb); [| | | |exact H];
            [ unfold new_events; proj_simpl; rewrite <- !app_assoc;
              reflexivity
            | reflexivity | split; reflexivity | reflexivity ])
    end
  end.
  clear H. subst post.
  destruct r as [b|e|]; [| |destruct H0 as [C _]; congruence].
  - apply wp_emit_any.
    apply (outcome_then_emit H0); [reflexivity | left; reflexivity].
  - destruct e; cbn [connect_handlers is_OSError]; cbv beta iota.
    all: first
           [ apply wp_bind; apply wp_emit_any; apply wp_ret; cbv beta iota;
             apply wp_emit_any;
             apply (@outcome_then_emit _ _ (Ok false));
             [ apply (outcome_then_emit H0);
               [reflexivity | right; split; [discriminate | reflexivity]]
             | reflexivity | left; reflexivity ]
           | apply wp_emit_any;
             apply (outcome_then_emit H0); [reflexivity | left; reflexivity] ].
Qed.

Ltac wp_push_step :=
  lazymatch goal with
  | |- wp sync_stat ?s ?Q =>
    let m' := eval cbv beta delta [sync_stat] in sync_stat in
    change (wp m' s Q)
  | |- wp path_stat ?s ?Q =>
    let m' := eval cbv beta delta [path_stat] in path_stat in
    change (wp m' s Q)
  | |- wp sync_push ?s ?Q =>
    let m' := eval cbv beta delta [sync_push] in sync_push in
    change (wp m' s Q)
  | |- match match ?e with _ => _ end with Some _ => _ | None => _ end =>
    destruct e; cbv beta iota
  | _ => wp_step
  end.

(** [_push_server] only talks to the device and writes log records. *)
Lemma push_server_spec (s : State) :
  wp _push_server s (fun r s' =>
    r <> OutOfFuel /\
    is_running (fst s') = is_running (fst s) /\
    same_threads (snd s) (snd s') /\
    exists evs, new_events s s' evs /\ forallb launch_event evs = true).
Proof.
  destruct s as [[] []].
  match goal with |- wp _ _ ?Q => set (post := Q) end.
  unfold _push_server.
  repeat wp_push_step.
  all: subst post; cbv beta; unfold new_events, same_threads; proj_simpl.
  all: split; [discriminate|]; split; [reflexivity|];
    split; [split; reflexivity|];
    eexists; split; [rewrite <- !app_assoc; reflexivity | reflexivity].
Qed.

Lemma wp_assign_any (a : AttrWrite) (s : State)
  (Q : Res unit -> State -> Prop) :
  Q (Ok tt)
    (write_attr a (fst s), with_trace (trace (snd s) ++ [SetAttr a]) (snd s)) ->
  wp (assign a) s Q.
Proof. exact (fun H => H). Qed.

Lemma stop_event_handshake_event (e : Event) :
  stop_event e = true -> handshake_event e = true.
Proof. intro H. apply quiet_handshake_event, stop_event_quiet, H. Qed.

Lemma init_withheld_supported (evs : list Event) (failed : bool) :
  init_withheld failed evs -> failed = false ->
  forallb supported (codec_writes evs) = true.
Proof. intros [_ [H|H]] E; [congruence | exact H]. Qed.

Arguments init_withheld_supported {evs failed} _ _.

(** [start] from any state. *)
Lemma start_spec (threaded : bool) (s : State) :
  wp (start threaded) s (start_outcome s).
Proof.
  unfold start. apply wp_bind.
  apply (@wp_getc _ is_running s _ (is_running (fst s)) eq_refl).
  destruct (is_running (fst s)) eqn:ER.
  { apply wp_emit_any. split; [discriminate|].
    exists [Log LWarning MsgAlreadyRunning]. split; [reflexivity|].
    right. split; [reflexivity|]. split; [exact (fun H => H)|].
    left. reflexivity. }
  apply wp_bind.
  eapply wp_conseq; [apply push_server_spec|].
  intros r1 s1 [Hr1 [Hrun1 [Ht1 [evs1 [Hn1 F1]]]]].
  assert (Fq1 : forallb quiet evs1 = true)
    by exact (forallb_impl evs1 launch_event_quiet F1).
  assert (Fh1 : forallb handshake_event evs1 = true)
    by exact (forallb_impl evs1 quiet_handshake_event Fq1).
  destruct r1 as [[]|e|]; [| |congruence].
  2: { split; [discriminate|]. exists evs1. split; [exact Hn1|].
       right. split; [exact Fh1|].
       split; [destruct Ht1 as [_ Ha]; unfold no_worker; congruence|].
       left. rewrite (codec_writes_quiet evs1 Fq1). reflexivity. }
  apply wp_bind.
  eapply wp_conseq; [apply connect_sockets_outcome|].
  intros r2 s2 H2.
  pose proof (outcome_after_launch Hn1 F1 Ht1 Hrun1 H2) as H. clear H2.
  destruct H as [Hr2 [evs [Hn H]]].
  destruct H as [[-> Hi] | [Hnt [Hi [[Hw Ha] Hrun]]]].
  - (* the handshake succeeded *)
    cbn [negb]. cbv iota. apply wp_bind. apply wp_assign_any.
    destruct threaded.
    + apply wp_bind. apply (@wp_modc _ _ _ _ eq_refl).
      unfold thread_start. apply wp_bind. apply wp_emit_any.
      apply (@wp_modw _ _ _ _ eq_refl).
      split; [discriminate|].
      exists (evs ++ [SetAttr (WIsRunning true); Call CThreadStart]).
      split.
      { unfold new_events in *. cbn. rewrite Hn, <- !app_assoc.
        reflexivity. }
      left. apply init_published_then; [reflexivity | exact Hi].
    + match goal with |- wp _ ?s3 _ =>
        destruct (steady_stream_loop s3) as [Hr3 [_ [evs3 [Hn3 F3]]]];
        assert (Hn23 : new_events s2 s3 [SetAttr (WIsRunning true)])
          by reflexivity
      end.
      split; [exact Hr3|].
      exists ((evs ++ [SetAttr (WIsRunning true)]) ++ evs3).
      split; [exact (new_events_trans (new_events_trans Hn Hn23) Hn3)|].
      left. apply init_published_then; [exact F3|].
      apply init_published_then; [reflexivity | exact Hi].
  - destruct r2 as [[]|e|]; [congruence | | | congruence].
    + (* the handshake failed: teardown *)
      cbn [negb]. cbv iota.
      pose proof (stop_summary s2) as Hs. unfold wp in Hs |- *.
      destruct Hs as [Hres [_ [_ [Halive [evs2 [Hn2 F2]]]]]].
      split; [destruct Hres as [-> | ->]; discriminate|].
      exists (evs ++ evs2). split; [exact (new_events_trans Hn Hn2)|].
      right. split.
      { destruct Hi as [Fh _].
        rewrite forallb_app, Fh,
          (forallb_impl evs2 stop_event_handshake_event F2).
        reflexivity. }
      split; [unfold no_worker; intro E; apply Halive; congruence|].
      right. exists s2, evs. split; [exact Hn|]. split; [exact Hw|].
      symmetry. apply surjective_pairing.
    + split; [discriminate|]. exists evs. split; [exact Hn|].
      right. split; [exact (proj1 Hi)|].
      split; [unfold no_worker; congruence|].
      left. exact (init_withheld_supported Hi eq_refl).
Qed.

Lemma codec_writes_In (c : str) (evs : list Event) :
  In (SetAttr (WVideoCodec c)) evs -> In c (codec_writes evs).
Proof.
  induction evs as [|e evs IH]; [contradiction|].
  intros [-> | H]; [left; reflexivity|].
  destruct e as [| |[]| |]; simpl; auto.
Qed.

Lemma handshake_event_not_publish (e : Event) :
  handshake_event e = true -> not_event is_publish e = true.
Proof. destruct e as [|[]|[]|[]|]; cbv; congruence. Qed.

(** A handshake that succeeded read one codec identifier, a supported
    one. *)
Lemma init_published_codec (evs : list Event) (c : str) :
  init_published evs -> In c (codec_writes evs) -> supported c = true.
Proof.
  intros [pre [post [id [w [h [-> [_ [Hc [Hs [_ [_ F]]]]]]]]]]] Hin.
  rewrite codec_writes_app, Hc in Hin. simpl in Hin.
  rewrite (codec_writes_stream post F) in Hin.
  destruct Hin as [<- | []]. exact Hs.
Qed.

Arguments init_published_codec {evs c} _ _.

(** C5.  Whenever [start] reads, during its handshake, a codec identifier
    that is not ["h264"] up to case, it returns normally, with the running
    flag false and without having published any event, and the end of its
    run is a complete run of [stop], with every teardown step, from the
    state the handshake left.  ([start] is called by a thread other than the
    stream worker.) *)
Theorem unsupported_codec_teardown (threaded : bool) (s : State) (c : str)
  (evs : list Event) :
  in_worker (snd s) = false ->
  new_events s (snd (start threaded s)) evs ->
  In (SetAttr (WVideoCodec c)) evs ->
  supported c = false ->
  fst (start threaded s) = Ok tt /\
  is_running (fst (snd (start threaded s))) = false /\
  forallb (not_event is_publish) evs = true /\
  exists s1 pre post,
    new_events s s1 pre /\
    evs = pre ++ post /\
    start threaded s = stop s1 /\
    filter is_teardown_step post =
    teardown_steps (fst s1) (next_shell_result (snd s1)).
Proof.
  intros Hw Hn Hin Hc.
  apply codec_writes_In in Hin.
  pose proof (start_spec threaded s) as H. unfold wp in H.
  destruct H as [_ [evs' [Hn' H]]].
  pose proof (new_events_inj Hn' Hn) as ->. clear Hn'.
  destruct H as [Hi | [Fh [_ [Hs | [s1 [pre [Hpre [Hw1 Hstop]]]]]]]].
  - rewrite (init_published_codec Hi Hin) in Hc. discriminate Hc.
  - rewrite forallb_forall in Hs. rewrite (Hs c Hin) in Hc. discriminate Hc.
  - pose proof (stop_effect s1) as He. unfold wp in He.
    rewrite <- Hstop in He. cbn [fst snd] in He.
    destruct He as [post [Hpost [_ He]]].
    assert (Hj : joins_itself s1 = false).
    { unfold joins_itself. rewrite Hw1, Hw. apply Bool.andb_false_r. }
    rewrite Hj in He. destruct He as [Hr [Hsteps [Hcl _]]].
    split; [exact Hr|].
    split; [rewrite Hcl; reflexivity|].
    split; [exact (forallb_impl evs handshake_event_not_publish Fh)|].
    exists s1, pre, post.
    split; [exact Hpre|].
    split; [exact (new_events_inj Hn (new_events_trans Hpre Hpost))|].
    split; [|exact Hsteps].
    rewrite <- Hstop. apply surjective_pairing.
Qed.

(** ** One session *)

#[local] Hint Resolve steady_stream_loop : steady.

Lemma steady_worker_run : steady stream_event (on_world no_worker) worker_run.
Proof.
  unfold worker_run.
  steady_go no_worker_refl no_worker_trans no_worker_trace.
Qed.

(** One session from a state without a worker: it ends, and either its
    handshake succeeded or nothing was published. *)
Lemma session_spec (threaded : bool) (s : State) :
  thread_alive (snd s) = false ->
  wp (session threaded) s (fun r s' =>
    r <> OutOfFuel /\
    exists evs,
      new_events s s' evs /\
      (init_published evs \/ forallb handshake_event evs = true)).
Proof.
  intro Ha. unfold session. apply wp_bind.
  eapply wp_conseq; [apply start_spec|].
  intros r1 s1 [Hr1 [evs [Hn H]]].
  destruct r1 as [[]|e|]; [| |congruence].
  2: { split; [discriminate|]. exists evs. split; [exact Hn|].
       destruct H as [H | [H _]]; auto. }
  apply wp_bind.
  apply (@wp_getw _ thread_alive s1 _ (thread_alive (snd s1)) eq_refl).
  destruct (thread_alive (snd s1)) eqn:E1; cbn [when].
  - destruct H as [Hi | [_ [Hw _]]]; [|rewrite (Hw Ha) in E1; discriminate E1].
    destruct (steady_worker_run s1) as [Hr [_ [evs' [Hn' F]]]].
    split; [exact Hr|]. exists (evs ++ evs').
    split; [exact (new_events_trans Hn Hn')|].
    left. exact (init_published_then F Hi).
  - apply wp_ret. split; [discriminate|]. exists evs. split; [exact Hn|].
    destruct H as [H | [H _]]; auto.
Qed.

Section Splits.

Variable P : Event -> bool.

(** The only element of a list that satisfies [P] splits the list in one
    way. *)
Lemma split_unique (pre0 post0 pre post : list Event) (x y : Event) :
  forallb (not_event P) pre0 = true ->
  forallb (not_event P) post0 = true ->
  P y = true ->
  pre0 ++ x :: post0 = pre ++ y :: post ->
  pre = pre0.
Proof.
  intros F0 F1 Hy. revert pre.
  induction pre0 as [|a pre0 IH]; intros [|e pre] H; simpl in *.
  - reflexivity.
  - injection H as _ H. subst post0.
    rewrite forallb_app in F1. simpl in F1. unfold not_event at 2 in F1.
    rewrite Hy in F1. rewrite Bool.andb_false_r in F1. discriminate F1.
  - injection H as -> _. unfold not_event at 1 in F0. rewrite Hy in F0.
    discriminate F0.
  - injection H as -> H. apply andb_prop in F0 as [_ F0].
    rewrite (IH F0 pre H). reflexivity.
Qed.

(** An element that satisfies [P], in a list whose elements up to [x]
    included do not, comes after [x]. *)
Lemma split_after (pre0 post0 pre post : list Event) (x y : Event) :
  forallb (not_event P) pre0 = true ->
  P x = false ->
  P y = true ->
  pre0 ++ x :: post0 = pre ++ y :: post ->
  exists mid, pre = pre0 ++ x :: mid.
Proof.
  intros F0 Hx Hy. revert pre.
  induction pre0 as [|a pre0 IH]; intros [|e pre] H; simpl in *.
  - injection H as -> _. congruence.
  - injection H as -> _. exists pre. reflexivity.
  - injection H as -> _. unfold not_event at 1 in F0. rewrite Hy in F0.
    discriminate F0.
  - injection H as -> H. apply andb_prop in F0 as [_ F0].
    destruct (IH F0 pre H) as [mid ->]. exists mid. reflexivity.
Qed.

Lemma filter_none (l : list Event) :
  forallb (not_event P) l = true -> filter P l = [].
Proof.
  induction l as [|e l IH]; [reflexivity|]. simpl.
  unfold not_event at 1. destruct (P e); simpl; [discriminate | exact IH].
Qed.

End Splits.

Lemma handshake_event_not_init (e : Event) :
  handshake_event e = true -> not_event (is_publish_of INIT) e = true.
Proof. destruct e as [|[]|[]|[]|]; cbv; congruence. Qed.

Lemma handshake_event_not_frame (e : Event) :
  handshake_event e = true -> not_event (is_publish_of FRAME) e = true.
Proof. destruct e as [|[]|[]|[]|]; cbv; congruence. Qed.

Lemma stream_event_not_init (e : Event) :
  stream_event e = true -> not_event (is_publish_of INIT) e = true.
Proof. destruct e as [|[]|[]|[]|]; cbv; congruence. Qed.

(** C6.  In the run of one session ([start], then the stream worker if one
    was started) from a client without a live worker: the run ends; the
    [init] event is published at most once; where it is published, the
    handshake before it has read one codec identifier, a supported one, and
    one resolution, other than (0, 0); and every [frame] event comes after
    the [init] event. *)
Theorem init_once_before_frames (threaded : bool) (s : State)
  (evs : list Event) :
  thread_alive (snd s) = false ->
  new_events s (snd (session threaded s)) evs ->
  fst (session threaded s) <> OutOfFuel /\
  List.length (filter (is_publish_of INIT) evs) <= 1 /\
  (forall pre arg post,
      evs = pre ++ Publish INIT arg :: post ->
      exists id w h,
        codec_writes pre = [id] /\ supported id = true /\
        resolution_writes pre = [Some (w, h)] /\ (w, h) <> (0, 0)%N) /\
  (forall pre arg post,
      evs = pre ++ Publish FRAME arg :: post ->
      exists before between, pre = before ++ Publish INIT None :: between).
Proof.
  intros Ha Hn.
  pose proof (session_spec threaded s Ha) as H. unfold wp in H.
  destruct H as [Hr [evs' [Hn' H]]].
  pose proof (new_events_inj Hn' Hn) as ->. clear Hn'.
  split; [exact Hr|].
  destruct H as [[pre0 [post0 [id [w [h H]]]]] | Fh].
  - destruct H as [-> [Fp [Hc [Hs [Hres [Hz F]]]]]].
    assert (Fp' : forallb (not_event (is_publish_of INIT)) pre0 = true)
      by exact (forallb_impl pre0 handshake_event_not_init Fp).
    assert (F' : forallb (not_event (is_publish_of INIT)) post0 = true)
      by exact (forallb_impl post0 stream_event_not_init F).
    split; [|split].
    + rewrite filter_app. simpl.
      rewrite (@filter_none (is_publish_of INIT) pre0 Fp'),
        (@filter_none (is_publish_of INIT) post0 F').
      simpl. lia.
    + intros pre arg post E.
      rewrite (@split_unique (is_publish_of INIT) pre0 post0 pre post
                 (Publish INIT None) (Publish INIT arg) Fp' F' eq_refl E).
      exists id, w, h. auto.
    + intros pre arg post E.
      exists pre0.
      apply (@split_after (is_publish_of FRAME) pre0 post0 pre post
               (Publish INIT None) (Publish FRAME arg)
               (forallb_impl pre0 handshake_event_not_frame Fp)
               eq_refl eq_refl E).
  - assert (Fi : forallb (not_event (is_publish_of INIT)) evs = true)
      by exact (forallb_impl evs handshake_event_not_init Fh).
    assert (Ff : forallb (not_event (is_publish_of FRAME)) evs = true)
      by exact (forallb_impl evs handshake_event_not_frame Fh).
    split; [rewrite (@filter_none (is_publish_of INIT) evs Fi); simpl; lia|].
    split; intros pre arg post E; subst evs.
    + rewrite forallb_app in Fi. simpl in Fi.
      rewrite Bool.andb_false_r in Fi. discriminate Fi.
    + rewrite forallb_app in Ff. simpl in Ff.
      rewrite Bool.andb_false_r in Ff. discriminate Ff.
Qed.

(** ** Fields that do not decode *)

Lemma drop_timeouts_bytes (l : list SockEvent) :
  script_bytes (drop_timeouts l) = script_bytes l.
Proof. induction l as [|[b| |] l IH]; simpl; auto. Qed.

Lemma drop_timeouts_chunks (l : list SockEvent) :
  Forall chunk_event l -> Forall chunk_event (drop_timeouts l).
Proof.
  induction l as [|[b| |] l IH]; simpl; auto.
  intro H. apply IH. inversion H; assumption.
Qed.

(** A blocking receive, when bytes are still to come, returns the first of
    them. *)
Lemma drop_timeouts_head (l : list SockEvent) :
  Forall chunk_event l -> script_bytes l <> [] ->
  exists b rest, drop_timeouts l = SockBytes b :: rest /\ b <> [].
Proof.
  induction l as [|[b| |] l IH]; simpl; intros Hc Hb.
  - congruence.
  - exists b, l. inversion Hc; subst. auto.
  - apply IH; [inversion Hc; assumption | exact Hb].
  - inversion Hc as [|x y Hx]; subst. elim Hx.
Qed.

Lemma firstn_skipn_step (k : nat) (b R : bytes) :
  firstn k (b ++ R) =
  firstn k b ++ firstn (k - List.length (firstn k b)) (skipn k b ++ R) /\
  skipn k (b ++ R) =
  skipn (k - List.length (firstn k b)) (skipn k b ++ R).
Proof.
  destruct (Nat.le_gt_cases k (List.length b)) as [H|H].
  - rewrite firstn_app, skipn_app.
    replace (k - List.length b) with 0 by lia.
    rewrite length_firstn, Nat.min_l by exact H.
    rewrite Nat.sub_diag. simpl. rewrite app_nil_r. auto.
  - rewrite firstn_app, skipn_app.
    rewrite (firstn_all2 b), (skipn_all2 b) by lia. simpl. auto.
Qed.

(** When the bytes of a field do arrive, in whatever pieces, [_recv_all]
    returns exactly them and leaves the bytes that follow. *)
Lemma recv_all_loop_exact (fuel n : nat) (data : bytes) (s : State) :
  video_closed (snd s) = false ->
  Forall chunk_event (video_in (snd s)) ->
  List.length data <= n ->
  n <= List.length data + List.length (script_bytes (video_in (snd s))) ->
  n - List.length data <= fuel ->
  exists v,
    _recv_all_loop fuel n data s =
    (Ok (data ++ firstn (n - List.length data)
                   (script_bytes (video_in (snd s)))),
     (fst s, with_video_in v (snd s))) /\
    Forall chunk_event v /\
    script_bytes v =
    skipn (n - List.length data) (script_bytes (video_in (snd s))).
Proof.
  revert data s. induction fuel as [|fuel IH]; intros data [c w] EC Hc Hd Hn Hf;
    cbn [fst snd] in *.
  - assert (E : List.length data = n) by lia.
    exists (video_in w). simpl.
    rewrite (proj2 (Nat.ltb_ge _ _)) by lia.
    rewrite E, Nat.sub_diag. simpl. rewrite app_nil_r.
    destruct w. auto.
  - simpl. destruct (List.length data <? n) eqn:E.
    2: { apply Nat.ltb_ge in E.
         exists (video_in w). replace (n - List.length data) with 0 by lia.
         simpl. rewrite app_nil_r. destruct w. auto. }
    apply Nat.ltb_lt in E.
    set (k := n - List.length data) in *.
    assert (Hb : script_bytes (video_in w) <> []).
    { intro C. rewrite C in Hn. simpl in Hn. lia. }
    destruct (drop_timeouts_head Hc Hb) as [b [rest [Ed Hne]]].
    pose proof (drop_timeouts_bytes (video_in w)) as Eb.
    pose proof (drop_timeouts_chunks Hc) as Hc'.
    rewrite Ed in Eb, Hc'. simpl in Eb.
    unfold bind at 1. unfold sock_recv. cbn [fst snd]. rewrite EC, Ed.
    assert (Hk : 0 < k) by (subst k; lia).
    pose proof (@firstn_nonempty _ k b Hk Hne) as Hch.
    destruct (firstn k b) as [|x chunk] eqn:Ech; [congruence|].
    rewrite <- Ech in *. clear Hch.
    pose proof (firstn_skipn_step k b (script_bytes rest)) as [Hfs Hss].
    pose proof (length_firstn k b) as Hlf.
    assert (Hlen : List.length b =
                   List.length (firstn k b) + List.length (skipn k b))
      by (rewrite <- length_app, firstn_skipn; reflexivity).
    destruct (IH (data ++ firstn k b)
                (c, with_video_in (requeue (skipn k b) rest) w))
      as [v [Er [Hv Hs]]]; cbn [fst snd].
    + destruct w. exact EC.
    + destruct w. cbn. apply requeue_chunk. inversion Hc'; assumption.
    + rewrite length_app. lia.
    + destruct w. cbn. rewrite requeue_bytes, !length_app.
      rewrite <- Eb, length_app in Hn. lia.
    + rewrite length_app. pose proof (Hlf). destruct (firstn k b);
        [congruence|]. simpl in *. lia.
    + exists v.
      assert (Ek : n - List.length (data ++ firstn k b) =
                   k - List.length (firstn k b))
        by (rewrite length_app; subst k; lia).
      assert (Ev : script_bytes
                     (video_in
                        (with_video_in (requeue (skipn k b) rest) w)) =
                   skipn k b ++ script_bytes rest)
        by (destruct w; cbn; apply requeue_bytes).
      cbn [fst snd] in Er, Hs. rewrite Ek, Ev in Er, Hs.
      split; [|split; [exact Hv|]].
      * rewrite Er, <- Eb, Hfs, <- app_assoc. destruct w. reflexivity.
      * rewrite Hs, <- Eb, Hss. reflexivity.
Qed.

(* ================================================================= *)
(** * Further properties of the client *)

(** ** Receiving a field *)

Lemma drop_timeouts_none (l : list SockEvent) :
  Forall chunk_event l -> script_bytes l = [] -> drop_timeouts l = [].
Proof.
  induction l as [|[b| |] l IH]; simpl; intros Hc Hb.
  - reflexivity.
  - inversion Hc as [|x y Hx]; subst. apply app_eq_nil in Hb as [-> _].
    elim Hx. reflexivity.
  - apply IH; [inversion Hc; assumption | exact Hb].
  - inversion Hc as [|x y Hx]; subst. elim Hx.
Qed.

(** Whatever arrives, a result of [_recv_all] continues the bytes already
    held with exactly the next bytes of the stream. *)
Lemma recv_all_loop_result (fuel n : nat) (data out : bytes) (s : State) :
  fst (_recv_all_loop fuel n data s) = Ok out ->
  List.length data <= n ->
  out = data ++ firstn (n - List.length data)
                  (script_bytes (video_in (snd s))) /\
  List.length out = n /\
  script_bytes (video_in (snd (snd (_recv_all_loop fuel n data s)))) =
  skipn (n - List.length data) (script_bytes (video_in (snd s))).
Proof.
  revert data s. induction fuel as [|fuel IH]; intros data [c w] H Hd;
    cbn [fst snd] in *.
  - simpl in *. destruct (List.length data <? n) eqn:E; [discriminate H|].
    apply Nat.ltb_ge in E. injection H as <-.
    replace (n - List.length data) with 0 by lia.
    simpl. rewrite app_nil_r. repeat split. lia.
  - simpl in *. destruct (List.length data <? n) eqn:E.
    2: { apply Nat.ltb_ge in E. injection H as <-.
         replace (n - List.length data) with 0 by lia.
         simpl. rewrite app_nil_r. repeat split. lia. }
    apply Nat.ltb_lt in E.
    set (k := n - List.length data) in *.
    unfold bind at 1 in H. unfold bind at 1.
    unfold sock_recv in *. cbn [fst snd] in *.
    destruct (video_closed w); [discriminate H|].
    pose proof (drop_timeouts_bytes (video_in w)) as Eb.
    destruct (drop_timeouts (video_in w)) as [|[b| |] rest];
      try discriminate H.
    simpl in Eb.
    destruct (firstn k b) as [|x chunk] eqn:Ech; [discriminate H|].
    rewrite <- Ech in *.
    pose proof (firstn_skipn_step k b (script_bytes rest)) as [Hfs Hss].
    pose proof (length_firstn k b) as Hlf.
    assert (Ek : n - List.length (data ++ firstn k b) =
                 k - List.length (firstn k b))
      by (rewrite length_app; subst k; lia).
    assert (Ev : script_bytes
                   (video_in (with_video_in (requeue (skipn k b) rest) w)) =
                 skipn k b ++ script_bytes rest)
      by (destruct w; cbn; apply requeue_bytes).
    destruct (IH (data ++ firstn k b)
                (c, with_video_in (requeue (skipn k b) rest) w) H)
      as [Ho [Hl Hs]].
    { rewrite length_app. subst k. lia. }
    cbn [fst snd] in Ho, Hs. rewrite Ek, Ev in Ho, Hs.
    split; [rewrite Ho, <- Eb, Hfs, <- app_assoc; reflexivity|].
    split; [exact Hl|].
    rewrite Hs, <- Eb, Hss. reflexivity.
Qed.

(** When the peer closes before the field is complete, [_recv_all] raises
    [ConnectionAbortedError], having taken everything that was sent. *)
Lemma recv_all_loop_short (fuel n : nat) (data : bytes) (s : State) :
  video_closed (snd s) = false ->
  Forall chunk_event (video_in (snd s)) ->
  List.length data + List.length (script_bytes (video_in (snd s))) < n ->
  n - List.length data <= fuel ->
  _recv_all_loop fuel n data s =
  (Raise ConnectionAbortedError, (fst s, with_video_in [] (snd s))).
Proof.
  revert data s. induction fuel as [|fuel IH]; intros data [c w] EC Hc Hn Hf;
    cbn [fst snd] in *; [lia|].
  simpl. rewrite (proj2 (Nat.ltb_lt _ _)) by lia.
  set (k := n - List.length data) in *.
  unfold bind at 1. unfold sock_recv. cbn [fst snd]. rewrite EC.
  pose proof (drop_timeouts_bytes (video_in w)) as Eb.
  pose proof (drop_timeouts_chunks Hc) as Hc'.
  destruct (script_bytes (video_in w)) as [|y ys] eqn:Es.
  - rewrite (drop_timeouts_none Hc Es). reflexivity.
  - destruct (@drop_timeouts_head (video_in w) Hc) as [b [rest [Ed Hne]]];
      [rewrite Es; discriminate|].
    rewrite Ed in *. simpl in Eb.
    assert (Hlen : List.length b + List.length (script_bytes rest) =
                   List.length (y :: ys))
      by (rewrite <- length_app, Eb; reflexivity).
    rewrite (firstn_all2 b), (skipn_all2 b) by (subst k; lia).
    destruct b as [|x b]; [congruence|].
    cbn [requeue].
    rewrite (IH (data ++ x :: b) (c, with_video_in rest w)); cbn [fst snd].
    + destruct w. reflexivity.
    + destruct w. exact EC.
    + destruct w. cbn. inversion Hc'; assumption.
    + destruct w. cbn. rewrite length_app. lia.
    + rewrite length_app. subst k. simpl in *. lia.
Qed.

(** X1.  [_recv_all(sock, n)] on an open socket, when the peer does send
    [n] bytes or more, in any number of arrivals of any sizes: it returns
    exactly the first [n] bytes, leaves the bytes after them to be read,
    and touches neither the client nor the trace. *)
Theorem recv_all_exact (n : nat) (s : State) :
  video_closed (snd s) = false ->
  Forall chunk_event (video_in (snd s)) ->
  n <= List.length (script_bytes (video_in (snd s))) ->
  fst (_recv_all n s) = Ok (firstn n (script_bytes (video_in (snd s)))) /\
  script_bytes (video_in (snd (snd (_recv_all n s)))) =
  skipn n (script_bytes (video_in (snd s))) /\
  fst (snd (_recv_all n s)) = fst s /\
  trace (snd (snd (_recv_all n s))) = trace (snd s).
Proof.
  intros EC Hc Hn.
  destruct (@recv_all_loop_exact n n [] s EC Hc) as [v [E [_ Hs]]];
    simpl; try lia.
  unfold _recv_all. rewrite E. cbn [fst snd].
  rewrite Nat.sub_0_r in Hs |- *.
  split; [reflexivity|]. split; [|split]; destruct s as [c []]; auto.
Qed.

(** X2.  [_recv_all(sock, n)] on an open socket whose peer closes the
    connection after fewer than [n] bytes: it raises
    [ConnectionAbortedError], and the bytes received so far are lost with
    it (nothing is left to read). *)
Theorem recv_all_peer_closed (n : nat) (s : State) :
  video_closed (snd s) = false ->
  Forall chunk_event (video_in (snd s)) ->
  List.length (script_bytes (video_in (snd s))) < n ->
  fst (_recv_all n s) = Raise ConnectionAbortedError /\
  video_in (snd (snd (_recv_all n s))) = [] /\
  fst (snd (_recv_all n s)) = fst s /\
  trace (snd (snd (_recv_all n s))) = trace (snd s).
Proof.
  intros EC Hc Hn. unfold _recv_all.
  rewrite (@recv_all_loop_short n n [] s EC Hc); simpl; try lia.
  destruct s as [c []]. auto.
Qed.

(** X3.  Whatever the socket does (empty arrivals, errors, timeouts), a
    value returned by [_recv_all(sock, n)] has exactly [n] bytes, and they
    are the next [n] bytes of the stream. *)
Theorem recv_all_length (n : nat) (s : State) (out : bytes) :
  fst (_recv_all n s) = Ok out ->
  List.length out = n /\
  out = firstn n (script_bytes (video_in (snd s))) /\
  script_bytes (video_in (snd (snd (_recv_all n s)))) =
  skipn n (script_bytes (video_in (snd s))).
Proof.
  intro H. unfold _recv_all in *.
  destruct (@recv_all_loop_result n n [] out s H) as [Ho [Hl Hs]];
    [simpl; lia|].
  simpl in Ho, Hs. rewrite Nat.sub_0_r in Ho, Hs. auto.
Qed.

(** ** Subscribers *)

Lemma remove_first_absent (x : ListenerId) (l : list ListenerId) :
  ~ In x l -> remove_first x l = l.
Proof.
  induction l as [|y l IH]; [reflexivity|]. simpl. intro H.
  destruct (Nat.eqb_spec y x) as [->|Hne]; [elim H; auto|].
  rewrite IH; auto.
Qed.

Lemma remove_first_split (x : ListenerId) (a b : list ListenerId) :
  ~ In x a -> remove_first x (a ++ x :: b) = a ++ b.
Proof.
  induction a as [|y a IH]; simpl; intro H.
  - rewrite Nat.eqb_refl. reflexivity.
  - destruct (Nat.eqb_spec y x) as [->|Hne]; [elim H; auto|].
    rewrite IH; auto.
Qed.

Lemma ListenEvent_eqb_eq (a b : ListenEvent) :
  ListenEvent_eqb a b = true <-> a = b.
Proof. destruct a, b; simpl; split; congruence. Qed.


(** X5.  [remove_listener] takes out the first registration of the
    subscriber and nothing else; when the subscriber is not registered it
    changes nothing and raises nothing. *)
Theorem remove_listener_first_only (ev : ListenEvent) (l : ListenerId)
  (s : State) :
  let c' := fst (snd (remove_listener ev l s)) in
  fst (remove_listener ev l s) = Ok tt /\
  snd (snd (remove_listener ev l s)) = snd s /\
  (forall e, e <> ev -> listeners c' e = listeners (fst s) e) /\
  (~ In l (listeners (fst s) ev) ->
   listeners c' ev = listeners (fst s) ev) /\
  (forall a b,
      listeners (fst s) ev = a ++ l :: b -> ~ In l a ->
      listeners c' ev = a ++ b).
Proof.
  destruct s as [c w]. cbn zeta.
  split; [reflexivity|]. split; [reflexivity|].
  unfold remove_listener, modc. cbn.
  split.
  { intros e He. destruct (ListenEvent_eqb e ev) eqn:E; [|reflexivity].
    apply ListenEvent_eqb_eq in E. congruence. }
  rewrite (proj2 (ListenEvent_eqb_eq ev ev) eq_refl).
  split.
  - intro H. apply remove_first_absent, H.
  - intros a b -> Ha. apply remove_first_split, Ha.
Qed.

(** X6.  [add_listener] then [remove_listener] of the same subscriber: a
    subscriber that was not registered is gone again and the list is as
    before; one that was registered already stays registered, but its older
    registration is the one removed, so that it is now called last. *)
Theorem add_then_remove_listener (ev : ListenEvent) (l : ListenerId)
  (s : State) :
  let c' := fst (snd (remove_listener ev l (snd (add_listener ev l s)))) in
  (forall e, e <> ev -> listeners c' e = listeners (fst s) e) /\
  (~ In l (listeners (fst s) ev) ->
   listeners c' ev = listeners (fst s) ev) /\
  (forall a b,
      listeners (fst s) ev = a ++ l :: b -> ~ In l a ->
      listeners c' ev = a ++ b ++ [l]).
Proof.
  destruct s as [c w]. cbn zeta.
  unfold remove_listener, add_listener, modc. cbn.
  split.
  { intros e He. destruct (ListenEvent_eqb e ev) eqn:E; [|reflexivity].
    apply ListenEvent_eqb_eq in E. congruence. }
  rewrite (proj2 (ListenEvent_eqb_eq ev ev) eq_refl).
  split.
  - intro H. rewrite remove_first_split by exact H. apply app_nil_r.
  - intros a b -> Ha. rewrite <- app_assoc. simpl.
    rewrite remove_first_split by exact Ha. reflexivity.
Qed.

(** ** Launching the server *)

(** What [_push_server] does, with the state it ends in. *)
Lemma push_server_run (s : State) :
  wp _push_server s (fun r s' =>
    r = (if server_up_to_date (env (snd s)) then Ok tt
         else match push_result (env (snd s)) with
              | None => Ok tt
              | Some _ => Raise IOError
              end) /\
    exists evs,
      s' = (fst s, with_trace (trace (snd s) ++ evs) (snd s)) /\
      forallb launch_event evs = true /\
      existsb is_push_call evs = negb (server_up_to_date (env (snd s)))).
Proof.
  destruct s as [[] []].
  match goal with |- wp _ _ ?Q => set (post := Q) end.
  unfold _push_server.
  repeat wp_push_step.
  all: subst post; cbv beta; unfold server_up_to_date, with_trace;
    proj_simpl; cbn [remote_stat local_stat push_result fst snd];
    unfold andb, fst, snd;
    repeat match goal with
           | H : ?x = _ |- context [?x] => rewrite H
           end.
  all: split; [reflexivity|];
    eexists; split; [rewrite <- !app_assoc; reflexivity|];
    split; reflexivity.
Qed.


(** X8.  [_start_server]: without a device serial the assertion fails
    before anything is done; otherwise [adb -s <serial> shell ...] is
    spawned once, with the arguments of [_get_server_args] at the end of
    its command line; when spawning fails the exception goes to the caller
    and [_server_process] is left as it was; when it succeeds
    [_server_process] holds the new process, and the pid is reported. *)
Theorem start_server_effect (s : State) :
  let e := env (snd s) in
  match device_serial e with
  | None => _start_server s = (Raise AssertionError, s)
  | Some serial =>
    let spawn :=
      Call (CPopen (command_prefix (adb_path e) serial
                    ++ _get_server_args (fst s))) in
    match popen_result e with
    | inl err =>
      _start_server s =
      (Raise err,
       (fst s,
        with_trace (trace (snd s) ++ [Log LDebug MsgStartingServer; spawn])
          (snd s)))
    | inr pid =>
      _start_server s =
      (Ok tt,
       (with__server_process (Some (PopenHandle pid)) (fst s),
        with_trace
          (trace (snd s) ++
           [Log LDebug MsgStartingServer; spawn;
            Log LInfo (MsgServerStarted pid)])
          (with_proc_state ProcRunning (snd s))))
    end
  end.
Proof.
  destruct s as [c [[] ? ? ? ? ? ? ? ? ? ? ? ?]]. cbn zeta.
  cbn [snd env device_serial popen_result adb_path fst].
  destruct device_serial0 as [serial|]; [|reflexivity].
  destruct popen_result0 as [err|pid].
  - unfold _start_server, bind, getw, getc, popen, call, log, emit, modw,
      lift_result, raise. cbn. rewrite <- app_assoc. reflexivity.
  - unfold _start_server, bind, getw, getc, popen, call, log, emit, modw,
      modc, lift_result, ret. cbn. rewrite <- !app_assoc. reflexivity.
Qed.

(** ** The listening socket *)

Lemma try_finally_emit (A : Type) (m : M A) (e : Event) (s : State) :
  fst (m s) <> OutOfFuel ->
  try_finally m (emit e) s =
  (fst (m s),
   (fst (snd (m s)),
    with_trace (trace (snd (snd (m s))) ++ [e]) (snd (snd (m s))))).
Proof.
  unfold try_finally. destruct (m s) as [[a|x|] s1]; cbn; intro H;
    try reflexivity.
  congruence.
Qed.

Lemma connect_try_total (s : State) :
  fst (try_except connect_body connect_handlers s) <> OutOfFuel /\
  exists evs,
    new_events s (snd (try_except connect_body connect_handlers s)) evs.
Proof.
  pose proof (connect_body_outcome s) as H. unfold wp in H.
  destruct H as [Hr [evs [Hn _]]].
  unfold try_except. destruct (connect_body s) as [[b|e|] s1];
    cbn [fst snd] in *.
  - split; [discriminate|]. exists evs. exact Hn.
  - destruct e; cbn [connect_handlers is_OSError].
    all: first
           [ split; [discriminate|]; exists evs; exact Hn
           | split; [discriminate|];
             eexists (evs ++ [_]); unfold new_events in *; cbn;
             rewrite Hn, <- app_assoc; reflexivity ].
  - congruence.
Qed.

(** X9.  [_connect_sockets], once the tunnel is set up and the server
    process spawned, closes its listening socket as its last step on every
    path: whether the handshake returns [True] or [False] or raises. *)
Theorem listening_socket_closed (s : State) :
  launch_fails (env (snd s)) = false ->
  fst (_connect_sockets s) <> OutOfFuel /\
  exists evs,
    new_events s (snd (_connect_sockets s))
      (evs ++ [Call CServerSocketClose]).
Proof.
  destruct s as [[] [[] ? ? ? ? ? ? ? ? ? ? ? ?]].
  unfold launch_fails. cbn [snd env reverse_result device_serial popen_result].
  intro H.
  destruct reverse_result0; [discriminate H|].
  destruct device_serial0 as [serial|]; [|discriminate H].
  destruct popen_result0 as [|pid]; [discriminate H|]. clear H.
  change (wp _connect_sockets
            (mkClient scid0 socket_name0 listeners0 is_running0 last_frame0
               resolution0 _server_process0 _video_socket0 _control_socket0
               _stream_thread0 _local_port0 device_name0 video_codec0
               _custom_server_args0,
             mkWorld
               (mkEnv (Some serial) adb_path0 remote_stat0 local_stat0
                  push_result0 bound_port0 None (inr pid))
               trace0 accepts0 video_in0 shell_results0 video_closed0
               control_closed0 proc_state0 thread_alive0 in_worker0
               data_buffer0 codec0 user0)
            (fun r s' =>
               r <> OutOfFuel /\
               exists evs,
                 trace (snd s') =
                 trace0 ++ evs ++ [Call CServerSocketClose])).
  unfold _connect_sockets.
  repeat lazymatch goal with
         | |- wp (try_finally _ _) _ _ => fail
         | _ => wp_connect_step
         end.
  all: try discriminate.
  match goal with |- wp (try_finally ?m _) ?sb _ =>
    destruct (connect_try_total sb) as [Hr [evs Hn]];
    apply (wp_eq _ _ (try_finally_emit m (Call CServerSocketClose) sb Hr))
  end.
  split; [exact Hr|].
  unfold new_events in Hn. cbn [fst snd trace with_trace] in Hn |- *.
  match type of Hn with
  | _ = ?tb ++ _ =>
    assert (Hpre : exists pre, tb = trace0 ++ pre)
      by (eexists; rewrite <- !app_assoc; reflexivity)
  end.
  destruct Hpre as [pre Hpre]. exists (pre ++ evs).
  rewrite Hn, Hpre, <- !app_assoc. reflexivity.
Qed.

(** X10.  When the tunnel cannot be set up, the device has no serial or
    the server process cannot be spawned, [_connect_sockets] raises: it
    has bound its listening socket and recorded the port, and it neither
    waits for a connection nor closes the listening socket. *)
Theorem launch_failure_leaves_socket (s : State) :
  launch_fails (env (snd s)) = true ->
  (exists e, fst (_connect_sockets s) = Raise e) /\
  _local_port (fst (snd (_connect_sockets s))) =
  Some (bound_port (env (snd s))) /\
  exists evs,
    new_events s (snd (_connect_sockets s)) (Log LDebug MsgSettingUpTunnel
                                             :: Call CBindListen :: evs) /\
    existsb is_accept_call evs = false /\
    existsb is_listen_close evs = false.
Proof.
  destruct s as [[] [[] ? ? ? ? ? ? ? ? ? ? ? ?]].
  unfold launch_fails. cbn [snd env reverse_result device_serial popen_result
                              bound_port].
  intro H.
  change (wp _connect_sockets
            (mkClient scid0 socket_name0 listeners0 is_running0 last_frame0
               resolution0 _server_process0 _video_socket0 _control_socket0
               _stream_thread0 _local_port0 device_name0 video_codec0
               _custom_server_args0,
             mkWorld
               (mkEnv device_serial0 adb_path0 remote_stat0 local_stat0
                  push_result0 bound_port0 reverse_result0 popen_result0)
               trace0 accepts0 video_in0 shell_results0 video_closed0
               control_closed0 proc_state0 thread_alive0 in_worker0
               data_buffer0 codec0 user0)
            (fun r s' =>
               (exists e, r = Raise e) /\
               _local_port (fst s') = Some bound_port0 /\
               exists evs,
                 trace (snd s') =
                 trace0 ++ Log LDebug MsgSettingUpTunnel
                           :: Call CBindListen :: evs /\
                 existsb is_accept_call evs = false /\
                 existsb is_listen_close evs = false)).
  unfold _connect_sockets.
  repeat lazymatch goal with
         | |- wp (try_finally _ _) _ _ => fail
         | _ => wp_connect_step
         end.
  all: try discriminate.
  all: cbn [fst snd trace _local_port].
  all: split; [eexists; reflexivity|]; split; [reflexivity|];
    eexists; split; [rewrite <- !app_assoc; reflexivity|];
    split; reflexivity.
Qed.

(** ** The stream loop as a whole *)

Lemma iteration_no_raise (s : State) (e : Exn) :
  fst (stream_iteration s) <> Raise e.
Proof.
  unfold stream_iteration.
  match goal with |- fst (try_except ?m _ _) <> _ => generalize m end.
  intro m. unfold try_except.
  destruct (m s) as [[a|e'|] s1]; cbn [fst]; try discriminate.
  destruct (stream_handlers_spec e' s1) as [k [Hk Hwp]].
  rewrite Hk. unfold wp in Hwp. destruct Hwp as [-> _]. discriminate.
Qed.

Lemma stream_while_returns (fuel : nat) (s : State) :
  script_measure (video_in (snd s)) < fuel ->
  wp (stream_while fuel) s (fun r s' =>
    r = Ok tt /\ exists evs, new_events s s' evs).
Proof.
  revert s. induction fuel as [|fuel IH]; intros s Hm; [lia|].
  rewrite stream_while_unfold.
  apply wp_bind.
  apply (@wp_getc _ is_running s _ (is_running (fst s)) eq_refl).
  destruct (is_running (fst s)); cbn [negb]; cbv iota.
  2: { apply wp_ret. split; [reflexivity|].
       exists []. apply new_events_refl. }
  apply wp_bind.
  pose proof (iteration_spec s) as H.
  pose proof (iteration_no_raise s) as Hn.
  unfold wp in *.
  destruct (stream_iteration s) as [[[]|e|] s1]; cbn [fst snd] in *.
  - destruct H as [_ [Hc [_ [evs [He _]]]]].
    destruct (IH s1) as [Hr [evs' He']]; [specialize (Hc eq_refl); lia|].
    split; [exact Hr|]. exists (evs ++ evs').
    exact (new_events_trans He He').
  - destruct H as [_ [_ [_ [evs [He _]]]]].
    split; [reflexivity|]. exists evs. exact He.
  - elim (Hn e). reflexivity.
  - destruct H as [H _]. congruence.
Qed.

(** [_stream_loop] with a video socket, from any state. *)
Lemma stream_loop_run (s : State) (sock : Socket) :
  _video_socket (fst s) = Some sock ->
  wp _stream_loop s (fun r s' =>
    r = Ok tt /\
    is_running (fst s') = false /\
    no_worker (snd s) (snd s') /\
    exists evs,
      new_events s s'
        (Log LDebug MsgStartingLoop
         :: Call (CCodecCreate (py_lower (video_codec (fst s))))
         :: evs ++ [SetAttr (WIsRunning false); Log LInfo MsgLoopStopped]) /\
      forallb stream_event evs = true).
Proof.
  destruct s as [[] []]. cbn [fst _video_socket video_codec]. intros ->.
  match goal with |- wp _ _ ?Q => set (post := Q) end.
  unfold _stream_loop.
  repeat lazymatch goal with
         | |- wp (stream_while _) _ _ => fail
         | |- wp (bind (stream_while _) _) _ _ => apply wp_bind
         | _ => wp_step
         end.
  match goal with |- wp (stream_while ?f) ?s1 _ =>
    assert (Hm : script_measure (video_in (snd s1)) < f)
      by (proj_simpl; lia);
    pose proof (stream_while_returns s1 Hm) as H1;
    pose proof (stream_while_spec s1 Hm) as H2
  end.
  unfold wp in H1, H2 |- *.
  destruct H1 as [Hr _]. destruct H2 as [_ [Hw [evs [Hn F]]]].
  rewrite Hr. cbn [fst snd].
  match goal with |- context [snd (stream_while ?f ?s1)] =>
    destruct (snd (stream_while f s1)) as [c2 w2]
  end.
  unfold new_events, no_worker in Hn, Hw.
  cbn [fst snd trace thread_alive] in Hn, Hw.
  destruct c2, w2. cbn [trace thread_alive] in Hn, Hw.
  match goal with |- post ?r ?s' =>
    change (wp (assign (WIsRunning false);; log LInfo MsgLoopStopped)
              (mkClient scid1 socket_name1 listeners1 is_running1
                 last_frame1 resolution1 _server_process1 _video_socket0
                 _control_socket1 _stream_thread1 _local_port1 device_name1
                 video_codec1 _custom_server_args1,
               mkWorld env1 trace1 accepts1 video_in1 shell_results1
                 video_closed1 control_closed1 proc_state1 thread_alive1
                 in_worker1 data_buffer1 codec1 user1) post)
  end.
  repeat wp_step.
  subst post. cbv beta. unfold new_events, no_worker. proj_simpl.
  split; [reflexivity|]. split; [reflexivity|]. split; [exact Hw|].
  exists evs. split; [rewrite Hn, <- !app_assoc; reflexivity | exact F].
Qed.


Lemma filter_publish_listener (evs : list Event) :
  forallb listener_event evs = true -> filter is_publish evs = [].
Proof.
  induction evs as [|e evs IH]; [reflexivity|]. simpl.
  intro H. apply andb_prop in H as [He H].
  rewrite (listener_event_not_publish e He). exact (IH H).
Qed.

(** X12.  The frames decoded from one packet are each published once, in
    the order the decoder gave them and each as the argument of its own
    [frame] event, and the delivery returns normally: a subscriber that
    raises, or that stops the client, does not keep the frames after it
    from being published. *)
Theorem frames_published_in_order (frames : list Frame) (s : State) :
  fst (for_frames frames s) = Ok tt /\
  exists evs,
    new_events s (snd (for_frames frames s)) evs /\
    filter is_publish evs = map (fun f => Publish FRAME (Some f)) frames.
Proof.
  change (wp (for_frames frames) s (fun r s' =>
    r = Ok tt /\
    exists evs,
      new_events s s' evs /\
      filter is_publish evs = map (fun f => Publish FRAME (Some f)) frames)).
  revert s. induction frames as [|f frames IH]; intro s.
  - apply wp_ret. split; [reflexivity|].
    exists []. split; [apply new_events_refl | reflexivity].
  - cbn [for_frames].
    apply wp_bind. apply wp_assign_any.
    apply wp_bind. eapply wp_getc; [reflexivity|]. cbv beta iota.
    apply wp_bind. unfold _send_to_listeners.
    apply wp_bind. apply wp_emit_any.
    apply wp_bind. eapply wp_getc; [reflexivity|]. cbv beta iota.
    eapply wp_conseq; [apply for_listeners_returns|].
    intros r s1 [-> [evs1 [Hn1 F1]]].
    eapply wp_conseq; [apply IH|].
    intros r s2 [-> [evs2 [Hn2 F2]]].
    split; [reflexivity|].
    exists ([SetAttr (WLastFrame (Some f)); Publish FRAME (Some f)]
            ++ evs1 ++ evs2).
    split.
    + unfold new_events in *. cbn [fst snd trace with_trace] in Hn1.
      rewrite Hn2, Hn1, <- !app_assoc. reflexivity.
    + cbn [app filter is_publish]. rewrite filter_app.
      rewrite (filter_publish_listener evs1 F1), F2. reflexivity.
Qed.

(** ** A client that was never started *)

(** X13.  [stop()] on a client that [__init__] has just built: it
    returns normally and releases nothing (no socket is closed, no process
    terminated, no tunnel removed, no thread joined); it only logs and
    rewrites the running flag, the resolution and the last frame with the
    values they already have. *)
Theorem stop_fresh_client (path_exists : bool) (rand : N)
  (server_args : option dict) (c : Client) (w : World) :
  __init__ path_exists rand server_args = inr c ->
  stop (c, w) =
  (Ok tt,
   (c,
    with_trace
      (trace w ++
       [Log LInfo MsgStoppingClient; SetAttr (WIsRunning false);
        SetAttr (WResolution None); SetAttr (WLastFrame None);
        Log LInfo MsgClientStopped])
      w)).
Proof.
  unfold __init__. destruct path_exists; [|discriminate].
  cbn [negb]. intro H. injection H as <-. destruct w.
  unfold stop, assign, when, bind, log, call, emit, modw, modc, getc, getw,
    ret.
  cbn. rewrite <- !app_assoc. reflexivity.
Qed.

(** ** The device name field *)

Lemma utf8_decode_ascii (l : list N) :
  Forall (fun c => (c < 128)%N) l -> utf8_decode l = Some l.
Proof.
  induction l as [|c l IH]; [reflexivity|]. intro H.
  inversion H as [|x y Hc Hl]; subst. simpl.
  rewrite (proj2 (N.ltb_lt c 128) Hc), (IH Hl). reflexivity.
Qed.

Lemma rstrip_nul_zeros (k : nat) : rstrip_nul (repeat 0%N k) = [].
Proof.
  induction k as [|k IH]; [reflexivity|].
  unfold rstrip_nul in *. simpl. rewrite IH. reflexivity.
Qed.

Lemma rstrip_nul_app_zeros (s : str) (k : nat) :
  rstrip_nul (s ++ repeat 0%N k) = rstrip_nul s.
Proof.
  unfold rstrip_nul. rewrite fold_right_app.
  fold (rstrip_nul (repeat 0%N k)). rewrite rstrip_nul_zeros. reflexivity.
Qed.

Lemma rstrip_nul_id (s : str) : last s 1%N <> 0%N -> rstrip_nul s = s.
Proof.
  induction s as [|c s IH]; [reflexivity|].
  intro H. unfold rstrip_nul in *. cbn [fold_right].
  destruct s as [|d s].
  - simpl in *. destruct (N.eqb_spec c 0); [contradiction | reflexivity].
  - rewrite IH by exact H. reflexivity.
Qed.

(** X14.  The device name as the handshake reads it: a name of ASCII
    characters that does not end with NUL, padded with NUL bytes to the
    width of the field, decodes and is stripped back to the name itself;
    NUL characters inside the name are kept. *)
Theorem device_name_padding (name : bytes) (k : nat) :
  Forall (fun b => (Byte.to_N b < 128)%N) name ->
  last name x01 <> x00 ->
  option_map rstrip_nul (decode_utf8 (name ++ repeat x00 k)) =
  Some (map Byte.to_N name).
Proof.
  intros Ha Hl. unfold decode_utf8.
  rewrite map_app, map_repeat.
  change (Byte.to_N x00) with 0%N.
  rewrite utf8_decode_ascii.
  - cbn [option_map]. rewrite rstrip_nul_app_zeros, rstrip_nul_id;
      [reflexivity|].
    clear Ha. induction name as [|b name IH]; [discriminate|].
    destruct name as [|b' name].
    + simpl in *. intro E. apply Hl.
      destruct b; try reflexivity; discriminate E.
    + apply IH. exact Hl.
  - apply Forall_app. split.
    + apply Forall_map. exact Ha.
    + apply Forall_forall. intros x Hx. apply repeat_spec in Hx. subst. lia.
Qed.

(** ** A payload the decoder rejects *)

(** Symbolic execution from states in which some fields are literals. *)
Ltac wp_lit_step :=
  lazymatch goal with
  | |- wp (when true ?m) ?s ?Q => change (wp m s Q)
  | |- wp (when false _) ?s ?Q => change (wp (ret tt) s Q)
  | |- wp (if true then ?a else _) ?s ?Q => change (wp a s Q)
  | |- wp (if false then _ else ?b) ?s ?Q => change (wp b s Q)
  | _ => wp_codec_step
  end.

Lemma packet_then_rest (reserved payload rest : bytes) :
  List.length reserved = 8 ->
  (N.of_nat (List.length payload) < 4294967296)%N ->
  from_bytes_big (slice 8 12 (packet_bytes reserved payload ++ rest)) =
  N.of_nat (List.length payload) /\
  slice 12 (12 + List.length payload) (packet_bytes reserved payload ++ rest)
  = payload /\
  skipn (12 + List.length payload) (packet_bytes reserved payload ++ rest)
  = rest.
Proof.
  intros Hres Hpay.
  pose proof (packet_length reserved payload Hres Hpay) as Hlen.
  split; [|split].
  - rewrite slice_app_prefix by lia.
    exact (packet_declared_length reserved payload Hres Hpay).
  - rewrite slice_app_prefix by lia.
    exact (packet_payload_slice reserved payload Hres Hpay).
  - rewrite skipn_app, (packet_rest reserved payload Hres Hpay), Hlen.
    rewrite Nat.sub_diag. reflexivity.
Qed.

(** X15.  One read delivers a complete packet and more bytes behind it,
    and the parser raises on the payload.  The exception ends this round of
    the loop: with [InvalidDataError] a warning is logged and the loop goes
    on, with any other exception the loop ends.  Either way the packet is
    gone from the accumulator, and the bytes behind it, complete packets
    included, are still there, unparsed: they are looked at only after a
    later read has delivered data. *)
Theorem rejected_payload_skipped (s : State) (reserved payload rest : bytes)
  (more : list SockEvent) (e : Exn) :
  List.length reserved = 8 ->
  (N.of_nat (List.length payload) < 4294967296)%N ->
  List.length (packet_bytes reserved payload ++ rest) <= RECV_SIZE ->
  is_running (fst s) = true ->
  video_closed (snd s) = false ->
  data_buffer (snd s) = [] ->
  video_in (snd s) = SockBytes (packet_bytes reserved payload ++ rest) :: more ->
  snd (codec_parse (codec (snd s)) payload) = inl e ->
  fst (stream_iteration s) = Ok (handler_ctl e) /\
  data_buffer (snd (snd (stream_iteration s))) = rest /\
  video_in (snd (snd (stream_iteration s))) = more /\
  exists evs,
    new_events s (snd (stream_iteration s))
      (Call (CCodecParse payload) :: evs) /\
    parsed_payloads evs = [] /\
    (e = InvalidDataError ->
     evs = [Log LWarning (MsgAvDecodingError InvalidDataError)]).
Proof.
  intros Hres Hpay Hfit ER EC Hb Hv He.
  pose proof (packet_length reserved payload Hres Hpay) as Hlen.
  destruct (@packet_then_rest reserved payload rest Hres Hpay)
    as [Hdecl [Hslice Hrest]].
  assert (Hne : packet_bytes reserved payload ++ rest <> []).
  { intro C. apply (f_equal (@List.length _)) in C.
    rewrite length_app, Hlen in C. simpl in C. lia. }
  change (wp stream_iteration s (fun r s' =>
    r = Ok (handler_ctl e) /\
    data_buffer (snd s') = rest /\
    video_in (snd s') = more /\
    exists evs,
      new_events s s' (Call (CCodecParse payload) :: evs) /\
      parsed_payloads evs = [] /\
      (e = InvalidDataError ->
       evs = [Log LWarning (MsgAvDecodingError InvalidDataError)]))).
  apply (wp_run_eq (iteration_chunk s EC Hv Hne)).
  rewrite Hb, firstn_all2, skipn_all2 by exact Hfit.
  cbn [app requeue].
  destruct s as [[] []]. proj_simpl_in ER. proj_simpl_in He.
  proj_simpl_in EC. proj_simpl_in Hv. proj_simpl_in Hb. subst.
  match goal with |- wp _ ?s1 ?Q =>
    let s1' := norm s1 in change s1 with s1'; set (post := Q)
  end.
  apply wp_try_except. apply wp_bind. wp_step. apply wp_bind.
  rewrite extract_while_unfold.
  do 6 wp_step; [apply N.ltb_lt in E; rewrite length_app, Hlen in E; lia|].
  cbv zeta. rewrite Hdecl, Nat2N.id.
  do 2 wp_step;
    [apply N.ltb_lt in E0; rewrite length_app, Hlen in E0; lia|].
  rewrite Hslice, Hrest.

  do 10 wp_codec_step. rewrite He.
  change (@lift_result (list Packet) (inl e)) with (@raise (list Packet) e).
  wp_step.
  destruct e; cbn [stream_handlers is_OSError]; repeat wp_lit_step.
  all: subst post; cbv beta; unfold new_events; proj_simpl.
  all: split; [reflexivity|]; split; [reflexivity|]; split; [reflexivity|];
    eexists; split; [rewrite <- ?app_assoc; reflexivity|];
    split; [reflexivity|]; intro C; first [reflexivity | discriminate C].
Qed.

(** ** A session that connects *)

Lemma recv_all_field (n : nat) (s : State) (field tail : bytes) :
  video_closed (snd s) = false ->
  Forall chunk_event (video_in (snd s)) ->
  script_bytes (video_in (snd s)) = field ++ tail ->
  List.length field = n ->
  exists v,
    _recv_all n s = (Ok field, (fst s, with_video_in v (snd s))) /\
    Forall chunk_event v /\
    script_bytes v = tail.
Proof.
  intros EC Hc Hs Hl.
  destruct (@recv_all_loop_exact n n [] s EC Hc) as [v [E [Hv Hb]]];
    simpl; try lia.
  { rewrite Hs, length_app. lia. }
  exists v. simpl in E, Hb. rewrite Nat.sub_0_r, Hs in E, Hb.
  rewrite firstn_app, firstn_all2, Hl, Nat.sub_diag in E by lia.
  rewrite skipn_app, skipn_all2, Hl, Nat.sub_diag in Hb by lia.
  simpl in E, Hb. rewrite app_nil_r in E.
  split; [exact E|]. split; assumption.
Qed.

Ltac wp_run_step :=
  lazymatch goal with
  | |- wp (match _ with _ => _ end) _ _ =>
    first [progress cbv beta iota | wp_connect_step]
  | |- wp (when true ?m) ?s ?Q => change (wp m s Q)
  | |- wp (when false _) ?s ?Q => change (wp (ret tt) s Q)
  | |- wp (if true then ?a else _) ?s ?Q => change (wp a s Q)
  | |- wp (if false then _ else ?b) ?s ?Q => change (wp b s Q)
  | |- wp (lift_outcome None) ?s ?Q => change (wp (ret tt) s Q)
  | |- wp (@lift_result ?A (inr ?a)) ?s ?Q => change (wp (@ret A a) s Q)
  | |- wp (_recv_all _) _ _ => fail
  | |- wp (bind (_recv_all _) _) _ _ => fail
  | |- wp _push_server _ _ => fail
  | |- wp (bind _push_server _) _ _ => fail
  | _ => wp_connect_step
  end.

Lemma filter_publish_launch (evs : list Event) :
  forallb launch_event evs = true -> filter is_publish evs = [].
Proof.
  induction evs as [|e evs IH]; [reflexivity|]. simpl.
  intro H. apply andb_prop in H as [He H].
  destruct e as [|[]| | |]; try discriminate He; exact (IH H).
Qed.

(** Receiving the field at the front of what the peer sends. *)
Ltac wp_field_step Hc Hs L :=
  apply wp_bind;
  lazymatch goal with
  | |- wp (_recv_all ?n) ?sx _ =>
    let v := fresh "v" in
    let E := fresh "E" in
    let Hc' := fresh "Hc" in
    let Hs' := fresh "Hs" in
    destruct (@recv_all_field n sx _ _ eq_refl Hc Hs L)
      as [v [E [Hc' Hs']]];
    apply (wp_eq _ _ E); clear E; cbv beta iota;
    lazymatch goal with
    | |- wp _ ?s1 _ => let s1' := norm s1 in change s1 with s1'
    end
  end.

(** The handshake that succeeds, step by step. *)
Lemma connect_sockets_run (s : State) (name id_bytes wb hb tail : bytes)
  (n id : str) (pid : N) (later : list AcceptResult) :
  listeners (fst s) INIT = [] ->
  device_answers s pid later (name ++ id_bytes ++ wb ++ hb ++ tail) ->
  good_handshake name id_bytes wb hb n id ->
  exists serial v,
    device_serial (env (snd s)) = Some serial /\
    Forall chunk_event v /\ script_bytes v = tail /\
    _connect_sockets s =
    (Ok true,
     (connected_client (fst s) (env (snd s)) pid n id
        (from_bytes_big wb) (from_bytes_big hb),
      with_video_in v
        (with_accepts later
           (with_proc_state ProcRunning
              (with_trace
                 (trace (snd s) ++
                  handshake_events (fst s) (env (snd s)) serial pid n id
                    (from_bytes_big wb) (from_bytes_big hb))
                 (snd s)))))).
Proof.
  intros HL [Hlaunch [Hpid [Hacc [EC [Hc Hs]]]]]
    [Ln [Li [Lw [Lh [Dn [Di [Hsup Hres]]]]]]].
  destruct s as [[] [[] ? ? ? ? ? ? ? ? ? ? ? ?]].
  unfold launch_fails in Hlaunch.
  cbn [fst snd env listeners popen_result accepts
       video_closed video_in reverse_result device_serial bound_port]
    in HL, Hlaunch, Hpid, Hacc, EC, Hc, Hs |- *.
  subst.
  destruct reverse_result0; [discriminate Hlaunch|].
  destruct device_serial0 as [serial|]; [|discriminate Hlaunch].
  clear Hlaunch. exists serial.
  match goal with |- exists v, _ /\ _ /\ _ /\ _connect_sockets ?s0 = _ =>
    enough (H : wp _connect_sockets s0 (fun r s' =>
      exists v,
        Forall chunk_event v /\ script_bytes v = tail /\
        (r, s') =
        (Ok true,
         (connected_client (fst s0) (env (snd s0)) pid n id
            (from_bytes_big wb) (from_bytes_big hb),
          with_video_in v
            (with_accepts later
               (with_proc_state ProcRunning
                  (with_trace
                     (trace (snd s0) ++
                      handshake_events (fst s0) (env (snd s0)) serial pid
                        n id (from_bytes_big wb) (from_bytes_big hb))
                     (snd s0))))))))
  end.
  { unfold wp in H. destruct H as [v [H1 [H2 H3]]]. exists v.
    split; [reflexivity|]. split; [exact H1|]. split; [exact H2|].
    etransitivity; [apply surjective_pairing | exact H3]. }
  match goal with |- wp _ _ ?Q => set (post := Q) end.
  unfold _connect_sockets, connect_body.
  repeat wp_run_step.
  wp_field_step Hc Hs Ln. rewrite Dn. repeat wp_run_step.
  wp_field_step Hc0 Hs0 Li. rewrite Di. unfold supported in Hsup.
  repeat wp_run_step; [|discriminate Hsup].
  wp_field_step Hc1 Hs1 Lw.
  wp_field_step Hc2 Hs2 Lh.
  assert (Hkeep : (from_bytes_big wb, from_bytes_big hb) =
                  (from_bytes_big wb, from_bytes_big hb)) by reflexivity.
  repeat lazymatch goal with
         | |- wp (match from_bytes_big wb with _ => _ end) _ _ => fail
         | _ => wp_run_step
         end.
  assert (Hgo : forall (A : Type) (a b : A),
             match from_bytes_big wb with
             | 0%N => match from_bytes_big hb with
                      | 0%N => a
                      | N.pos _ => b
                      end
             | N.pos _ => b
             end = b).
  { intros A a b. destruct (from_bytes_big wb); [|reflexivity].
    destruct (from_bytes_big hb); [elim Hres|]; reflexivity. }
  rewrite Hgo. clear Hgo Hkeep.
  unfold _send_to_listeners.
  do 5 wp_run_step. rewrite HL. cbn [for_listeners].
  repeat wp_run_step.
  subst post. cbv beta. exists v2.
  split; [exact Hc3|]. split; [exact Hs3|].
  unfold connected_client, handshake_events, command_prefix.
  red_state. rewrite <- !app_assoc. reflexivity.
Qed.

(** [start] up to the end of a handshake that succeeds. *)
Lemma start_connects_run (threaded : bool) (s : State)
  (name id_bytes wb hb tail : bytes) (n id : str) (pid : N)
  (later : list AcceptResult) :
  is_running (fst s) = false ->
  listeners (fst s) INIT = [] ->
  push_result (env (snd s)) = None ->
  device_answers s pid later (name ++ id_bytes ++ wb ++ hb ++ tail) ->
  good_handshake name id_bytes wb hb n id ->
  exists serial v evs0,
    device_serial (env (snd s)) = Some serial /\
    Forall chunk_event v /\ script_bytes v = tail /\
    forallb launch_event evs0 = true /\
    start threaded s =
    (if threaded
     then modc (with__stream_thread (Some Worker));; thread_start
     else _stream_loop)
      (with_is_running true
         (connected_client (fst s) (env (snd s)) pid n id
            (from_bytes_big wb) (from_bytes_big hb)),
       with_video_in v
         (with_accepts later
            (with_proc_state ProcRunning
               (with_trace
                  (trace (snd s) ++ evs0 ++
                   handshake_events (fst s) (env (snd s)) serial pid n id
                     (from_bytes_big wb) (from_bytes_big hb) ++
                   [SetAttr (WIsRunning true)])
                  (snd s))))).
Proof.
  intros ER HL Hpush Hdev Hgood.
  pose proof (push_server_run s) as Hp. unfold wp in Hp.
  destruct Hp as [Hr [evs0 [Hs1 [Fl _]]]].
  rewrite Hpush in Hr.
  assert (Hr' : fst (_push_server s) = Ok tt)
    by (rewrite Hr; destruct (server_up_to_date _); reflexivity).
  clear Hr.
  set (s1 := (fst s, with_trace (trace (snd s) ++ evs0) (snd s))) in *.
  assert (Hdev1 : device_answers s1 pid later
                    (name ++ id_bytes ++ wb ++ hb ++ tail))
    by (destruct s as [c []]; exact Hdev).
  destruct (@connect_sockets_run s1 name id_bytes wb hb tail n id pid later
              HL Hdev1 Hgood) as [serial [v [Hser [Hc [Hs E]]]]].
  exists serial, v, evs0.
  split; [destruct s as [c []]; exact Hser|].
  split; [exact Hc|]. split; [exact Hs|]. split; [exact Fl|].
  unfold start. unfold bind at 1. unfold getc at 1. cbn [fst snd].
  rewrite ER. unfold bind at 1.
  rewrite (surjective_pairing (_push_server s)), Hr', Hs1.
  unfold bind at 1. fold s1. rewrite E. cbn [negb].
  unfold bind at 1, assign, bind at 1, modc at 1, emit, modw at 1.
  cbn [fst snd].
  destruct s as [c []]. subst s1.
  cbn [fst snd with_trace with_video_in with_accepts with_proc_state
       trace env accepts video_in shell_results video_closed control_closed
       proc_state thread_alive in_worker data_buffer codec user write_attr].
  rewrite <- !app_assoc. reflexivity.
Qed.

(** X16.  [start(threaded=True)] on a client that is not running, when
    everything goes well: the server file is up to date or can be pushed,
    the tunnel is set up, the server process is spawned, the device opens
    both connections and sends (in arrivals of any sizes) a name that
    decodes, a supported codec identifier and a resolution other than
    (0, 0), and nobody subscribes to [init].  Then [start] returns normally
    with the running flag set and a live worker thread; the name (without
    its NUL padding), the codec identifier and the resolution are the ones
    received; [init] is the only event published; and the bytes that follow
    the handshake are still to be read, by the worker. *)
Theorem start_threaded_connects (s : State)
  (name id_bytes wb hb tail : bytes) (n id : str) (pid : N)
  (later : list AcceptResult) :
  is_running (fst s) = false ->
  listeners (fst s) INIT = [] ->
  push_result (env (snd s)) = None ->
  device_answers s pid later (name ++ id_bytes ++ wb ++ hb ++ tail) ->
  good_handshake name id_bytes wb hb n id ->
  let c' := fst (snd (start true s)) in
  let w' := snd (snd (start true s)) in
  fst (start true s) = Ok tt /\
  is_running c' = true /\
  device_name c' = rstrip_nul n /\
  video_codec c' = id /\
  resolution c' = Some (from_bytes_big wb, from_bytes_big hb) /\
  _server_process c' = Some (PopenHandle pid) /\
  _video_socket c' = Some VideoConn /\
  _control_socket c' = Some ControlConn /\
  _local_port c' = Some (bound_port (env (snd s))) /\
  _stream_thread c' = Some Worker /\
  thread_alive w' = true /\
  video_closed w' = false /\
  script_bytes (video_in w') = tail /\
  exists evs,
    new_events s (snd (start true s)) evs /\
    filter is_publish evs = [Publish INIT None].
Proof.
  intros ER HL Hpush Hdev Hgood.
  destruct (@start_connects_run true s name id_bytes wb hb tail n id pid
              later ER HL Hpush Hdev Hgood)
    as [serial [v [evs0 [_ [_ [Hs [Fl E]]]]]]].
  destruct Hdev as [_ [_ [_ [EC _]]]].
  cbn zeta. rewrite E. clear E.
  destruct s as [c w]. destruct w. cbn [snd video_closed] in EC. subst.
  unfold thread_start, bind, modc, call, emit, modw.
  cbn [fst snd is_running device_name video_codec resolution _server_process
       _video_socket _control_socket _local_port _stream_thread thread_alive
       video_closed video_in trace env
       connected_client with_resolution with_video_codec with_device_name
       with__control_socket with__video_socket with__server_process
       with__local_port with__stream_thread with_is_running
       with_thread_alive with_trace with_video_in with_accepts
       with_proc_state].
  repeat (split; [first [reflexivity | exact Hs]|]).
  eexists. split; [unfold new_events; cbn [snd trace];
                   rewrite <- !app_assoc; reflexivity|].
  rewrite filter_app, (filter_publish_launch evs0 Fl). reflexivity.
Qed.

Ltac wp_stop_lit_step :=
  lazymatch goal with
  | |- wp (if true then ?a else _) ?s ?Q => change (wp a s Q)
  | |- wp (if false then _ else ?b) ?s ?Q => change (wp b s Q)
  | _ => wp_stop_step
  end.

(** X17.  [start(threaded=True)] that went well, then [stop()] from the
    thread that called [start]: [stop] returns normally, and its teardown
    is the join of the worker, then control socket, video socket, server
    process (terminated and waited for) and tunnel, in this order, each
    released once; afterwards the client is not running, and its
    resolution and last frame are cleared. *)
Theorem start_then_stop (s : State)
  (name id_bytes wb hb tail : bytes) (n id : str) (pid : N)
  (later : list AcceptResult) :
  is_running (fst s) = false ->
  listeners (fst s) INIT = [] ->
  push_result (env (snd s)) = None ->
  device_answers s pid later (name ++ id_bytes ++ wb ++ hb ++ tail) ->
  good_handshake name id_bytes wb hb n id ->
  in_worker (snd s) = false ->
  bound_port (env (snd s)) <> 0%N ->
  let s1 := snd (start true s) in
  let s2 := snd (stop s1) in
  fst (stop s1) = Ok tt /\
  is_running (fst s2) = false /\
  resolution (fst s2) = None /\
  last_frame (fst s2) = None /\
  resources (snd s2) = (true, true, ProcReaped, false) /\
  exists evs,
    new_events s1 s2 evs /\
    filter (fun e => is_teardown_step e || is_release_call e
                     || match e with
                        | Call CThreadJoin => true
                        | _ => false
                        end) evs =
    [ Call CThreadJoin; Call CCloseControl; Call CCloseVideo;
      Call CTerminate; Call CWait;
      Call (CShell ["reverse"; "--remove";
                    ("localabstract:" ++ socket_name (fst s))]%string) ]
    ++ match next_shell_result (snd s) with
       | Some e => [Log LWarning (MsgRemoveTunnelFailed e)]
       | None => []
       end
    ++ [SetAttr (WResolution None); SetAttr (WLastFrame None)].
Proof.
  intros ER HL Hpush Hdev Hgood Hw Hport.
  destruct (@start_connects_run true s name id_bytes wb hb tail n id pid
              later ER HL Hpush Hdev Hgood)
    as [serial [v [evs0 [_ [_ [Hs [Fl E]]]]]]].
  cbn zeta. rewrite E. clear E.
  destruct s as [[] [[] ? ? ? ? ? ? ? ? ? ? ? ?]].
  cbn [snd in_worker env bound_port] in Hw, Hport. subst.
  unfold thread_start, bind at 1 2, modc at 1, call, emit, modw at 1 2.
  cbn [fst snd]. unfold connected_client.
  match goal with |- context [stop ?s1] =>
    change (wp stop s1 (fun r s2 =>
      r = Ok tt /\
      is_running (fst s2) = false /\
      resolution (fst s2) = None /\
      last_frame (fst s2) = None /\
      resources (snd s2) = (true, true, ProcReaped, false) /\
      exists evs,
        new_events s1 s2 evs /\
        filter (fun e => is_teardown_step e || is_release_call e
                         || match e with
                            | Call CThreadJoin => true
                            | _ => false
                            end) evs =
        [ Call CThreadJoin; Call CCloseControl; Call CCloseVideo;
          Call CTerminate; Call CWait;
          Call (CShell ["reverse"; "--remove";
                        ("localabstract:" ++ socket_name0)]%string) ]
        ++ match match shell_results0 with
                 | r :: _ => r
                 | [] => None
                 end with
           | Some e => [Log LWarning (MsgRemoveTunnelFailed e)]
           | None => []
           end
        ++ [SetAttr (WResolution None); SetAttr (WLastFrame None)]));
    let s1' := norm s1 in change s1 with s1'
  end.

  repeat wp_stop_lit_step.
  all: try (apply N.eqb_eq in E; contradiction).
  all: cbv beta; unfold new_events, resources; proj_simpl.
  all: repeat (split; [reflexivity|]).
  all: eexists; split; [rewrite <- !app_assoc; reflexivity | reflexivity].
Qed.

Lemma str_eqb_eq (a b : str) : str_eqb a b = true -> a = b.
Proof.
  revert b. induction a as [|x a IH]; intros [|y b] H; simpl in H;
    try discriminate H; [reflexivity|].
  apply andb_prop in H as [Hx H]. apply N.eqb_eq in Hx.
  rewrite Hx, (IH b H). reflexivity.
Qed.

(** X18.  [start(threaded=False)] when everything goes well (as for
    X16): the caller's thread runs the stream loop itself, so that [start]
    returns only when the loop has ended, normally and with the running
    flag cleared again; the decoder is created for ["h264"], whatever the
    case of the identifier received; no worker thread is started; nothing
    after the handshake publishes [init] again. *)
Theorem start_unthreaded_streams (s : State)
  (name id_bytes wb hb tail : bytes) (n id : str) (pid : N)
  (later : list AcceptResult) :
  is_running (fst s) = false ->
  listeners (fst s) INIT = [] ->
  push_result (env (snd s)) = None ->
  device_answers s pid later (name ++ id_bytes ++ wb ++ hb ++ tail) ->
  good_handshake name id_bytes wb hb n id ->
  fst (start false s) = Ok tt /\
  is_running (fst (snd (start false s))) = false /\
  no_worker (snd s) (snd (snd (start false s))) /\
  exists serial evs0 evs,
    device_serial (env (snd s)) = Some serial /\
    new_events s (snd (start false s))
      (evs0 ++
       handshake_events (fst s) (env (snd s)) serial pid n id
         (from_bytes_big wb) (from_bytes_big hb) ++
       [SetAttr (WIsRunning true); Log LDebug MsgStartingLoop;
        Call (CCodecCreate h264)] ++
       evs ++ [SetAttr (WIsRunning false); Log LInfo MsgLoopStopped]) /\
    forallb launch_event evs0 = true /\
    forallb stream_event evs = true.
Proof.
  intros ER HL Hpush Hdev Hgood.
  destruct (@start_connects_run false s name id_bytes wb hb tail n id pid
              later ER HL Hpush Hdev Hgood)
    as [serial [v [evs0 [Hser [_ [_ [Fl E]]]]]]].
  destruct Hgood as [_ [_ [_ [_ [_ [_ [Hsup _]]]]]]].
  apply str_eqb_eq in Hsup.
  rewrite E. clear E.
  match goal with |- context [_stream_loop ?s1] =>
    pose proof (@stream_loop_run s1 VideoConn eq_refl) as H
  end.
  unfold wp in H. destruct H as [Hr [Hrun [Hw [evs [Hn F]]]]].
  split; [exact Hr|]. split; [exact Hrun|].
  split.
  { destruct s as [c []]. exact Hw. }
  exists serial, evs0, evs.
  split; [exact Hser|]. split; [|split; assumption].
  unfold new_events in *. rewrite Hn. clear Hn.
  destruct s as [c []].
  cbn [fst snd trace with_trace with_video_in with_accepts with_proc_state
       video_codec connected_client with_is_running with_resolution
       with_video_codec].
  rewrite Hsup, <- !app_assoc. reflexivity.
Qed.

(** ** A device that never connects *)

(** X19.  [start] on a client that is not running, when the server is
    launched but the device does not open the video connection within the
    timeout of [accept]: [start] reports the timeout as an error, closes
    the listening socket, then runs [stop()], which terminates the server
    process it had spawned and removes the tunnel, and returns normally
    with the running flag false.  Nothing is published, and no connection
    is recorded in the client. *)
Theorem start_device_never_connects (threaded : bool) (s : State) (pid : N)
  (later : list AcceptResult) :
  is_running (fst s) = false ->
  in_worker (snd s) = false ->
  push_result (env (snd s)) = None ->
  launch_fails (env (snd s)) = false ->
  popen_result (env (snd s)) = inr pid ->
  accepts (snd s) = [] \/ accepts (snd s) = AcceptTimeout :: later ->
  let c1 :=
    with__server_process (Some (PopenHandle pid))
      (with__local_port (Some (bound_port (env (snd s)))) (fst s)) in
  fst (start threaded s) = Ok tt /\
  fst (snd (start threaded s)) = stop_client c1 /\
  exists evs0 evs,
    new_events s (snd (start threaded s)) (evs0 ++ evs) /\
    forallb launch_event evs0 = true /\
    filter is_publish evs = [] /\
    filter (fun e => is_error_log e || is_listen_close e
                     || is_teardown_step e) evs =
    Log LError MsgConnectTimedOut :: Call CServerSocketClose
    :: teardown_steps c1 (next_shell_result (snd s)).
Proof.
  intros ER Hw Hpush Hlaunch Hpid Hacc. cbn zeta.
  change (wp (start threaded) s (fun r s' =>
    r = Ok tt /\
    fst s' =
    stop_client
      (with__server_process (Some (PopenHandle pid))
         (with__local_port (Some (bound_port (env (snd s)))) (fst s))) /\
    exists evs0 evs,
      new_events s s' (evs0 ++ evs) /\
      forallb launch_event evs0 = true /\
      filter is_publish evs = [] /\
      filter (fun e => is_error_log e || is_listen_close e
                       || is_teardown_step e) evs =
      Log LError MsgConnectTimedOut :: Call CServerSocketClose
      :: teardown_steps
           (with__server_process (Some (PopenHandle pid))
              (with__local_port (Some (bound_port (env (snd s)))) (fst s)))
           (next_shell_result (snd s)))).
  destruct s as [[] [[] ? ? ? ? ? ? ? ? ? ? ? ?]].
  unfold launch_fails in Hlaunch.
  cbn [fst snd env is_running in_worker popen_result push_result accepts
       reverse_result device_serial bound_port]
    in ER, Hw, Hpush, Hlaunch, Hpid, Hacc |- *.
  subst.
  destruct reverse_result0; [discriminate Hlaunch|].
  destruct device_serial0 as [serial|]; [|discriminate Hlaunch].
  clear Hlaunch.
  match goal with |- wp _ _ ?Q => set (post := Q) end.
  unfold start.
  repeat wp_run_step.
  apply wp_bind. eapply wp_conseq; [apply push_server_run|].
  intros r s1 [Hr [evs0 [Hs1 [Fl _]]]].
  cbn [snd env push_result] in Hr.
  assert (Hr' : r = Ok tt) by (rewrite Hr; destruct (server_up_to_date _);
                               reflexivity).
  clear Hr. subst r s1.
  match goal with |- wp _ ?s1 _ =>
    let s1' := norm s1 in change s1 with s1'
  end.
  unfold _connect_sockets, connect_body.
  destruct Hacc as [-> | ->].
  all: repeat wp_run_step.
  all: cbn [connect_handlers]; repeat wp_run_step.

  all: repeat wp_stop_lit_step.
  all: subst post; cbv beta;
    unfold new_events, stop_client, teardown_steps, next_shell_result,
      truthy_port;
    cbv [with__server_process with__local_port];
    proj_simpl; cbn [shell_results];
    repeat match goal with
           | H : ?x = _ |- context [?x] => rewrite H
           end.
  all: destruct _control_socket0, _video_socket0.
  all: (split; [reflexivity|]); (split; [reflexivity|]);
    exists evs0; eexists;
    (split; [rewrite <- !app_assoc; reflexivity|]);
    (split; [exact Fl|]); split; reflexivity.
Qed.

End Model.

(* ================================================================= *)
(** * A sample device *)

(** A decoder that turns every payload into one packet and every packet
    into one frame, its length; subscriber 0 returns, subscriber 1 raises,
    any other stops the client. *)
Module Sample.

Definition Frame : Type := N.
Definition Packet : Type := bytes.

Definition parse (st : nat) (data : bytes) : nat * (Exn + list Packet) :=
  (S st, inr [data]).

Definition decode (st : nat) (p : Packet) : nat * (Exn + list Frame) :=
  (st, inr [N.of_nat (List.length p)]).

Definition body (l : ListenerId) (ev : ListenEvent) (arg : option Frame)
  (u : nat) : nat * ListenerAct :=
  (S u,
   match l with
   | 0 => ActReturn
   | 1 => ActRaise OtherException
   | _ => ActStop
   end).

Definition bytes_of_string (s : string) : bytes :=
  map byte_of_ascii (list_ascii_of_string s).

Definition device : Env :=
  mkEnv (Some "SER"%string) "adb"%string (inl FileNotFoundError)
    (inr (10, 20)%N) None 4242%N None (inr 77%N).

(** A client as [__init__] leaves it, with two custom server arguments. *)
Definition fresh (ls : ListenEvent -> list ListenerId) : Client Frame :=
  mkClient 0x1234%N "scrcpy_00001234"%string ls false None None
    None None None None None
    (str_of_string "unknown") h264
    [("max_fps", "60"); ("foo", "bar")]%string.

(** The same client after a handshake. *)
Definition connected (ls : ListenEvent -> list ListenerId) : Client Frame :=
  mkClient 0x1234%N "scrcpy_00001234"%string ls true None (Some (1080, 2400)%N)
    (Some (PopenHandle 77%N)) (Some VideoConn) (Some ControlConn) None
    (Some 4242%N)
    (str_of_string "DEVICEXYZ") h264
    [("max_fps", "60"); ("foo", "bar")]%string.

Definition world (script : list SockEvent) : World Frame Packet nat nat :=
  mkWorld device [] [Accepted; Accepted] script [] false false
    NotLaunched false false [] 0 0.

Definition launched (script : list SockEvent)
  : World Frame Packet nat nat :=
  mkWorld device [] [] script [] false false ProcRunning false false [] 0 0.

(** The bytes of a handshake and of a packet. *)
Definition handshake (codec : string) (w h : N) : bytes :=
  bytes_of_string "DEVICEXYZ" ++ repeat x00 55 ++ bytes_of_string codec ++
  u32_be w ++ u32_be h.

Definition no_listeners (ev : ListenEvent) : list ListenerId := [].

(** The decoder factory, and a lowering of text outside ASCII that leaves
    it as it is (the sample never reaches it). *)
Definition create (id : str) : nat := 0.
Definition lower (s : str) : str := s.

(** A decoder that rejects every payload. *)
Definition reject (st : nat) (data : bytes) : nat * (Exn + list Packet) :=
  (st, inl InvalidDataError).

(** The name field of the handshake, and one packet with a payload of
    three bytes. *)
Definition name_field : bytes := bytes_of_string "DEVICEXYZ" ++ repeat x00 55.
Definition packet : bytes :=
  packet_bytes (repeat x00 8) (bytes_of_string "abc").

(** A device whose transport refuses the port forward. *)
Definition unreachable : World Frame Packet nat nat :=
  mkWorld
    (mkEnv (Some "SER"%string) "adb"%string (inl FileNotFoundError)
       (inr (10, 20)%N) None 4242%N (Some AdbError) (inr 77%N))
    [] [Accepted; Accepted] [] [] false false NotLaunched false false [] 0 0.

(** A device whose server starts and never connects back. *)
Definition silent : World Frame Packet nat nat :=
  mkWorld device [] [AcceptTimeout] [] [] false false
    NotLaunched false false [] 0 0.

(** Five bytes that arrive in two reads, with a timeout in between. *)
Definition two_reads : list SockEvent :=
  [SockBytes [x01; x02]; SockTimeout; SockBytes [x03; x04; x05]].

End Sample.

Lemma stop_idempotent_witness :
  fst (stop (Sample.connected Sample.no_listeners, Sample.launched []))
  = Ok tt /\
  fst (stop (snd (stop (Sample.connected Sample.no_listeners,
                        Sample.launched []))))
  = Ok tt.
Proof.
  assert (H : fst (stop (Sample.connected Sample.no_listeners,
                         Sample.launched [])) = Ok tt)
    by (vm_compute; reflexivity).
  split; [exact H|].
  exact (proj1 (stop_idempotent
                  (Sample.connected Sample.no_listeners, Sample.launched [])
                  H)).
Defined.


(** ** Instances of the further properties on the sample device *)

Lemma recv_all_exact_witness :
  fst (_recv_all 3 (Sample.connected Sample.no_listeners,
                    Sample.launched Sample.two_reads))
  = Ok [x01; x02; x03] /\
  script_bytes
    (video_in
       (snd (snd (_recv_all 3 (Sample.connected Sample.no_listeners,
                               Sample.launched Sample.two_reads)))))
  = [x04; x05].
Proof.
  pose (s := (Sample.connected Sample.no_listeners,
              Sample.launched Sample.two_reads)).
  assert (Hopen : video_closed (snd s) = false) by reflexivity.
  assert (Hchunks : Forall chunk_event (video_in (snd s))).
  { repeat (constructor; [simpl; try discriminate; exact I|]).
    constructor. }
  assert (Hlen : 3 <= List.length (script_bytes (video_in (snd s))))
    by (simpl; lia).
  pose proof (recv_all_exact (n:=3) s Hopen Hchunks Hlen) as [H1 [H2 _]].
  split; [exact H1 | exact H2].
Defined.

Lemma recv_all_peer_closed_witness :
  fst (_recv_all 8 (Sample.connected Sample.no_listeners,
                    Sample.launched Sample.two_reads))
  = Raise ConnectionAbortedError /\
  video_in
    (snd (snd (_recv_all 8 (Sample.connected Sample.no_listeners,
                            Sample.launched Sample.two_reads))))
  = [].
Proof.
  pose (s := (Sample.connected Sample.no_listeners,
              Sample.launched Sample.two_reads)).
  assert (Hopen : video_closed (snd s) = false) by reflexivity.
  assert (Hchunks : Forall chunk_event (video_in (snd s))).
  { repeat (constructor; [simpl; try discriminate; exact I|]).
    constructor. }
  assert (Hlen : List.length (script_bytes (video_in (snd s))) < 8)
    by (simpl; lia).
  pose proof (recv_all_peer_closed (n:=8) s Hopen Hchunks Hlen)
    as [H1 [H2 _]].
  split; [exact H1 | exact H2].
Defined.

Lemma recv_all_length_witness :
  fst (_recv_all 3 (Sample.connected Sample.no_listeners,
                    Sample.launched Sample.two_reads))
  = Ok [x01; x02; x03] /\
  List.length [x01; x02; x03] = 3.
Proof.
  pose (s := (Sample.connected Sample.no_listeners,
              Sample.launched Sample.two_reads)).
  assert (H : fst (_recv_all 3 s) = Ok [x01; x02; x03])
    by (vm_compute; reflexivity).
  split; [exact H | exact (proj1 (recv_all_length 3 s H))].
Defined.

Lemma listening_socket_closed_witness :
  exists evs,
    new_events
      (Sample.fresh Sample.no_listeners, Sample.silent)
      (snd (_connect_sockets Sample.body Sample.lower
              (Sample.fresh Sample.no_listeners, Sample.silent)))
      (evs ++ [Call Sample.Frame (CServerSocketClose Sample.Packet)]).
Proof.
  pose (s := (Sample.fresh Sample.no_listeners, Sample.silent)).
  assert (H : launch_fails (env (snd s)) = false) by reflexivity.
  exact (proj2 (listening_socket_closed Sample.body Sample.lower s H)).
Defined.

Lemma launch_failure_leaves_socket_witness :
  launch_fails (env Sample.unreachable) = true /\
  _local_port
    (fst (snd (_connect_sockets Sample.body Sample.lower
                 (Sample.fresh Sample.no_listeners, Sample.unreachable))))
  = Some 4242%N.
Proof.
  pose (s := (Sample.fresh Sample.no_listeners, Sample.unreachable)).
  assert (H : launch_fails (env (snd s)) = true) by reflexivity.
  split; [exact H|].
  exact (proj1 (proj2 (launch_failure_leaves_socket
                         Sample.body Sample.lower s H))).
Defined.

Lemma stop_fresh_client_witness :
  fst (stop (Sample.fresh Sample.no_listeners, Sample.world [])) = Ok tt /\
  fst (snd (stop (Sample.fresh Sample.no_listeners, Sample.world [])))
  = Sample.fresh Sample.no_listeners.
Proof.
  assert (H : __init__ Sample.Frame true 0x1234%N
                (Some [("max_fps", "60"); ("foo", "bar")]%string)
              = inr (Sample.fresh Sample.no_listeners))
    by (vm_compute; reflexivity).
  pose proof (stop_fresh_client true 0x1234%N
                (Some [("max_fps", "60"); ("foo", "bar")]%string)
                (Sample.world []) H) as E.
  split; [exact (f_equal fst E) | exact (f_equal (fun r => fst (snd r)) E)].
Defined.

Lemma device_name_padding_witness :
  option_map rstrip_nul (decode_utf8 Sample.name_field)
  = Some (str_of_string "DEVICEXYZ").
Proof.
  assert (Hascii : Forall (fun b => (to_N b < 128)%N)
                     (Sample.bytes_of_string "DEVICEXYZ"))
    by (repeat (constructor; [reflexivity|]); constructor).
  assert (Hlast : last (Sample.bytes_of_string "DEVICEXYZ") x01 <> x00)
    by (vm_compute; discriminate).
  exact (device_name_padding 55 Hascii Hlast).
Defined.

Lemma rejected_payload_skipped_witness :
  fst (stream_iteration Sample.reject Sample.decode Sample.body
         (Sample.connected Sample.no_listeners,
          Sample.launched [SockBytes (Sample.packet ++ [x07])]))
  = Ok Continue /\
  data_buffer
    (snd (snd (stream_iteration Sample.reject Sample.decode Sample.body
                 (Sample.connected Sample.no_listeners,
                  Sample.launched [SockBytes (Sample.packet ++ [x07])]))))
  = [x07].
Proof.
  pose (s := (Sample.connected Sample.no_listeners,
              Sample.launched [SockBytes (Sample.packet ++ [x07])])).
  assert (H1 : List.length (repeat x00 8) = 8) by reflexivity.
  assert (H2 : (N.of_nat (List.length (Sample.bytes_of_string "abc"))
                < 4294967296)%N) by reflexivity.
  assert (H3 : List.length
                 (packet_bytes (repeat x00 8) (Sample.bytes_of_string "abc")
                  ++ [x07]) <= RECV_SIZE)
    by (apply Nat.leb_le; vm_compute; reflexivity).
  assert (H4 : is_running (fst s) = true) by reflexivity.
  assert (H5 : video_closed (snd s) = false) by reflexivity.
  assert (H6 : data_buffer (snd s) = []) by reflexivity.
  assert (H7 : video_in (snd s)
               = SockBytes (packet_bytes (repeat x00 8)
                              (Sample.bytes_of_string "abc") ++ [x07]) :: [])
    by reflexivity.
  assert (H8 : snd (Sample.reject (codec (snd s))
                      (Sample.bytes_of_string "abc"))
               = inl InvalidDataError) by reflexivity.
  pose proof (rejected_payload_skipped Sample.reject Sample.decode
                Sample.body s (repeat x00 8) (Sample.bytes_of_string "abc")
                [x07] H1 H2 H3 H4 H5 H6 H7 H8) as [R1 [R2 _]].
  split; [exact R1 | exact R2].
Defined.

(** The sample device answers with a handshake for a 1080x2400 h264 stream
    and one packet. *)
Lemma sample_device_answers :
  device_answers
    (Sample.fresh Sample.no_listeners,
     Sample.world [SockBytes (Sample.handshake "h264" 1080 2400
                              ++ Sample.packet)])
    77 []
    (Sample.name_field ++ Sample.bytes_of_string "h264" ++ u32_be 1080
     ++ u32_be 2400 ++ Sample.packet).
Proof.
  repeat split; try reflexivity.
  repeat constructor. discriminate.
Defined.

Lemma sample_good_handshake :
  good_handshake Sample.lower Sample.name_field
    (Sample.bytes_of_string "h264") (u32_be 1080) (u32_be 2400)
    (str_of_string "DEVICEXYZ" ++ repeat 0%N 55) h264.
Proof.
  repeat split; try reflexivity.
  vm_compute. discriminate.
Defined.

Lemma start_threaded_connects_witness :
  let s := (Sample.fresh Sample.no_listeners,
            Sample.world [SockBytes (Sample.handshake "h264" 1080 2400
                                     ++ Sample.packet)]) in
  let r := start Sample.create Sample.parse Sample.decode Sample.body
             Sample.lower true s in
  fst r = Ok tt /\
  is_running (fst (snd r)) = true /\
  device_name (fst (snd r)) = str_of_string "DEVICEXYZ" /\
  resolution (fst (snd r)) = Some (1080, 2400)%N.
Proof.
  intros s r.
  pose proof (start_threaded_connects Sample.create Sample.parse
                Sample.decode Sample.body Sample.packet
                (s:=s) eq_refl eq_refl eq_refl
                sample_device_answers sample_good_handshake)
    as [R1 [R2 [R3 [_ [R5 _]]]]].
  exact (conj R1 (conj R2 (conj R3 R5))).
Defined.

Lemma start_then_stop_witness :
  let s := (Sample.fresh Sample.no_listeners,
            Sample.world [SockBytes (Sample.handshake "h264" 1080 2400
                                     ++ Sample.packet)]) in
  let s1 := snd (start Sample.create Sample.parse Sample.decode Sample.body
                   Sample.lower true s) in
  fst (stop s1) = Ok tt /\
  is_running (fst (snd (stop s1))) = false /\
  resources (snd (snd (stop s1))) = (true, true, ProcReaped, false).
Proof.
  intros s s1.
  assert (Hport : bound_port (env (snd s)) <> 0%N) by discriminate.
  pose proof (start_then_stop Sample.create Sample.parse
                Sample.decode Sample.body Sample.packet
                (s:=s) eq_refl eq_refl eq_refl
                sample_device_answers sample_good_handshake eq_refl Hport)
    as [R1 [R2 [_ [_ [R5 _]]]]].
  exact (conj R1 (conj R2 R5)).
Defined.

Lemma start_unthreaded_streams_witness :
  let s := (Sample.fresh Sample.no_listeners,
            Sample.world [SockBytes (Sample.handshake "h264" 1080 2400
                                     ++ Sample.packet)]) in
  let r := start Sample.create Sample.parse Sample.decode Sample.body
             Sample.lower false s in
  fst r = Ok tt /\ is_running (fst (snd r)) = false.
Proof.
  intros s r.
  pose proof (start_unthreaded_streams Sample.create Sample.parse
                Sample.decode Sample.body Sample.packet
                (s:=s) eq_refl eq_refl eq_refl
                sample_device_answers sample_good_handshake)
    as [R1 [R2 _]].
  split; [exact R1 | exact R2].
Defined.

Lemma start_device_never_connects_witness :
  let s := (Sample.fresh Sample.no_listeners, Sample.silent) in
  let r := start Sample.create Sample.parse Sample.decode Sample.body
             Sample.lower true s in
  fst r = Ok tt /\
  is_running (fst (snd r)) = false /\
  _server_process (fst (snd r)) = Some (PopenHandle 77).
Proof.
  intros s r.
  pose proof (start_device_never_connects Sample.create Sample.parse
                Sample.decode Sample.body Sample.lower true s
                (pid:=77%N) (later:=[])
                eq_refl eq_refl eq_refl eq_refl eq_refl
                (or_intror eq_refl))
    as [R1 [R2 _]].
  split; [exact R1|].
  split; [exact (f_equal (@is_running _) R2)
         | exact (f_equal (@_server_process _) R2)].
Defined.
